(** * Aggkit: a shallow embedding of the certificate pipeline, the proof
    generation tool, the epoch notifier, the EVM downloader and its
    implementation, the L1 info tree reader, the bridge service lookups and
    two of its endpoints, and the agglayer types, with the properties their
    specification states and further properties read off the code.

    Part I holds the models, in modules that follow the Go packages; Part II
    holds the theorems, one module per model.  Machine integers are [Z] with their
    wrap-around written out; [float64] is Rocq's primitive binary64. *)

From Stdlib Require Import ZArith List Bool Lia String Ascii.
From Stdlib Require Import Strings.Byte.
From Stdlib Require Import Floats.PrimFloat Numbers.Cyclic.Int63.Uint63.
From Stdlib Require DecimalString DecimalZ.
Import ListNotations.
Local Open Scope Z_scope.

(* ===================================================================== *)
(** * Part I: models                                                       *)
(* ===================================================================== *)

(** ** Machine integers and floats *)

Module Machine.

Definition u64 (z : Z) : Z := z mod 2 ^ 64.
Definition u32 (z : Z) : Z := z mod 2 ^ 32.

(** Go's [int] on a 64-bit target: two's complement reading of 64 bits. *)
Definition int64 (z : Z) : Z := (z + 2 ^ 63) mod 2 ^ 64 - 2 ^ 63.

Definition max_int64 : Z := 2 ^ 63 - 1.

(** [float64(x)] for an unsigned 64-bit [x].  The primitive conversion takes
    63 bits; above that the value is halved with a sticky low bit, converted
    and doubled, which rounds to the same binary64 as a direct conversion. *)
Definition float64_of_u64 (z : Z) : float :=
  if z <? 2 ^ 63 then PrimFloat.of_uint63 (Uint63.of_Z z)
  else PrimFloat.mul
         (PrimFloat.of_uint63 (Uint63.of_Z (Z.lor (Z.shiftr z 1) (Z.land z 1))))
         (PrimFloat.of_uint63 (Uint63.of_Z 2)).

End Machine.

(** ** aggsender: EpochNotifierPerBlock *)

Module EpochNotifier.
Import Machine.

Definition maxPercent : Z := 100.

Record ExtraInfoEventEpoch := { PendingBlocks : Z }.

Record ConfigEpochNotifierPerBlock := {
  StartingEpochBlock : Z;
  NumBlockPerEpoch : Z;
  EpochNotificationPercentage : Z
}.

(** [Validate] returns [true] where the Go method returns a nil error. *)
Definition Validate (c : ConfigEpochNotifierPerBlock) : bool :=
  if NumBlockPerEpoch c =? 0 then false
  else if maxPercent <=? EpochNotificationPercentage c then false
  else true.

Record EpochEvent := { Epoch : Z; ExtraInfo : ExtraInfoEventEpoch }.

Record internalStatus := { lastBlockSeen : Z; waitingForEpoch : Z }.

Section WithConfig.
Variable Config : ConfigEpochNotifierPerBlock.

(** The integer division below is by [NumBlockPerEpoch], which [Validate]
    guarantees to be positive for every notifier that was constructed. *)
Definition epochNumber (currentBlock : Z) : Z :=
  if currentBlock <? StartingEpochBlock Config then 0
  else u64 (1 + u64 (currentBlock - StartingEpochBlock Config) / NumBlockPerEpoch Config).

Definition startingBlockEpoch (epoch : Z) : Z :=
  if epoch =? 0 then u64 (StartingEpochBlock Config - 1)
  else u64 (StartingEpochBlock Config + u64 (u64 (epoch - 1) * NumBlockPerEpoch Config)).

Definition endBlockEpoch (epoch : Z) : Z := startingBlockEpoch (u64 (epoch + 1)).

Definition infoEpoch (currentBlock newEpochNotified : Z) : ExtraInfoEventEpoch :=
  let nextBlockStartingEpoch := endBlockEpoch newEpochNotified in
  {| PendingBlocks := int64 (u64 (nextBlockStartingEpoch - currentBlock)) |}.

Definition percentEpoch (currentBlock : Z) : float :=
  let epoch := epochNumber currentBlock in
  let startingBlock := startingBlockEpoch epoch in
  let elapsedBlocks := u64 (currentBlock - startingBlock) in
  PrimFloat.div (float64_of_u64 elapsedBlocks) (float64_of_u64 (NumBlockPerEpoch Config)).

Definition isNotificationRequired (currentBlock lastEpochNotified : Z) : bool * Z :=
  let percent := percentEpoch currentBlock in
  let thresholdPercent :=
    PrimFloat.div (float64_of_u64 (EpochNotificationPercentage Config))
                  (float64_of_u64 maxPercent) in
  let maxTresholdPercent :=
    PrimFloat.div (float64_of_u64 (u64 (NumBlockPerEpoch Config - 1)))
                  (float64_of_u64 (NumBlockPerEpoch Config)) in
  let thresholdPercent :=
    if PrimFloat.ltb maxTresholdPercent thresholdPercent
    then maxTresholdPercent else thresholdPercent in
  if PrimFloat.ltb percent thresholdPercent then (false, epochNumber currentBlock)
  else
    let nextEpoch := u64 (epochNumber currentBlock + 1) in
    (lastEpochNotified <? nextEpoch, epochNumber currentBlock).

Definition step (status : internalStatus) (currentBlock : Z)
  : internalStatus * option EpochEvent :=
  if currentBlock <? StartingEpochBlock Config then (status, None)
  else if currentBlock <=? lastBlockSeen status then (status, None)
  else
    let status := {| lastBlockSeen := currentBlock;
                     waitingForEpoch := waitingForEpoch status |} in
    let '(needNotify, closingEpoch) :=
      isNotificationRequired currentBlock (waitingForEpoch status) in
    if needNotify then
      let info := infoEpoch currentBlock closingEpoch in
      ({| lastBlockSeen := lastBlockSeen status;
          waitingForEpoch := u64 (closingEpoch + 1) |},
       Some {| Epoch := closingEpoch; ExtraInfo := info |})
    else (status, None).

(** The loop of [startInternal] over the blocks received on the channel; the
    result lists every published event with the block that triggered it. *)
Fixpoint loop (status : internalStatus) (blocks : list Z) : list (Z * EpochEvent) :=
  match blocks with
  | [] => []
  | newBlock :: rest =>
      let '(status', event) := step status newBlock in
      match event with
      | Some ev => (newBlock, ev) :: loop status' rest
      | None => loop status' rest
      end
  end.

Definition startInternal (blocks : list Z) : list (Z * EpochEvent) :=
  loop {| lastBlockSeen := StartingEpochBlock Config;
          waitingForEpoch := epochNumber (StartingEpochBlock Config) |} blocks.

(** The two float64 thresholds the source computes, and the one it uses. *)
Definition pctThreshold : float :=
  PrimFloat.div (float64_of_u64 (EpochNotificationPercentage Config))
                (float64_of_u64 maxPercent).

Definition maxThreshold : float :=
  PrimFloat.div (float64_of_u64 (u64 (NumBlockPerEpoch Config - 1)))
                (float64_of_u64 (NumBlockPerEpoch Config)).

Definition minOfThresholds : float :=
  if PrimFloat.ltb maxThreshold pctThreshold then maxThreshold else pctThreshold.

Definition maxOfThresholds : float :=
  if PrimFloat.ltb maxThreshold pctThreshold then pctThreshold else maxThreshold.

(** [percent(currentBlock) >= t] on float64 values. *)
Definition percentReaches (t : float) (currentBlock : Z) : bool :=
  negb (PrimFloat.ltb (percentEpoch currentBlock) t).

Definition eventAt (currentBlock : Z) : EpochEvent :=
  {| Epoch := epochNumber currentBlock;
     ExtraInfo := infoEpoch currentBlock (epochNumber currentBlock) |}.

End WithConfig.

(** The configuration fields hold values of their unsigned 64-bit types. *)
Definition uintFields (c : ConfigEpochNotifierPerBlock) : Prop :=
  0 <= StartingEpochBlock c < 2 ^ 64 /\
  0 <= NumBlockPerEpoch c < 2 ^ 64 /\
  0 <= EpochNotificationPercentage c < 2 ^ 64.

(** Blocks in strictly increasing order. *)
Fixpoint increasing (blocks : list Z) : Prop :=
  match blocks with
  | [] => True
  | b :: rest => (forall b', In b' rest -> b < b') /\ increasing rest
  end.

(** [b] is the first block of its epoch, among the blocks of the stream above
    [lowest], whose float64 percentage is not below [t]; [e] is the event the
    notifier builds there. *)
Definition publishedAt (c : ConfigEpochNotifierPerBlock) (t : float) (lowest : Z)
  (blocks : list Z) (b : Z) (e : EpochEvent) : Prop :=
  In b blocks /\ lowest < b /\ percentReaches c t b = true /\
  (forall b', In b' blocks -> lowest < b' -> b' < b ->
     epochNumber c b' = epochNumber c b -> percentReaches c t b' = false) /\
  e = eventAt c b.

(** The rule as the specification words it: every published event sits at a
    block whose percentage reaches the larger of the two thresholds. *)
Definition publishedOnlyAboveMax (c : ConfigEpochNotifierPerBlock) (blocks : list Z) : Prop :=
  forall b e, In (b, e) (startInternal c blocks) ->
    percentReaches c (maxOfThresholds c) b = true.

(** Scenario 3 of the specification. *)
Definition scenarioConfig : ConfigEpochNotifierPerBlock :=
  {| StartingEpochBlock := 100; NumBlockPerEpoch := 10; EpochNotificationPercentage := 50 |}.

Definition scenarioBlocks : list Z := [100; 101; 102; 103; 104; 105; 106; 107; 108; 109].

(** The blocks of a stream that [step] does not drop as already seen: those
    above [last] and above every block before them. *)
Fixpoint records (last : Z) (blocks : list Z) : list Z :=
  match blocks with
  | [] => []
  | b :: rest => if last <? b then b :: records b rest else records last rest
  end.

(** A stream with repeated and out-of-order block numbers. *)
Definition unorderedBlocks : list Z := [100; 103; 101; 106; 106; 111; 104; 118; 125].

(** The same clock asked to notify at the start of the epoch. *)
Definition notifyAtStartConfig : ConfigEpochNotifierPerBlock :=
  {| StartingEpochBlock := 100; NumBlockPerEpoch := 10; EpochNotificationPercentage := 0 |}.

End EpochNotifier.

(** ** Go errors, results and panics *)

Module GoError.

(** An error value: a gRPC status error, a sentinel created by [errors.New],
    or an error wrapped by [fmt.Errorf] with the verb %w.  The wrapping text
    is kept as its constant prefix. *)
Inductive error :=
| GRPCError (Code : Z) (Message : string)
| Sentinel (text : string)
| Wrapped (context : string) (cause : error).

Fixpoint error_eqb (a b : error) : bool :=
  match a, b with
  | GRPCError c m, GRPCError c' m' => (c =? c') && String.eqb m m'
  | Sentinel t, Sentinel t' => String.eqb t t'
  | Wrapped x e, Wrapped x' e' => String.eqb x x' && error_eqb e e'
  | _, _ => false
  end.

(** Modelled from the spec: the declaration of [GRPCError] is not under src/;
    a gRPC error is identified by its code and message, as the specification
    words the no-proof-yet condition, so [errors.Is] compares those. *)
Fixpoint errors_Is (err target : error) : bool :=
  error_eqb err target ||
  match err with
  | Wrapped _ cause => errors_Is cause target
  | _ => false
  end.

(** What a Go call yields: a value with a nil error, a non-nil error, or a
    run-time panic (a nil pointer dereference). *)
Inductive outcome (A : Type) :=
| Ok (a : A)
| Fail (e : error)
| Panic.
Arguments Ok {A} a.
Arguments Fail {A} e.
Arguments Panic {A}.

(** [codes.Unavailable] of google.golang.org/grpc/codes. *)
Definition codes_Unavailable : Z := 14.

End GoError.

(** ** aggsender/flows: AggchainProverFlow *)

Module Flows.
Import Machine GoError.

Definition Hash := Z.

Inductive CertificateStatus := Pending | Proven | Candidate | InError | Settled.

Definition IsInError (c : CertificateStatus) : bool :=
  match c with InError => true | _ => false end.

Inductive CertificateType :=
| CertificateTypeUnknown | CertificateTypePP | CertificateTypeFEP | CertificateTypeOptimistic.

Definition CertificateType_eqb (a b : CertificateType) : bool :=
  match a, b with
  | CertificateTypeUnknown, CertificateTypeUnknown
  | CertificateTypePP, CertificateTypePP
  | CertificateTypeFEP, CertificateTypeFEP
  | CertificateTypeOptimistic, CertificateTypeOptimistic => true
  | _, _ => false
  end.

(** Bridges and claims: the block they were seen in, and their content, which
    the flow passes around without looking into it. *)
Record Bridge := { Bridge_BlockNum : Z; Bridge_Content : Z }.
Record Claim := { Claim_BlockNum : Z; Claim_Content : Z }.

Record AggchainProof := {
  LastProvenBlock : Z;
  EndBlock : Z;
  SP1StarkProof : list Z
}.

Record Root := { Root_Hash : Hash; Root_Index : Z }.

Record CertificateHeader := {
  Height : Z;
  CertificateID : Hash;
  Header_FromBlock : Z;
  Header_ToBlock : Z;
  Status : CertificateStatus;
  Header_CreatedAt : Z;
  Header_RetryCount : Z;
  CertType : CertificateType;
  FinalizedL1InfoTreeRoot : option Hash;
  Header_L1InfoTreeLeafCount : Z
}.

Record CertificateBuildParams := {
  FromBlock : Z;
  ToBlock : Z;
  RetryCount : Z;
  Bridges : list Bridge;
  Claims : list Claim;
  LastSentCertificate : option CertificateHeader;
  CreatedAt : Z;
  CertificateType_ : CertificateType;
  L1InfoTreeRootFromWhichToProve : Hash;
  L1InfoTreeLeafCount : Z;
  AggchainProof_ : option AggchainProof;
  ExtraData : list Z
}.

Record ImportedBridgeExitWithBlockNumber := {
  ImportedBridgeExit : Z;
  BlockNumber : Z
}.

Record AggchainProofRequest := {
  Req_LastProvenBlock : Z;
  RequestedEndBlock : Z;
  L1InfoTreeRootHash : Hash;
  L1InfoTreeLeaf : Z;
  L1InfoTreeMerkleProof : Hash * list Hash;
  GERLeavesWithBlockNumber : list (Hash * Z);
  ImportedBridgeExitsWithBlockNumber : list ImportedBridgeExitWithBlockNumber
}.

(** One exchange with the external prover, as the flow sees it. *)
Record ProverCall := {
  optimistic : bool;
  request : AggchainProofRequest;
  reply : outcome AggchainProof
}.

Definition errNoProofBuiltYet : error :=
  GRPCError codes_Unavailable "Proposer service has not built any proof yet".

(** Sentinel of the base flow; only its identity matters here. *)
Definition errNoNewBlocks : error := Sentinel "no new blocks to send a certificate".

(** Modelled from the spec: [CertificateBuildParams.Range] is not under src/.
    The specification says that shrinking the range drops the bridges and
    claims with blockNum above the new end block and sets toBlock to it. *)
Definition Range (c : CertificateBuildParams) (fromBlock toBlock : Z)
  : outcome CertificateBuildParams :=
  Ok {| FromBlock := fromBlock;
        ToBlock := toBlock;
        RetryCount := RetryCount c;
        Bridges := filter (fun b => Bridge_BlockNum b <=? toBlock) (Bridges c);
        Claims := filter (fun cl => Claim_BlockNum cl <=? toBlock) (Claims c);
        LastSentCertificate := LastSentCertificate c;
        CreatedAt := CreatedAt c;
        CertificateType_ := CertificateType_ c;
        L1InfoTreeRootFromWhichToProve := L1InfoTreeRootFromWhichToProve c;
        L1InfoTreeLeafCount := L1InfoTreeLeafCount c;
        AggchainProof_ := AggchainProof_ c;
        ExtraData := ExtraData c |}.

(** The assignment [certBuildParams.ExtraData = extraData]. *)
Definition withExtraData (p : CertificateBuildParams) (extraData : list Z)
  : CertificateBuildParams :=
  {| FromBlock := FromBlock p;
     ToBlock := ToBlock p;
     RetryCount := RetryCount p;
     Bridges := Bridges p;
     Claims := Claims p;
     LastSentCertificate := LastSentCertificate p;
     CreatedAt := CreatedAt p;
     CertificateType_ := CertificateType_ p;
     L1InfoTreeRootFromWhichToProve := L1InfoTreeRootFromWhichToProve p;
     L1InfoTreeLeafCount := L1InfoTreeLeafCount p;
     AggchainProof_ := AggchainProof_ p;
     ExtraData := extraData |}.

Section Flow.

(** The aggsender storage is an interface; its content stays abstract. *)
Variable Storage : Type.

(** The world a tick runs in: the storage and the log of prover exchanges,
    most recent first. *)
Record World := { storage : Storage; proverCalls : list ProverCall }.

Definition M (A : Type) : Type := World -> outcome A * World.

Definition ret {A} (a : A) : M A := fun w => (Ok a, w).

Definition bind {A B} (m : M A) (k : A -> M B) : M B :=
  fun w =>
    match m w with
    | (Ok a, w') => k a w'
    | (Fail e, w') => (Fail e, w')
    | (Panic, w') => (Panic, w')
    end.

(** A call that neither reads nor changes the world; an error comes back
    wrapped with the caller's text. *)
Definition call {A} (context : string) (r : outcome A) : M A :=
  fun w =>
    match r with
    | Ok a => (Ok a, w)
    | Fail e => (Fail (Wrapped context e), w)
    | Panic => (Panic, w)
    end.

(** [fmt.Errorf(context + ": %w", err)] on the error path of [m]. *)
Definition wrapErr {A} (context : string) (m : M A) : M A :=
  fun w =>
    match m w with
    | (Fail e, w') => (Fail (Wrapped context e), w')
    | r => r
    end.

Definition check (context : string) (r : option error) : M unit :=
  fun w =>
    match r with
    | None => (Ok tt, w)
    | Some e => (Fail (Wrapped context e), w)
    end.

(** The struct [AggchainProverFlow]: every collaborator is an interface, so
    each method the flow calls is a field.  Logging is left out. *)
Record AggchainProverFlow := {
  StartL2Block : Z;
  GetCertificateBuildParamsInternal :
    CertificateType -> outcome (option CertificateBuildParams);
  VerifyBuildParams : option CertificateBuildParams -> option error;
  ConvertClaimToImportedBridgeExit : Claim -> outcome Z;
  GetNewLocalExitRoot : CertificateBuildParams -> outcome Hash;
  GetLastSentCertificateHeaderWithProofIfInError :
    Storage -> outcome (option CertificateHeader * option AggchainProof);
  GetFinalizedL1InfoTreeData : outcome (list Hash * Z * Root);
  CheckIfClaimsArePartOfFinalizedL1InfoTree : Root -> list Claim -> option error;
  GetBridgesAndClaims : Z -> Z -> outcome (list Bridge * list Claim);
  GetInjectedGERsProofs : Root -> Z -> Z -> outcome (list (Hash * Z));
  GenerateAggchainProof_client : AggchainProofRequest -> outcome AggchainProof;
  GenerateOptimisticAggchainProof_client :
    AggchainProofRequest -> list Z -> outcome AggchainProof;
  IsOptimisticModeOn : outcome bool;
  optimisticSigner_Sign :
    AggchainProofRequest -> Hash -> list Claim -> outcome (list Z * list Z);
  featureMaxL2Block :
    option (option CertificateBuildParams -> outcome (option CertificateBuildParams))
}.

Variable a : AggchainProverFlow.

Definition getCertificateTypeToGenerate : M CertificateType :=
  bind (call "getCertificateTypeToGenerate - error getting optimistic mode" (IsOptimisticModeOn a))
    (fun optimisticMode =>
       if optimisticMode : bool then ret CertificateTypeOptimistic
       else ret CertificateTypeFEP).

Definition getLastProvenBlock (fromBlock : Z) (lastCertificate : option CertificateHeader) : Z :=
  if fromBlock =? 0 then StartL2Block a
  else if match lastCertificate with
          | Some c => Header_ToBlock c <? StartL2Block a
          | None => false
          end
  then StartL2Block a
  else if u64 (fromBlock - 1) <? StartL2Block a then StartL2Block a
  else u64 (fromBlock - 1).

Definition adjustBlockRange (buildParams : CertificateBuildParams)
  (requestedToBlock aggchainProverToBlock : Z) : outcome CertificateBuildParams :=
  if negb (requestedToBlock =? aggchainProverToBlock) then
    match Range buildParams (FromBlock buildParams) aggchainProverToBlock with
    | Ok p => Ok p
    | Fail e => Fail (Wrapped "aggchainProverFlow - error adjusting the range of the certificate" e)
    | Panic => Panic
    end
  else Ok buildParams.

Fixpoint getImportedBridgeExitsForProver (claims : list Claim)
  : outcome (list ImportedBridgeExitWithBlockNumber) :=
  match claims with
  | [] => Ok []
  | claim :: rest =>
      match ConvertClaimToImportedBridgeExit a claim with
      | Ok ibe =>
          match getImportedBridgeExitsForProver rest with
          | Ok l => Ok ({| ImportedBridgeExit := ibe; BlockNumber := Claim_BlockNum claim |} :: l)
          | Fail e => Fail e
          | Panic => Panic
          end
      | Fail e =>
          Fail (Wrapped "aggchainProverFlow - error converting claim to imported bridge exit" e)
      | Panic => Panic
      end
  end.

(** The exchange with the prover is the one step that is logged. *)
Definition proverExchange (isOptimistic : bool) (req : AggchainProofRequest)
  (r : outcome AggchainProof) : M AggchainProof :=
  fun w =>
    (r, {| storage := storage w;
           proverCalls := {| optimistic := isOptimistic; request := req; reply := r |}
                          :: proverCalls w |}).

(** [generateOptimisticAggchainProof] writes [ExtraData] into the build
    parameters it was handed; the updated parameters are returned with the
    proof.  The caller never passes nil. *)
Definition generateOptimisticAggchainProof (certBuildParams : CertificateBuildParams)
  (req : AggchainProofRequest) : M (AggchainProof * CertificateBuildParams) :=
  bind (call "generateOptimisticAggchainProof - error getting new local exit root"
          (GetNewLocalExitRoot a certBuildParams))
    (fun newLER =>
  bind (call "generateOptimisticAggchainProof - error signing aggchain proof request"
          (optimisticSigner_Sign a req newLER (Claims certBuildParams)))
    (fun '(sign, extraData) =>
       let certBuildParams' := withExtraData certBuildParams extraData in
  bind (wrapErr "generateOptimisticAggchainProof - error request aggkit-prover optimistic"
          (proverExchange true req (GenerateOptimisticAggchainProof_client a req sign)))
    (fun aggchainProof => ret (aggchainProof, certBuildParams')))).

Definition GenerateAggchainProof (lastProvenBlock toBlock : Z)
  (certBuildParams : CertificateBuildParams)
  : M (AggchainProof * Root * CertificateBuildParams) :=
  bind (call "aggchainProverFlow - error getting finalized L1 Info tree data"
          (GetFinalizedL1InfoTreeData a))
    (fun '(proof, leaf, root) =>
  let claims := Claims certBuildParams in
  bind (check "aggchainProverFlow - error checking if claims are part of finalized L1 Info tree root"
          (CheckIfClaimsArePartOfFinalizedL1InfoTree a root claims))
    (fun _ =>
  let fromBlock := u64 (lastProvenBlock + 1) in
  bind (call "aggchainProverFlow - error getting injected GERs proofs"
          (GetInjectedGERsProofs a root fromBlock toBlock))
    (fun injectedGERsProofs =>
  bind (call "aggchainProverFlow - error getting imported bridge exits for prover"
          (getImportedBridgeExitsForProver claims))
    (fun importedBridgeExits =>
  let req :=
    {| Req_LastProvenBlock := lastProvenBlock;
       RequestedEndBlock := toBlock;
       L1InfoTreeRootHash := Root_Hash root;
       L1InfoTreeLeaf := leaf;
       L1InfoTreeMerkleProof := (Root_Hash root, proof);
       GERLeavesWithBlockNumber := injectedGERsProofs;
       ImportedBridgeExitsWithBlockNumber := importedBridgeExits |} in
  let optimisticMode :=
    CertificateType_eqb (CertificateType_ certBuildParams) CertificateTypeOptimistic in
  bind (wrapErr "aggchainProverFlow - error fetching aggchain proof"
          (if negb optimisticMode then
             bind (proverExchange false req (GenerateAggchainProof_client a req))
               (fun aggchainProof => ret (aggchainProof, certBuildParams))
           else generateOptimisticAggchainProof certBuildParams req))
    (fun '(aggchainProof, certBuildParams') =>
       ret (aggchainProof, root, certBuildParams')))))).

(** The three fields [verifyBuildParamsAndGenerateProof] and the retry path
    assign after a proof is at hand. *)
Definition withProof (p : CertificateBuildParams) (rootHash : Hash)
  (proof : AggchainProof) (leafCount : Z) : CertificateBuildParams :=
  {| FromBlock := FromBlock p;
     ToBlock := ToBlock p;
     RetryCount := RetryCount p;
     Bridges := Bridges p;
     Claims := Claims p;
     LastSentCertificate := LastSentCertificate p;
     CreatedAt := CreatedAt p;
     CertificateType_ := CertificateType_ p;
     L1InfoTreeRootFromWhichToProve := rootHash;
     L1InfoTreeLeafCount := leafCount;
     AggchainProof_ := Some proof;
     ExtraData := ExtraData p |}.

Definition withFromBlock (p : CertificateBuildParams) (fromBlock : Z) : CertificateBuildParams :=
  {| FromBlock := fromBlock;
     ToBlock := ToBlock p;
     RetryCount := RetryCount p;
     Bridges := Bridges p;
     Claims := Claims p;
     LastSentCertificate := LastSentCertificate p;
     CreatedAt := CreatedAt p;
     CertificateType_ := CertificateType_ p;
     L1InfoTreeRootFromWhichToProve := L1InfoTreeRootFromWhichToProve p;
     L1InfoTreeLeafCount := L1InfoTreeLeafCount p;
     AggchainProof_ := AggchainProof_ p;
     ExtraData := ExtraData p |}.

(** A nil [buildParams] reaches the first field access and panics there. *)
Definition verifyBuildParamsAndGenerateProof (buildParams : option CertificateBuildParams)
  : M (option CertificateBuildParams) :=
  fun w =>
    match VerifyBuildParams a buildParams with
    | Some err => (Fail (Wrapped "aggchainProverFlow - error verifying build params" err), w)
    | None =>
        match buildParams with
        | None => (Panic, w)
        | Some bp =>
            let lastProvenBlock := getLastProvenBlock (FromBlock bp) (LastSentCertificate bp) in
            match GenerateAggchainProof lastProvenBlock (ToBlock bp) bp w with
            | (Fail err, w') =>
                if errors_Is err errNoProofBuiltYet then (Ok None, w')
                else (Fail (Wrapped "aggchainProverFlow - error generating aggchain proof" err), w')
            | (Panic, w') => (Panic, w')
            | (Ok (aggchainProof, rootFromWhichToProveClaims, bp'), w') =>
                let bp'' := withProof bp' (Root_Hash rootFromWhichToProveClaims) aggchainProof
                              (u32 (Root_Index rootFromWhichToProveClaims + 1)) in
                match adjustBlockRange bp'' (ToBlock bp'') (EndBlock aggchainProof) with
                | Ok p => (Ok (Some p), w')
                | Fail e => (Fail e, w')
                | Panic => (Panic, w')
                end
            end
        end
    end.

Definition AdaptCertificate (buildParams : option CertificateBuildParams)
  : M (option CertificateBuildParams) :=
  match featureMaxL2Block a with
  | None => ret buildParams
  | Some adapt =>
      call "aggchainProverFlow - error adapting certificate to MaxL2Block" (adapt buildParams)
  end.

(** The branch that resends an InError certificate.  The source also
    computes the last proven block here, to log a warning only. *)
Definition resendInError (lastSentCert : CertificateHeader) (proof : option AggchainProof)
  (typeCert : CertificateType) : M (option CertificateBuildParams) :=
  let fromBlock := Header_FromBlock lastSentCert in
  let toBlock := Header_ToBlock lastSentCert in
  bind (call "aggchainProverFlow - error getting bridges and claims"
          (GetBridgesAndClaims a fromBlock toBlock))
    (fun '(bridges, claims) =>
  let buildParams :=
    {| FromBlock := fromBlock;
       ToBlock := toBlock;
       RetryCount := int64 (Header_RetryCount lastSentCert + 1);
       Bridges := bridges;
       Claims := claims;
       LastSentCertificate := Some lastSentCert;
       CreatedAt := Header_CreatedAt lastSentCert;
       CertificateType_ := typeCert;
       L1InfoTreeRootFromWhichToProve := 0;
       L1InfoTreeLeafCount := 0;
       AggchainProof_ := None;
       ExtraData := [] |} in
  bind (AdaptCertificate (Some buildParams))
    (fun buildParams =>
       match proof with
       | None => verifyBuildParamsAndGenerateProof buildParams
       | Some pr =>
           match buildParams, FinalizedL1InfoTreeRoot lastSentCert with
           | Some bp, Some rootHash =>
               ret (Some (withProof bp rootHash pr (Header_L1InfoTreeLeafCount lastSentCert)))
           | _, _ => fun w => (Panic, w)
           end
       end)).

(** The branch that builds a new certificate. *)
Definition buildNew (lastSentCert : option CertificateHeader) (typeCert : CertificateType)
  : M (option CertificateBuildParams) :=
  fun w =>
    match GetCertificateBuildParamsInternal a typeCert with
    | Fail err => if errors_Is err errNoNewBlocks then (Ok None, w) else (Fail err, w)
    | Panic => (Panic, w)
    | Ok buildParams =>
        bind (AdaptCertificate buildParams)
          (fun buildParams =>
             match buildParams with
             | None => fun w => (Panic, w)
             | Some bp =>
                 let lastProvenBlock := getLastProvenBlock (FromBlock bp) lastSentCert in
                 let bp :=
                   if negb (FromBlock bp =? u64 (lastProvenBlock + 1))
                   then withFromBlock bp (u64 (lastProvenBlock + 1)) else bp in
                 verifyBuildParamsAndGenerateProof (Some bp)
             end) w
    end.

Definition GetCertificateBuildParams : M (option CertificateBuildParams) :=
  bind (fun w =>
          match GetLastSentCertificateHeaderWithProofIfInError a (storage w) with
          | Ok r => (Ok r, w)
          | Fail e =>
              (Fail (Wrapped "aggchainProverFlow - error checking if last sent certificate is InError" e), w)
          | Panic => (Panic, w)
          end)
    (fun '(lastSentCert, proof) =>
  bind (wrapErr "aggchainProverFlow - error getting certificate type to generate"
          getCertificateTypeToGenerate)
    (fun typeCert =>
       match lastSentCert with
       | Some cert =>
           if IsInError (Status cert) && CertificateType_eqb (CertType cert) typeCert
           then resendInError cert proof typeCert
           else buildNew lastSentCert typeCert
       | None => buildNew lastSentCert typeCert
       end)).

(** The MaxL2Block limiter is absent, or hands back what it is given (no
    limit configured). *)
Definition limiterIdle : Prop :=
  match featureMaxL2Block a with
  | None => True
  | Some adapt => forall p, adapt p = Ok p
  end.

(** The parameters a tick hands to verification: those of the InError
    certificate, or the base flow's proposal realigned on the last proven
    block. *)
Definition handedToVerification (w : World) (bpo : option CertificateBuildParams) : Prop :=
  (exists cert opt bridges claims,
     GetLastSentCertificateHeaderWithProofIfInError a (storage w) = Ok (Some cert, None) /\
     IsOptimisticModeOn a = Ok opt /\
     IsInError (Status cert) && CertificateType_eqb (CertType cert)
       (if opt then CertificateTypeOptimistic else CertificateTypeFEP) = true /\
     GetBridgesAndClaims a (Header_FromBlock cert) (Header_ToBlock cert)
       = Ok (bridges, claims) /\
     fst (AdaptCertificate
            (Some {| FromBlock := Header_FromBlock cert;
                     ToBlock := Header_ToBlock cert;
                     RetryCount := int64 (Header_RetryCount cert + 1);
                     Bridges := bridges;
                     Claims := claims;
                     LastSentCertificate := Some cert;
                     CreatedAt := Header_CreatedAt cert;
                     CertificateType_ :=
                       if opt then CertificateTypeOptimistic else CertificateTypeFEP;
                     L1InfoTreeRootFromWhichToProve := 0;
                     L1InfoTreeLeafCount := 0;
                     AggchainProof_ := None;
                     ExtraData := [] |}) w) = Ok bpo) \/
  (exists lastSentCert cached opt proposed bp,
     GetLastSentCertificateHeaderWithProofIfInError a (storage w)
       = Ok (lastSentCert, cached) /\
     IsOptimisticModeOn a = Ok opt /\
     GetCertificateBuildParamsInternal a
       (if opt then CertificateTypeOptimistic else CertificateTypeFEP) = Ok proposed /\
     fst (AdaptCertificate proposed w) = Ok (Some bp) /\
     bpo = Some (withFromBlock bp
                   (u64 (getLastProvenBlock (FromBlock bp) lastSentCert + 1)))).

(** Not a retry: there is no last certificate, or it is not InError, or it
    is of another type than the one to generate. *)
Definition notARetry (lastSentCert : option CertificateHeader) (typeCert : CertificateType)
  : Prop :=
  match lastSentCert with
  | Some cert => IsInError (Status cert) && CertificateType_eqb (CertType cert) typeCert = false
  | None => True
  end.

End Flow.

Arguments storage {Storage} _.
Arguments proverCalls {Storage} _.

(** The specification's claim that a retry keeps the range, read on the
    parameters a tick returns. *)
Definition retryKeepsRange {Storage : Type} (a : AggchainProverFlow Storage)
  (w : World Storage) : Prop :=
  forall cert proof typeCert bp,
    GetLastSentCertificateHeaderWithProofIfInError Storage a (storage w) = Ok (Some cert, proof) ->
    fst (getCertificateTypeToGenerate Storage a w) = Ok typeCert ->
    IsInError (Status cert) = true -> CertType cert = typeCert ->
    fst (GetCertificateBuildParams Storage a w) = Ok (Some bp) ->
    FromBlock bp = Header_FromBlock cert /\ ToBlock bp = Header_ToBlock cert.

(** Collaborators for the literal scenarios of the specification: a storage
    holding [stored], a base flow proposing [proposed], a bridge syncer with
    [bridges] and [claims], and a prover that answers [proverReply]. *)
Definition scenarioFlow (stored : option CertificateHeader * option AggchainProof)
  (proposed : outcome (option CertificateBuildParams))
  (bridges : list Bridge) (claims : list Claim)
  (proverReply : outcome AggchainProof) : AggchainProverFlow unit :=
  {| StartL2Block := 0;
     GetCertificateBuildParamsInternal := fun _ => proposed;
     VerifyBuildParams := fun _ => None;
     ConvertClaimToImportedBridgeExit := fun c => Ok (Claim_Content c);
     GetNewLocalExitRoot := fun _ => Ok 0;
     GetLastSentCertificateHeaderWithProofIfInError := fun _ => Ok stored;
     GetFinalizedL1InfoTreeData := Ok ([], 2, {| Root_Hash := 1; Root_Index := 10 |});
     CheckIfClaimsArePartOfFinalizedL1InfoTree := fun _ _ => None;
     GetBridgesAndClaims := fun _ _ => Ok (bridges, claims);
     GetInjectedGERsProofs := fun _ _ _ => Ok [];
     GenerateAggchainProof_client := fun _ => proverReply;
     GenerateOptimisticAggchainProof_client := fun _ _ => proverReply;
     IsOptimisticModeOn := Ok false;
     optimisticSigner_Sign := fun _ _ _ => Ok ([], []);
     featureMaxL2Block := None |}.

Definition emptyWorld : World unit := {| storage := tt; proverCalls := [] |}.

Definition inErrorHeader : CertificateHeader :=
  {| Height := 0; CertificateID := 1; Header_FromBlock := 1; Header_ToBlock := 10;
     Status := InError; Header_CreatedAt := 1700000000; Header_RetryCount := 0;
     CertType := CertificateTypeFEP; FinalizedL1InfoTreeRoot := Some 1;
     Header_L1InfoTreeLeafCount := 11 |}.

Definition settledHeader : CertificateHeader :=
  {| Height := 0; CertificateID := 1; Header_FromBlock := 0; Header_ToBlock := 5;
     Status := Settled; Header_CreatedAt := 1700000000; Header_RetryCount := 0;
     CertType := CertificateTypeFEP; FinalizedL1InfoTreeRoot := Some 1;
     Header_L1InfoTreeLeafCount := 11 |}.

Definition proofUpTo (lastProven endBlock : Z) : AggchainProof :=
  {| LastProvenBlock := lastProven; EndBlock := endBlock; SP1StarkProof := [115; 111; 109; 101] |}.

Definition scenarioBridges : list Bridge :=
  [{| Bridge_BlockNum := 6; Bridge_Content := 1 |};
   {| Bridge_BlockNum := 10; Bridge_Content := 2 |}].

Definition scenarioClaims : list Claim :=
  [{| Claim_BlockNum := 8; Claim_Content := 1 |};
   {| Claim_BlockNum := 9; Claim_Content := 2 |}].

(** What the base flow proposes in scenario 4: the range [6, 10]. *)
Definition proposedParams : CertificateBuildParams :=
  {| FromBlock := 6; ToBlock := 10; RetryCount := 0;
     Bridges := scenarioBridges; Claims := scenarioClaims;
     LastSentCertificate := Some settledHeader; CreatedAt := 1700000100;
     CertificateType_ := CertificateTypeFEP;
     L1InfoTreeRootFromWhichToProve := 0; L1InfoTreeLeafCount := 0;
     AggchainProof_ := None; ExtraData := [] |}.

(** Scenario 5: the InError certificate [1, 10] with no cached proof, and a
    prover that proves the whole range. *)
Definition retryFlow : AggchainProverFlow unit :=
  scenarioFlow (Some inErrorHeader, None) (Ok None) scenarioBridges scenarioClaims
    (Ok (proofUpTo 0 10)).

(** The same retry with a prover that proves up to block 8 only. *)
Definition retryShortFlow : AggchainProverFlow unit :=
  scenarioFlow (Some inErrorHeader, None) (Ok None) scenarioBridges scenarioClaims
    (Ok (proofUpTo 0 8)).

(** The retry of the same certificate with the proof up to block 8 cached
    beside it. *)
Definition retryCachedFlow : AggchainProverFlow unit :=
  scenarioFlow (Some inErrorHeader, Some (proofUpTo 0 8)) (Ok None) scenarioBridges
    scenarioClaims (Ok (proofUpTo 0 8)).

(** Scenario 4: last certificate settled at block 5, L2 tip at 10, and a
    prover that proves up to block 8. *)
Definition shrinkFlow : AggchainProverFlow unit :=
  scenarioFlow (Some settledHeader, None) (Ok (Some proposedParams)) scenarioBridges
    scenarioClaims (Ok (proofUpTo 5 8)).

(** A prover that has no proof yet, its error wrapped on the way back. *)
Definition noProofFlow : AggchainProverFlow unit :=
  scenarioFlow (Some settledHeader, None) (Ok (Some proposedParams)) scenarioBridges
    scenarioClaims (Fail (Wrapped "wrapped error" errNoProofBuiltYet)).

(** A new certificate after the one settled at block 5, with a prover that
    proves the whole proposed range. *)
Definition newCertFlow : AggchainProverFlow unit :=
  scenarioFlow (Some settledHeader, None) (Ok (Some proposedParams)) scenarioBridges
    scenarioClaims (Ok (proofUpTo 5 10)).

(** The InError certificate as a storage may hold it with a cached proof
    but no finalized L1 info tree root. *)
Definition rootlessHeader : CertificateHeader :=
  {| Height := 0; CertificateID := 1; Header_FromBlock := 1; Header_ToBlock := 10;
     Status := InError; Header_CreatedAt := 1700000000; Header_RetryCount := 0;
     CertType := CertificateTypeFEP; FinalizedL1InfoTreeRoot := None;
     Header_L1InfoTreeLeafCount := 11 |}.

Definition rootlessFlow : AggchainProverFlow unit :=
  scenarioFlow (Some rootlessHeader, Some (proofUpTo 0 10)) (Ok None) scenarioBridges
    scenarioClaims (Ok (proofUpTo 0 10)).

(** A base flow that finds no new blocks, its error wrapped on the way back. *)
Definition noNewBlocksFlow : AggchainProverFlow unit :=
  scenarioFlow (Some settledHeader, None)
    (Fail (Wrapped "error getting block range" errNoNewBlocks)) [] []
    (Ok (proofUpTo 5 10)).

End Flows.

(** ** aggsender/prover: AggchainProofGenerationTool *)

Module ProofGenerationTool.
Import Machine GoError Flows.

Definition errSyncerBehind : error :=
  Sentinel "the last L2 block synced is less than the last proven block".

Section Tool.
Variable Storage : Type.

(** The zero value of [types.CertificateType], which is declared outside
    src/. *)
Variable zeroCertificateType : CertificateType.

(** The struct [AggchainProofGenerationTool]: the L2 syncer is an interface,
    so its two methods are fields; the flow is the AggchainProverFlow that
    the constructor builds. *)
Record AggchainProofGenerationTool := {
  l2Syncer_GetLastProcessedBlock : outcome Z;
  l2Syncer_GetClaims : Z -> Z -> outcome (list Claim);
  flow : AggchainProverFlow Storage
}.

(** [&types.CertificateBuildParams{Claims: claims}] *)
Definition onlyClaims (claims : list Claim) : CertificateBuildParams :=
  {| FromBlock := 0; ToBlock := 0; RetryCount := 0; Bridges := []; Claims := claims;
     LastSentCertificate := None; CreatedAt := 0;
     CertificateType_ := zeroCertificateType;
     L1InfoTreeRootFromWhichToProve := 0; L1InfoTreeLeafCount := 0;
     AggchainProof_ := None; ExtraData := [] |}.

(** The tool's own [GenerateAggchainProof]; it returns the SP1 proof. *)
Definition GenerateAggchainProof (t : AggchainProofGenerationTool)
  (lastProvenBlock maxEndBlock : Z) : M Storage (list Z) :=
  bind Storage (call Storage "error getting last processed block from l2"
                  (l2Syncer_GetLastProcessedBlock t))
    (fun lastL2BlockSynced =>
  if lastL2BlockSynced <? lastProvenBlock then fun w => (Fail errSyncerBehind, w)
  else
    let fromBlock := u64 (lastProvenBlock + 1) in
  bind Storage (call Storage "error getting claims (imported bridge exits)"
                  (l2Syncer_GetClaims t fromBlock maxEndBlock))
    (fun claims =>
  bind Storage (wrapErr Storage "error generating Aggchain proof"
                  (Flows.GenerateAggchainProof Storage (flow t) lastProvenBlock maxEndBlock
                     (onlyClaims claims)))
    (fun '(aggchainProof, _, _) => ret Storage (SP1StarkProof aggchainProof)))).

(** The tool [t] with its L2 syncer standing at block [synced]. *)
Definition syncedAt (t : AggchainProofGenerationTool) (synced : Z)
  : AggchainProofGenerationTool :=
  {| l2Syncer_GetLastProcessedBlock := Ok synced;
     l2Syncer_GetClaims := l2Syncer_GetClaims t;
     flow := flow t |}.

End Tool.

(** A tool over the flow of the scenarios, with the L2 syncer at block
    [synced]. *)
Definition scenarioTool (synced : Z) : AggchainProofGenerationTool unit :=
  {| l2Syncer_GetLastProcessedBlock := Ok synced;
     l2Syncer_GetClaims := fun _ _ => Ok scenarioClaims;
     flow := newCertFlow |}.

End ProofGenerationTool.

(** ** sync: EVMDownloader.Download *)

Module Sync.
Import Machine GoError.

Record EVMBlockHeader := {
  Num : Z;
  BlockHash : Z;
  ParentHash : Z;
  Timestamp : Z
}.

Record EVMBlock := {
  Header : EVMBlockHeader;
  IsFinalizedBlock : bool;
  Events : list Z
}.

(** What the embedded [EVMDownloaderInterface] answers during one pass of the
    loop; the chain moves between passes, so each pass has its own answers.
    [GetLastFinalizedBlock] yields the number of the finalized header. *)
Record EVMDownloaderInterface := {
  WaitForNewBlocks : Z -> Z;
  GetEventsByBlockRange : Z -> Z -> list EVMBlock;
  GetBlockHeader : Z -> EVMBlockHeader * bool;
  GetLastFinalizedBlock : outcome Z
}.

Record EVMDownloader := {
  syncBlockChunkSize : Z;
  (** [finalizedBlockType.IsFinalized()] *)
  finalizedBlockType_IsFinalized : bool
}.

(** The variables of the loop in [Download]. *)
Record LoopState := {
  fromBlock : Z;
  toBlock : Z;
  lastBlock : Z;
  reachTop : bool;
  iteration : Z
}.

(** What one pass has in hand once the range was queried. *)
Record Scan := {
  scan_lastBlock : Z;
  scan_toBlock : Z;
  lastFinalizedBlockNumber : Z;
  requestToBlock : Z;
  scan_reachTop : bool;
  blocks : list EVMBlock
}.

Section Downloader.
Variable d : EVMDownloader.
Variable env : EVMDownloaderInterface.

Definition reportBlocks (bs : list EVMBlock) (lastFinalizedBlock : Z) : list EVMBlock :=
  map (fun block =>
         {| Header := Header block;
            IsFinalizedBlock :=
              finalizedBlockType_IsFinalized d && (Num (Header block) <=? lastFinalizedBlock);
            Events := Events block |}) bs.

Definition reportEmptyBlock (blockNum lastFinalizedBlock : Z) : list EVMBlock :=
  let '(header, isCanceled) := GetBlockHeader env blockNum in
  if isCanceled then []
  else [{| Header := header;
           IsFinalizedBlock :=
             finalizedBlockType_IsFinalized d && (Num header <=? lastFinalizedBlock);
           Events := [] |}].

(** The head of the loop body: wait for new blocks when needed. *)
Definition refresh (st : LoopState) : Z * Z :=
  if (lastBlock st <? fromBlock st) || (reachTop st && (lastBlock st <=? toBlock st)) then
    let lastBlock' := WaitForNewBlocks env (lastBlock st) in
    let toBlock' :=
      if u64 (fromBlock st - toBlock st) <? syncBlockChunkSize d
      then u64 (fromBlock st + syncBlockChunkSize d) else toBlock st in
    (lastBlock', toBlock')
  else (lastBlock st, toBlock st).

(** Up to the query of the range; [None] when the finalized block could not
    be fetched and the pass ends at its [continue]. *)
Definition scan (st : LoopState) : option Scan :=
  let '(lastBlock', toBlock') := refresh st in
  match GetLastFinalizedBlock env with
  | Ok finalizedNumber =>
      let lastFinalized := Z.min lastBlock' finalizedNumber in
      let '(request, top) :=
        if lastBlock' <=? toBlock' then (lastBlock', true) else (toBlock', false) in
      Some {| scan_lastBlock := lastBlock';
              scan_toBlock := toBlock';
              lastFinalizedBlockNumber := lastFinalized;
              requestToBlock := request;
              scan_reachTop := top;
              blocks := GetEventsByBlockRange env (fromBlock st) request |}
  | _ => None
  end.

(** [blocks[blocks.Len()-1].Num]; the source reads it on a non-empty list
    only. *)
Definition lastNum (bs : list EVMBlock) : Z :=
  match bs with
  | [] => 0
  | b :: rest => Num (Header (last rest b))
  end.

(** The rest of the pass: what is sent on the channel and the next state. *)
Definition report (st : LoopState) (sc : Scan) : LoopState * list EVMBlock :=
  let next (from : Z) (to : Z) :=
    {| fromBlock := from; toBlock := to; lastBlock := scan_lastBlock sc;
       reachTop := scan_reachTop sc; iteration := iteration st + 1 |} in
  if requestToBlock sc <=? lastFinalizedBlockNumber sc then
    let sent := reportBlocks (blocks sc) (lastFinalizedBlockNumber sc) in
    let empty :=
      if (Nat.eqb (List.length (blocks sc)) 0) || (lastNum (blocks sc) <? requestToBlock sc)
      then reportEmptyBlock (requestToBlock sc) (lastFinalizedBlockNumber sc) else [] in
    let from := u64 (requestToBlock sc + 1) in
    (next from (u64 (from + syncBlockChunkSize d)), sent ++ empty)
  else if Nat.eqb (List.length (blocks sc)) 0 then
    if fromBlock st <=? lastFinalizedBlockNumber sc then
      let emptyBlock := lastFinalizedBlockNumber sc in
      let from := u64 (emptyBlock + 1) in
      (next from (u64 (from + syncBlockChunkSize d)),
       reportEmptyBlock emptyBlock (lastFinalizedBlockNumber sc))
    else
      (next (fromBlock st) (u64 (scan_toBlock sc + syncBlockChunkSize d)), [])
  else
    let from := u64 (lastNum (blocks sc) + 1) in
    (next from (u64 (from + syncBlockChunkSize d)),
     reportBlocks (blocks sc) (lastFinalizedBlockNumber sc)).

(** One pass of the loop of [Download], with the context still alive.  The
    counter [stopDownloaderOnIterationN], set by unit tests only, is 0. *)
Definition pass (st : LoopState) : LoopState * list EVMBlock :=
  match scan st with
  | Some sc => report st sc
  | None =>
      let '(lastBlock', toBlock') := refresh st in
      ({| fromBlock := fromBlock st; toBlock := toBlock'; lastBlock := lastBlock';
          reachTop := false; iteration := iteration st |}, [])
  end.

End Downloader.

(** [Download] over the successive answers of the chain; it returns what was
    sent on the channel.  The list ends when the context is cancelled. *)
Fixpoint loop (d : EVMDownloader) (st : LoopState) (answers : list EVMDownloaderInterface)
  : list EVMBlock :=
  match answers with
  | [] => []
  | env :: rest =>
      let '(st', sent) := pass d env st in
      sent ++ loop d st' rest
  end.

Definition Download (d : EVMDownloader) (first : EVMDownloaderInterface) (from : Z)
  (answers : list EVMDownloaderInterface) : list EVMBlock :=
  let lastBlock0 := WaitForNewBlocks first 0 in
  loop d {| fromBlock := from; toBlock := u64 (from + syncBlockChunkSize d);
            lastBlock := lastBlock0; reachTop := false; iteration := 0 |} answers.

(** The block numbers of a list of blocks, in order. *)
Definition blockNums (bs : list EVMBlock) : list Z := map (fun b => Num (Header b)) bs.

(** Strictly ascending numbers, none below [lo]. *)
Fixpoint ascendingFrom (lo : Z) (ns : list Z) : Prop :=
  match ns with
  | [] => True
  | n :: rest => lo <= n /\ ascendingFrom (n + 1) rest
  end.

(** A chain that behaves during one pass: waiting yields a head above the
    last one seen, and at most [top] unless the last head was there already;
    the blocks of a range come in ascending order, none below its start nor
    above its end; a header carries the number it was asked for. *)
Definition honestChain (top : Z) (env : EVMDownloaderInterface) : Prop :=
  (forall l, 0 <= l -> l < WaitForNewBlocks env l <= Z.max top (l + 1)) /\
  (forall f t, ascendingFrom f (blockNums (GetEventsByBlockRange env f t)) /\
               Forall (fun n => n <= t) (blockNums (GetEventsByBlockRange env f t))) /\
  (forall n, Num (fst (GetBlockHeader env n)) = n).

(** What the loop variables satisfy while [n] passes are left: the range
    starts at most one block after the head, it is not empty, and there is
    room below 2^64 for the [n] chunks that [toBlock] may still grow by. *)
Definition inStep (d : EVMDownloader) (top limit n : Z) (st : LoopState) : Prop :=
  0 <= n /\
  0 <= fromBlock st <= lastBlock st + 1 /\
  fromBlock st <= toBlock st /\
  0 <= lastBlock st /\
  lastBlock st + n <= limit /\
  top + n <= limit /\
  toBlock st + syncBlockChunkSize d * n < 2 ^ 64 /\
  limit + 1 + syncBlockChunkSize d * (n + 1) < 2 ^ 64.

(** An emitted checkpoint: a block without events for block number [n]. *)
Definition isCheckpointFor (header : EVMBlockHeader) (b : EVMBlock) : Prop :=
  Header b = header /\ Events b = [].

(** The specification's claim on one pass: an empty or short list of produced
    blocks is followed by a checkpoint for requestToBlock or lastFinalized. *)
Definition checkpointAlwaysEmitted (d : EVMDownloader) (env : EVMDownloaderInterface)
  (st : LoopState) : Prop :=
  forall sc, scan d env st = Some sc ->
    blocks sc = [] \/ lastNum (blocks sc) < requestToBlock sc ->
    exists b, In b (snd (pass d env st)) /\
      (isCheckpointFor (fst (GetBlockHeader env (requestToBlock sc))) b \/
       isCheckpointFor (fst (GetBlockHeader env (lastFinalizedBlockNumber sc))) b).

(** A chain at block 20 whose finalized block is 5, with no matching log. *)
Definition headerOf (n : Z) : EVMBlockHeader :=
  {| Num := n; BlockHash := 1000 + n; ParentHash := 999 + n; Timestamp := 12 * n |}.

Definition quietChain : EVMDownloaderInterface :=
  {| WaitForNewBlocks := fun _ => 20;
     GetEventsByBlockRange := fun _ _ => [];
     GetBlockHeader := fun n => (headerOf n, false);
     GetLastFinalizedBlock := Ok 5 |}.

(** A chain whose head is at block 20 or right after the last one seen, with
    the finalized block at 15 and one matching log, in block 12. *)
Definition growingChain : EVMDownloaderInterface :=
  {| WaitForNewBlocks := fun l => Z.max 20 (l + 1);
     GetEventsByBlockRange := fun f t =>
       if (f <=? 12) && (12 <=? t)
       then [{| Header := headerOf 12; IsFinalizedBlock := false; Events := [7] |}]
       else [];
     GetBlockHeader := fun n => (headerOf n, false);
     GetLastFinalizedBlock := Ok 15 |}.

Definition chunkOfTen : EVMDownloader :=
  {| syncBlockChunkSize := 10; finalizedBlockType_IsFinalized := true |}.

Definition scanningFromTen : LoopState :=
  {| fromBlock := 10; toBlock := 20; lastBlock := 20; reachTop := false; iteration := 0 |}.

Definition scanningFromZero : LoopState :=
  {| fromBlock := 0; toBlock := 4; lastBlock := 20; reachTop := false; iteration := 0 |}.

End Sync.

(** ** sync: EVMDownloaderImplementation *)

Module SyncImplementation.
Import Machine GoError Sync.

Definition MaxRetryCountBlockHashMismatch : Z := 5.

(** [context.Canceled] and go-ethereum's [ethereum.NotFound]; only their
    identity matters here. *)
Definition context_Canceled : error := Sentinel "context canceled".
Definition ethereum_NotFound : error := Sentinel "not found".

(** The fields of go-ethereum's [types.Log] that the downloader reads. *)
Record Log := {
  Log_BlockNumber : Z;
  Log_BlockHash : Z;
  Topics : list Z;
  Removed : bool;
  Data : Z
}.

(** The node and the context as one attempt sees them.  [ctx_Done] says
    whether the context is cancelled when the attempt starts.  [GetLogs] and
    [GetBlockHeader] call the client in a loop until it answers: the last
    argument of [FilterLogs] and [HeaderByNumber] is the number of calls
    that loop has made before this one.  A header is kept as the four values
    [GetBlockHeader] copies from it. *)
Record EthClient := {
  ctx_Done : bool;
  FilterLogs : Z -> Z -> nat -> list Log + error;
  HeaderByNumber : Z -> nat -> EVMBlockHeader + error
}.

(** [LogAppenderMap]: for each topic the function that appends the event of
    a log to a block.  An appender works on the block in place and returns
    an error or nil: it is kept as the block it leaves and that error. *)
Definition LogAppenderMap := list (Z * (EVMBlock -> Log -> EVMBlock * option error)).

Definition GetTopics (m : LogAppenderMap) : list Z := map fst m.

Definition lookupAppender (m : LogAppenderMap) (topic : Z)
  : option (EVMBlock -> Log -> EVMBlock * option error) :=
  option_map snd (find (fun p => fst p =? topic) m).

(** [RetryHandler.Handle] is declared outside src/: [rh_Handle] says, for a
    number of attempts, whether the call comes back, after its wait, or ends
    the process. *)
Record EVMDownloaderImplementation := {
  appender : LogAppenderMap;
  topicsToQuery : list Z;
  rh_Handle : Z -> bool
}.

Definition NewEVMDownloaderImplementation (appender : LogAppenderMap) (rh : Z -> bool)
  : EVMDownloaderImplementation :=
  {| appender := appender; topicsToQuery := GetTopics appender; rh_Handle := rh |}.

(** How a call of the downloader ends: it returns, it panics, the retry
    handler ends the process, or it is still looping when the fuel runs
    out. *)
Inductive Run (A : Type) :=
| Returns (a : A)
| Panics
| Exits
| Spins.
Arguments Returns {A} a.
Arguments Panics {A}.
Arguments Exits {A}.
Arguments Spins {A}.

(** How the loop over the logs of one attempt ends. *)
Inductive Assembly :=
| Assembled (blocks : list EVMBlock)
| Cancelled
| HashMismatch
| Crashed
| Exited
| Spinning.

Section Implementation.
Variable d : EVMDownloaderImplementation.

(** The loop of [GetLogs] over the unfiltered logs; [l.Topics[0]] panics on
    a log without topics. *)
Fixpoint filterLogs (unfilteredLogs : list Log) : outcome (list Log) :=
  match unfilteredLogs with
  | [] => Ok []
  | l :: rest =>
      if Removed l then filterLogs rest
      else
        match Topics l with
        | [] => Panic
        | topic :: _ =>
            match filterLogs rest with
            | Ok logs =>
                Ok (if existsb (Z.eqb topic) (topicsToQuery d) then l :: logs else logs)
            | r => r
            end
        end
  end.

(** The loop of [GetLogs] around [FilterLogs], after [attempts] failed
    calls. *)
Fixpoint getLogsLoop (fuel : nat) (ethClient : EthClient) (fromBlock toBlock : Z)
  (attempts : nat) : Run (list Log) :=
  match fuel with
  | O => Spins
  | S fuel' =>
      match FilterLogs ethClient fromBlock toBlock attempts with
      | inl unfilteredLogs =>
          match filterLogs unfilteredLogs with
          | Ok logs => Returns logs
          | _ => Panics
          end
      | inr err =>
          if errors_Is err context_Canceled then Returns []
          else if rh_Handle d (Z.of_nat (S attempts))
          then getLogsLoop fuel' ethClient fromBlock toBlock (S attempts)
          else Exits
      end
  end.

Definition GetLogs (fuel : nat) (ethClient : EthClient) (fromBlock toBlock : Z)
  : Run (list Log) :=
  getLogsLoop fuel ethClient fromBlock toBlock 0.

(** The loop of [GetBlockHeader], after [calls] calls of which [attempts]
    failed with another error than not-found. *)
Fixpoint getBlockHeaderLoop (fuel : nat) (ethClient : EthClient) (blockNum : Z)
  (calls attempts : nat) : Run (EVMBlockHeader * bool) :=
  match fuel with
  | O => Spins
  | S fuel' =>
      match HeaderByNumber ethClient blockNum calls with
      | inl header => Returns (header, false)
      | inr err =>
          if errors_Is err context_Canceled
          then Returns ({| Num := 0; BlockHash := 0; ParentHash := 0; Timestamp := 0 |}, true)
          else if errors_Is err ethereum_NotFound
          then getBlockHeaderLoop fuel' ethClient blockNum (S calls) attempts
          else if rh_Handle d (Z.of_nat (S attempts))
          then getBlockHeaderLoop fuel' ethClient blockNum (S calls) (S attempts)
          else Exits
      end
  end.

Definition GetBlockHeader (fuel : nat) (ethClient : EthClient) (blockNum : Z)
  : Run (EVMBlockHeader * bool) :=
  getBlockHeaderLoop fuel ethClient blockNum 0 0.

(** The loop around the appender: [attempts] starts at 0 in every turn, so
    the retry handler is always told of one attempt. *)
Fixpoint appendLog (fuel : nat) (appenderFn : EVMBlock -> Log -> EVMBlock * option error)
  (latestBlock : EVMBlock) (l : Log) : Run EVMBlock :=
  match fuel with
  | O => Spins
  | S fuel' =>
      match appenderFn latestBlock l with
      | (b, None) => Returns b
      | (b, Some _) => if rh_Handle d 1 then appendLog fuel' appenderFn b l else Exits
      end
  end.

(** The loop over the logs in [getEventsByBlockRangeWithRetry].  [blocks]
    holds the blocks opened so far, the most recent first: its head is
    [latestBlock], the only block the appenders are handed. *)
Fixpoint assemble (patience : nat) (ethClient : EthClient) (logs : list Log)
  (blocks : list EVMBlock) : Assembly :=
  match logs with
  | [] => Assembled (rev blocks)
  | l :: rest =>
      let opened : Assembly + list EVMBlock :=
        if match blocks with
           | [] => true
           | latestBlock :: _ => Num (Header latestBlock) <? Log_BlockNumber l
           end
        then
          match GetBlockHeader patience ethClient (Log_BlockNumber l) with
          | Returns (b, canceled) =>
              if canceled then inl Cancelled
              else if negb (BlockHash b =? Log_BlockHash l) then inl HashMismatch
              else
                inr ({| Header := {| Num := Log_BlockNumber l;
                                     BlockHash := Log_BlockHash l;
                                     ParentHash := ParentHash b;
                                     Timestamp := Timestamp b |};
                        IsFinalizedBlock := false;
                        Events := [] |} :: blocks)
          | Panics => inl Crashed
          | Exits => inl Exited
          | Spins => inl Spinning
          end
        else inr blocks in
      match opened with
      | inl stop => stop
      | inr [] => Crashed
      | inr (latestBlock :: closed) =>
          match Topics l with
          | [] => Crashed
          | topic :: _ =>
              match lookupAppender (appender d) topic with
              | None => Crashed
              | Some appenderFn =>
                  match appendLog patience appenderFn latestBlock l with
                  | Returns b => assemble patience ethClient rest (b :: closed)
                  | Panics => Crashed
                  | Exits => Exited
                  | Spins => Spinning
                  end
              end
          end
      end
  end.

(** [node retryCount] is the node during the attempt numbered [retryCount].
    [patience] bounds the turns of the loops inside an attempt and [fuel]
    the number of attempts.  A cancelled context and the last hash mismatch
    make the source return nil, kept as the empty list. *)
Fixpoint getEventsByBlockRangeWithRetry (patience fuel : nat) (node : Z -> EthClient)
  (fromBlock toBlock : Z) (retryCount : Z) : Run (list EVMBlock) :=
  match fuel with
  | O => Spins
  | S fuel' =>
      if ctx_Done (node retryCount) then Returns []
      else
        match GetLogs patience (node retryCount) fromBlock toBlock with
        | Returns logs =>
            match assemble patience (node retryCount) logs [] with
            | Assembled blocks => Returns blocks
            | Cancelled => Returns []
            | HashMismatch =>
                if MaxRetryCountBlockHashMismatch <=? retryCount then Returns []
                else getEventsByBlockRangeWithRetry patience fuel' node fromBlock toBlock
                       (int64 (retryCount + 1))
            | Crashed => Panics
            | Exited => Exits
            | Spinning => Spins
            end
        | Panics => Panics
        | Exits => Exits
        | Spins => Spins
        end
  end.

Definition GetEventsByBlockRange (patience fuel : nat) (node : Z -> EthClient)
  (fromBlock toBlock : Z) : Run (list EVMBlock) :=
  getEventsByBlockRangeWithRetry patience fuel node fromBlock toBlock 0.

End Implementation.

(** [WaitForNewBlocks] over the answers of the node at the successive
    ticks: [None] for an error, after which the retry handler (declared
    outside src/) waits, and the number of the header otherwise.  The list
    ends when the context is cancelled. *)
Fixpoint WaitForNewBlocks (polls : list (option Z)) (latestSyncedBlock : Z) : Z :=
  match polls with
  | [] => latestSyncedBlock
  | None :: rest => WaitForNewBlocks rest latestSyncedBlock
  | Some number :: rest =>
      if latestSyncedBlock <? number then number
      else WaitForNewBlocks rest latestSyncedBlock
  end.

(** The logs [GetLogs] keeps: not removed, and with a first topic that is
    queried. *)
Definition wanted (d : EVMDownloaderImplementation) (l : Log) : bool :=
  negb (Removed l) &&
  match Topics l with
  | topic :: _ => existsb (Z.eqb topic) (topicsToQuery d)
  | [] => false
  end.

(** The header of a block was built from a header of that number that the
    node served, keeping the number of the log. *)
Definition fromNode (ethClient : EthClient) (b : EVMBlock) : Prop :=
  exists calls header,
    HeaderByNumber ethClient (Num (Header b)) calls = inl header /\
    BlockHash (Header b) = BlockHash header /\
    ParentHash (Header b) = ParentHash header /\
    Timestamp (Header b) = Timestamp header.

(** What holds of the blocks opened so far by the loop over the logs, the
    most recent first. *)
Definition opened (ethClient : EthClient) (fromBlock toBlock : Z) (blocks : list EVMBlock)
  : Prop :=
  ascendingFrom fromBlock (blockNums (rev blocks)) /\
  Forall (fun n => n <= toBlock) (blockNums blocks) /\
  Forall (fromNode ethClient) blocks.

(** The appenders leave the header of the block alone. *)
Definition keepsHeader (m : LogAppenderMap) : Prop :=
  forall topic appenderFn b l,
    In (topic, appenderFn) m -> Header (fst (appenderFn b l)) = Header b.

(** The node honours the range of the filter. *)
Definition honoursRange (ethClient : EthClient) (fromBlock toBlock : Z) : Prop :=
  forall calls logs l, FilterLogs ethClient fromBlock toBlock calls = inl logs -> In l logs ->
    fromBlock <= Log_BlockNumber l <= toBlock.

(** The first [failures] calls of [FilterLogs] fail with an error that is
    not the cancellation of the context, and the retry handler comes back
    each time. *)
Definition failsFirst (d : EVMDownloaderImplementation) (ethClient : EthClient)
  (fromBlock toBlock : Z) (failures : nat) : Prop :=
  forall i, (i < failures)%nat ->
    exists err,
      FilterLogs ethClient fromBlock toBlock i = inr err /\
      errors_Is err context_Canceled = false /\
      rh_Handle d (Z.of_nat (S i)) = true.

(** How a call may end when none of its loops spins: it returns; or the
    retry handler ended the process; or it panicked, on a log that is not
    removed and has no topic. *)
Definition endsWell (d : EVMDownloaderImplementation) (node : Z -> EthClient)
  (fromBlock toBlock : Z) (r : Run (list EVMBlock)) : Prop :=
  match r with
  | Returns _ => True
  | Exits => exists attempts, rh_Handle d attempts = false
  | Panics =>
      exists attempt calls unfilteredLogs l,
        FilterLogs (node attempt) fromBlock toBlock calls = inl unfilteredLogs /\
        In l unfilteredLogs /\ Removed l = false /\ Topics l = []
  | Spins => False
  end.

(** An appender that records the data of the log as the event. *)
Definition recordData (b : EVMBlock) (l : Log) : EVMBlock * option error :=
  ({| Header := Header b; IsFinalizedBlock := IsFinalizedBlock b;
      Events := Events b ++ [Data l] |}, None).

(** An appender that cannot decode the log and leaves the block as it is. *)
Definition rejectLog (b : EVMBlock) (l : Log) : EVMBlock * option error :=
  (b, Some (Sentinel "cannot decode the log")).

Definition logAt (block hash topic data : Z) : Log :=
  {| Log_BlockNumber := block; Log_BlockHash := hash; Topics := [topic];
     Removed := false; Data := data |}.

(** A node with four logs in blocks 12, 12, 14 and 13, in that order, the
    second of them for a topic nobody asked for.  Its first answer to a
    filter is an error, and block 14 is not found at the first call; until
    the attempt numbered 2 its header of block 12 has another hash than the
    logs. *)
Definition reorgNode (retryCount : Z) : EthClient :=
  {| ctx_Done := false;
     FilterLogs := fun _ _ calls =>
       match calls with
       | O => inr (Sentinel "foo")
       | S _ =>
           inl [logAt 12 1012 1 70; logAt 12 1012 9 71; logAt 14 1014 1 72;
                logAt 13 1013 1 73]
       end;
     HeaderByNumber := fun n calls =>
       if (n =? 12) && (retryCount <? 2)
       then inl {| Num := 12; BlockHash := 4012; ParentHash := 4011; Timestamp := 144 |}
       else
         match calls with
         | O => if n =? 14 then inr ethereum_NotFound else inl (headerOf n)
         | S _ => inl (headerOf n)
         end |}.

(** A retry handler that comes back below five attempts. *)
Definition fiveAttempts (attempts : Z) : bool := attempts <? 5.

Definition dataDownloader : EVMDownloaderImplementation :=
  NewEVMDownloaderImplementation [(1, recordData)] fiveAttempts.

(** The same downloader with an appender that rejects every log. *)
Definition rejectingDownloader : EVMDownloaderImplementation :=
  NewEVMDownloaderImplementation [(1, rejectLog)] fiveAttempts.

End SyncImplementation.

(** ** l1infotreesync: the public readers of L1InfoTreeSync *)

Module L1InfoTreeSync.
Import Machine GoError.

Definition Hash := Z.
Definition Proof := list Hash.

Record Root := { Root_Hash : Hash; Root_Index : Z }.

Record L1InfoTreeLeaf := {
  BlockNumber : Z;
  BlockPosition : Z;
  L1InfoTreeIndex : Z;
  PreviousBlockHash : Hash;
  Timestamp : Z;
  MainnetExitRoot : Hash;
  RollupExitRoot : Hash;
  GlobalExitRoot : Hash;
  Leaf_Hash : Hash
}.

Record VerifyBatches := {
  VB_BlockNumber : Z;
  VB_BlockPosition : Z;
  RollupID : Z;
  NumBatch : Z;
  StateRoot : Hash;
  ExitRoot : Hash;
  VB_RollupExitRoot : Hash
}.

Record L1InfoTreeInitial := { Init_BlockNumber : Z; LeafCount : Z; L1InfoRoot : Hash }.

(** [sync.ErrInconsistentState], [db.ErrNotFound] and the package's own
    [ErrNotFound] are sentinels. *)
Definition ErrInconsistentState : error := Sentinel "state is inconsistent".
Definition db_ErrNotFound : error := Sentinel "not found".
Definition ErrNotFound : error := Sentinel "l1infotreesync: not found".
Definition errNetworkZero : error :=
  Sentinel "network 0 is not a rollup, and it's not part of the rollup exit tree".

(** The processor behind the syncer.  Its file is not under src/: the readers
    it offers, and those of its two trees, are fields; [halted] is the flag
    the processor test of the repository inspects. *)
Record processor := {
  halted : bool;
  p_GetL1InfoTreeMerkleProof : Z -> outcome (Proof * Root);
  p_GetLatestInfoUntilBlock : Z -> outcome L1InfoTreeLeaf;
  p_GetInfoByIndex : Z -> outcome L1InfoTreeLeaf;
  p_GetLastProcessedBlock : outcome Z;
  p_GetLastVerifiedBatches : Z -> outcome VerifyBatches;
  p_GetFirstVerifiedBatches : Z -> outcome VerifyBatches;
  p_GetFirstVerifiedBatchesAfterBlock : Z -> Z -> outcome VerifyBatches;
  p_GetFirstL1InfoWithRollupExitRoot : Hash -> outcome L1InfoTreeLeaf;
  p_GetLastInfo : outcome L1InfoTreeLeaf;
  p_GetFirstInfo : outcome L1InfoTreeLeaf;
  p_GetFirstInfoAfterBlock : Z -> outcome L1InfoTreeLeaf;
  p_GetInfoByGlobalExitRoot : Hash -> outcome L1InfoTreeLeaf;
  p_GetInitL1InfoRootMap : outcome (option L1InfoTreeInitial);
  p_GetProcessedBlockUntil : Z -> outcome (Z * Hash);
  l1InfoTree_GetRootByIndex : Z -> outcome Root;
  l1InfoTree_GetLastRoot : outcome Root;
  l1InfoTree_GetProof : Z -> Hash -> outcome Proof;
  rollupExitTree_GetLastRoot : outcome Root;
  rollupExitTree_GetLeaf : Z -> Hash -> outcome Hash;
  rollupExitTree_GetProof : Z -> Hash -> outcome Proof
}.

(** Modelled from the spec: [processor.isHalted] is not under src/; the
    specification describes it as reading the sticky halted flag. *)
Definition isHalted (p : processor) : bool := halted p.

Definition translateError (err : error) : error :=
  if errors_Is err db_ErrNotFound then ErrNotFound else err.

Section Syncer.

(** [tree.EmptyProof] is declared outside src/. *)
Variable EmptyProof : Proof.

(** The struct [L1InfoTreeSync]; the driver plays no part in the readers. *)
Variable s : processor.

Definition GetL1InfoTreeMerkleProof (index : Z) : outcome (Proof * Root) :=
  if isHalted s then Fail ErrInconsistentState
  else p_GetL1InfoTreeMerkleProof s index.

Definition GetRollupExitTreeMerkleProof (networkID : Z) (root : Hash) : outcome Proof :=
  if isHalted s then Fail ErrInconsistentState
  else if networkID =? 0 then Ok EmptyProof
  else rollupExitTree_GetProof s (u32 (networkID - 1)) root.

Definition GetLatestInfoUntilBlock (blockNum : Z) : outcome L1InfoTreeLeaf :=
  if isHalted s then Fail ErrInconsistentState
  else match p_GetLatestInfoUntilBlock s blockNum with
       | Fail err => Fail (translateError err)
       | r => r
       end.

Definition GetInfoByIndex (index : Z) : outcome L1InfoTreeLeaf :=
  if isHalted s then Fail ErrInconsistentState else p_GetInfoByIndex s index.

Definition GetL1InfoTreeRootByIndex (index : Z) : outcome Root :=
  if isHalted s then Fail ErrInconsistentState else l1InfoTree_GetRootByIndex s index.

Definition GetLastRollupExitRoot : outcome Root :=
  if isHalted s then Fail ErrInconsistentState else rollupExitTree_GetLastRoot s.

Definition GetLastL1InfoTreeRoot : outcome Root :=
  if isHalted s then Fail ErrInconsistentState else l1InfoTree_GetLastRoot s.

Definition GetLastProcessedBlock : outcome Z :=
  if isHalted s then Fail ErrInconsistentState else p_GetLastProcessedBlock s.

Definition GetLocalExitRoot (networkID : Z) (rollupExitRoot : Hash) : outcome Hash :=
  if isHalted s then Fail ErrInconsistentState
  else if networkID =? 0 then Fail errNetworkZero
  else rollupExitTree_GetLeaf s (u32 (networkID - 1)) rollupExitRoot.

Definition GetLastVerifiedBatches (rollupID : Z) : outcome VerifyBatches :=
  if isHalted s then Fail ErrInconsistentState else p_GetLastVerifiedBatches s rollupID.

Definition GetFirstVerifiedBatches (rollupID : Z) : outcome VerifyBatches :=
  if isHalted s then Fail ErrInconsistentState else p_GetFirstVerifiedBatches s rollupID.

Definition GetFirstVerifiedBatchesAfterBlock (rollupID blockNum : Z) : outcome VerifyBatches :=
  if isHalted s then Fail ErrInconsistentState
  else p_GetFirstVerifiedBatchesAfterBlock s rollupID blockNum.

Definition GetFirstL1InfoWithRollupExitRoot (rollupExitRoot : Hash) : outcome L1InfoTreeLeaf :=
  if isHalted s then Fail ErrInconsistentState
  else p_GetFirstL1InfoWithRollupExitRoot s rollupExitRoot.

Definition GetLastInfo : outcome L1InfoTreeLeaf :=
  if isHalted s then Fail ErrInconsistentState else p_GetLastInfo s.

Definition GetFirstInfo : outcome L1InfoTreeLeaf :=
  if isHalted s then Fail ErrInconsistentState else p_GetFirstInfo s.

Definition GetFirstInfoAfterBlock (blockNum : Z) : outcome L1InfoTreeLeaf :=
  if isHalted s then Fail ErrInconsistentState else p_GetFirstInfoAfterBlock s blockNum.

Definition GetInfoByGlobalExitRoot (ger : Hash) : outcome L1InfoTreeLeaf :=
  if isHalted s then Fail ErrInconsistentState else p_GetInfoByGlobalExitRoot s ger.

Definition GetL1InfoTreeMerkleProofFromIndexToRoot (index : Z) (root : Hash) : outcome Proof :=
  if isHalted s then Fail ErrInconsistentState else l1InfoTree_GetProof s index root.

Definition GetInitL1InfoRootMap : outcome (option L1InfoTreeInitial) :=
  if isHalted s then Fail ErrInconsistentState else p_GetInitL1InfoRootMap s.

Definition GetProcessedBlockUntil (blockNum : Z) : outcome (Z * Hash) :=
  if isHalted s then Fail ErrInconsistentState else p_GetProcessedBlockUntil s blockNum.

End Syncer.

(** The processor [p] with another rollup exit tree behind it. *)
Definition withRollupExitTree (p : processor)
  (lastRoot : outcome Root) (getLeaf : Z -> Hash -> outcome Hash)
  (getProof : Z -> Hash -> outcome Proof) : processor :=
  {| halted := halted p;
     p_GetL1InfoTreeMerkleProof := p_GetL1InfoTreeMerkleProof p;
     p_GetLatestInfoUntilBlock := p_GetLatestInfoUntilBlock p;
     p_GetInfoByIndex := p_GetInfoByIndex p;
     p_GetLastProcessedBlock := p_GetLastProcessedBlock p;
     p_GetLastVerifiedBatches := p_GetLastVerifiedBatches p;
     p_GetFirstVerifiedBatches := p_GetFirstVerifiedBatches p;
     p_GetFirstVerifiedBatchesAfterBlock := p_GetFirstVerifiedBatchesAfterBlock p;
     p_GetFirstL1InfoWithRollupExitRoot := p_GetFirstL1InfoWithRollupExitRoot p;
     p_GetLastInfo := p_GetLastInfo p;
     p_GetFirstInfo := p_GetFirstInfo p;
     p_GetFirstInfoAfterBlock := p_GetFirstInfoAfterBlock p;
     p_GetInfoByGlobalExitRoot := p_GetInfoByGlobalExitRoot p;
     p_GetInitL1InfoRootMap := p_GetInitL1InfoRootMap p;
     p_GetProcessedBlockUntil := p_GetProcessedBlockUntil p;
     l1InfoTree_GetRootByIndex := l1InfoTree_GetRootByIndex p;
     l1InfoTree_GetLastRoot := l1InfoTree_GetLastRoot p;
     l1InfoTree_GetProof := l1InfoTree_GetProof p;
     rollupExitTree_GetLastRoot := lastRoot;
     rollupExitTree_GetLeaf := getLeaf;
     rollupExitTree_GetProof := getProof |}.

(** A processor with an empty database: every reader answers not-found. *)
Definition emptyProcessor (isHalted : bool) : processor :=
  {| halted := isHalted;
     p_GetL1InfoTreeMerkleProof := fun _ => Fail db_ErrNotFound;
     p_GetLatestInfoUntilBlock := fun _ => Fail db_ErrNotFound;
     p_GetInfoByIndex := fun _ => Fail db_ErrNotFound;
     p_GetLastProcessedBlock := Ok 0;
     p_GetLastVerifiedBatches := fun _ => Fail db_ErrNotFound;
     p_GetFirstVerifiedBatches := fun _ => Fail db_ErrNotFound;
     p_GetFirstVerifiedBatchesAfterBlock := fun _ _ => Fail db_ErrNotFound;
     p_GetFirstL1InfoWithRollupExitRoot := fun _ => Fail db_ErrNotFound;
     p_GetLastInfo := Fail db_ErrNotFound;
     p_GetFirstInfo := Fail db_ErrNotFound;
     p_GetFirstInfoAfterBlock := fun _ => Fail db_ErrNotFound;
     p_GetInfoByGlobalExitRoot := fun _ => Fail db_ErrNotFound;
     p_GetInitL1InfoRootMap := Ok None;
     p_GetProcessedBlockUntil := fun _ => Fail db_ErrNotFound;
     l1InfoTree_GetRootByIndex := fun _ => Fail db_ErrNotFound;
     l1InfoTree_GetLastRoot := Fail db_ErrNotFound;
     l1InfoTree_GetProof := fun _ _ => Fail db_ErrNotFound;
     rollupExitTree_GetLastRoot := Fail db_ErrNotFound;
     rollupExitTree_GetLeaf := fun _ _ => Fail db_ErrNotFound;
     rollupExitTree_GetProof := fun _ _ => Fail db_ErrNotFound |}.

End L1InfoTreeSync.

(** ** bridgeservice: the L1 info tree index that covers a deposit *)

Module BridgeService.
Import Machine GoError L1InfoTreeSync.

Definition binarySearchDivider : Z := 2.

Definition ErrNotOnL1Info : error :=
  Sentinel "this bridge has not been included on the L1 Info Tree yet".

(** The struct [BridgeService]: the L1 info tree syncer and the two bridge
    syncers are interfaces, so the methods the lookups call are fields. *)
Record BridgeService := {
  networkID : Z;
  l1InfoTree_GetLastInfo : outcome L1InfoTreeLeaf;
  l1InfoTree_GetFirstInfo : outcome L1InfoTreeLeaf;
  l1InfoTree_GetFirstInfoAfterBlock : Z -> outcome L1InfoTreeLeaf;
  l1InfoTree_GetLastVerifiedBatches : Z -> outcome VerifyBatches;
  l1InfoTree_GetFirstVerifiedBatches : Z -> outcome VerifyBatches;
  l1InfoTree_GetFirstVerifiedBatchesAfterBlock : Z -> Z -> outcome VerifyBatches;
  l1InfoTree_GetFirstL1InfoWithRollupExitRoot : Hash -> outcome L1InfoTreeLeaf;
  bridgeL1_GetRootByLER : Hash -> outcome Root;
  bridgeL2_GetRootByLER : Hash -> outcome Root
}.

Section Lookups.
Variable b : BridgeService.

(** The binary search loops.  [None] means the fuel ran out before the loop
    ended; the result of a finished loop is [Some]. *)
Fixpoint searchL1 (fuel : nat) (depositCount : Z) (bestResult : L1InfoTreeLeaf)
  (lowerLimit upperLimit : Z) : option (outcome L1InfoTreeLeaf) :=
  match fuel with
  | O => None
  | S fuel' =>
      if lowerLimit <=? upperLimit then
        let targetBlock :=
          u64 (lowerLimit + u64 (upperLimit - lowerLimit) / binarySearchDivider) in
        match l1InfoTree_GetFirstInfoAfterBlock b targetBlock with
        | Ok targetInfo =>
            match bridgeL1_GetRootByLER b (MainnetExitRoot targetInfo) with
            | Ok root =>
                if Root_Index root <? depositCount then
                  searchL1 fuel' depositCount bestResult (u64 (targetBlock + 1)) upperLimit
                else if Root_Index root =? depositCount then
                  Some (Ok targetInfo)
                else
                  searchL1 fuel' depositCount targetInfo lowerLimit (u64 (targetBlock - 1))
            | Fail e => Some (Fail e)
            | Panic => Some Panic
            end
        | Fail e => Some (Fail e)
        | Panic => Some Panic
        end
      else Some (Ok bestResult)
  end.

Definition getFirstL1InfoTreeIndexForL1Bridge (fuel : nat) (depositCount : Z)
  : option (outcome Z) :=
  match l1InfoTree_GetLastInfo b with
  | Ok lastInfo =>
      match bridgeL1_GetRootByLER b (MainnetExitRoot lastInfo) with
      | Ok root =>
          if Root_Index root <? depositCount then Some (Fail ErrNotOnL1Info)
          else
            match l1InfoTree_GetFirstInfo b with
            | Ok firstInfo =>
                match searchL1 fuel depositCount lastInfo
                        (BlockNumber firstInfo) (BlockNumber lastInfo) with
                | Some (Ok bestResult) => Some (Ok (L1InfoTreeIndex bestResult))
                | Some (Fail e) => Some (Fail e)
                | Some Panic => Some Panic
                | None => None
                end
            | Fail e => Some (Fail e)
            | Panic => Some Panic
            end
      | Fail e => Some (Fail e)
      | Panic => Some Panic
      end
  | Fail e => Some (Fail e)
  | Panic => Some Panic
  end.

Fixpoint searchL2 (fuel : nat) (depositCount : Z) (bestResult : VerifyBatches)
  (lowerLimit upperLimit : Z) : option (outcome VerifyBatches) :=
  match fuel with
  | O => None
  | S fuel' =>
      if lowerLimit <=? upperLimit then
        let targetBlock :=
          u64 (lowerLimit + u64 (upperLimit - lowerLimit) / binarySearchDivider) in
        match l1InfoTree_GetFirstVerifiedBatchesAfterBlock b (networkID b) targetBlock with
        | Ok targetVerified =>
            match bridgeL2_GetRootByLER b (ExitRoot targetVerified) with
            | Ok root =>
                if Root_Index root <? depositCount then
                  searchL2 fuel' depositCount bestResult (u64 (targetBlock + 1)) upperLimit
                else if Root_Index root =? depositCount then
                  Some (Ok targetVerified)
                else
                  searchL2 fuel' depositCount targetVerified lowerLimit (u64 (targetBlock - 1))
            | Fail e => Some (Fail e)
            | Panic => Some Panic
            end
        | Fail e => Some (Fail e)
        | Panic => Some Panic
        end
      else Some (Ok bestResult)
  end.

Definition getFirstL1InfoTreeIndexForL2Bridge (fuel : nat) (depositCount : Z)
  : option (outcome Z) :=
  match l1InfoTree_GetLastVerifiedBatches b (networkID b) with
  | Ok lastVerified =>
      match bridgeL2_GetRootByLER b (ExitRoot lastVerified) with
      | Ok root =>
          if Root_Index root <? depositCount then Some (Fail ErrNotOnL1Info)
          else
            match l1InfoTree_GetFirstVerifiedBatches b (networkID b) with
            | Ok firstVerified =>
                match searchL2 fuel depositCount lastVerified
                        (VB_BlockNumber firstVerified) (VB_BlockNumber lastVerified) with
                | Some (Ok bestResult) =>
                    match l1InfoTree_GetFirstL1InfoWithRollupExitRoot b
                            (VB_RollupExitRoot bestResult) with
                    | Ok info => Some (Ok (L1InfoTreeIndex info))
                    | Fail e => Some (Fail e)
                    | Panic => Some Panic
                    end
                | Some (Fail e) => Some (Fail e)
                | Some Panic => Some Panic
                | None => None
                end
            | Fail e => Some (Fail e)
            | Panic => Some Panic
            end
      | Fail e => Some (Fail e)
      | Panic => Some Panic
      end
  | Fail e => Some (Fail e)
  | Panic => Some Panic
  end.

End Lookups.

(** *** The endpoint /l1-info-tree-index *)

Definition mainnetNetworkID : Z := 0.

(** What the handler writes with [c.JSON]: the index with status 200, or an
    error text with status 400 or 500.  The error behind a 500 is kept
    instead of its text. *)
Inductive Response :=
| StatusOK (l1InfoTreeIndex : Z)
| StatusBadRequest
| StatusInternalServerError (err : error).

Definition statusCode (r : Response) : Z :=
  match r with
  | StatusOK _ => 200
  | StatusBadRequest => 400
  | StatusInternalServerError _ => 500
  end.

(** [L1InfoTreeIndexForBridgeHandler], given what [parseUintQuery] made of
    the two query parameters (it is declared outside src/).  Logging and the
    request counter are left out. *)
Definition L1InfoTreeIndexForBridgeHandler (b : BridgeService) (fuel : nat)
  (networkIDQuery depositCountQuery : outcome Z) : option (outcome Response) :=
  match networkIDQuery with
  | Ok networkID_ =>
      match depositCountQuery with
      | Ok depositCount =>
          let respond (r : option (outcome Z)) :=
            match r with
            | Some (Ok l1InfoTreeIndex) => Some (Ok (StatusOK l1InfoTreeIndex))
            | Some (Fail err) => Some (Ok (StatusInternalServerError err))
            | Some Panic => Some Panic
            | None => None
            end in
          if networkID_ =? mainnetNetworkID then
            respond (getFirstL1InfoTreeIndexForL1Bridge b fuel depositCount)
          else if networkID b =? networkID_ then
            respond (getFirstL1InfoTreeIndexForL2Bridge b fuel depositCount)
          else Some (Ok StatusBadRequest)
      | Fail _ => Some (Ok StatusBadRequest)
      | Panic => Some Panic
      end
  | Fail _ => Some (Ok StatusBadRequest)
  | Panic => Some Panic
  end.

(** *** A store behind the service *)

(** The content of the syncers: the L1 info leaves in tree order, the
    verified batches in chain order, and for each of the two bridges the
    deposit count of every local exit root it went through. *)
Record Store := {
  leaves : list L1InfoTreeLeaf;
  verified : list VerifyBatches;
  rootsL1 : list (Hash * Z);
  rootsL2 : list (Hash * Z)
}.

Definition found {A} (x : option A) : outcome A :=
  match x with
  | Some a => Ok a
  | None => Fail db_ErrNotFound
  end.

Definition rootByLER (roots : list (Hash * Z)) (ler : Hash) : outcome Root :=
  found (option_map (fun p => {| Root_Hash := fst p; Root_Index := snd p |})
           (find (fun p => fst p =? ler) roots)).

(** Modelled from the spec: the processor and the bridge syncer are not under
    src/.  Their readers are named after what they return, and the processor
    test of the repository shows [GetFirstInfoAfterBlock] to include the
    block it is given; the verified-batches readers are per rollup. *)
Definition serviceOver (network : Z) (st : Store) : BridgeService :=
  let ofRollup (id : Z) := filter (fun v => RollupID v =? id) (verified st) in
  {| networkID := network;
     l1InfoTree_GetLastInfo := found (List.last (map Some (leaves st)) None);
     l1InfoTree_GetFirstInfo := found (List.hd_error (leaves st));
     l1InfoTree_GetFirstInfoAfterBlock :=
       fun n => found (find (fun l => n <=? BlockNumber l) (leaves st));
     l1InfoTree_GetLastVerifiedBatches :=
       fun id => found (List.last (map Some (ofRollup id)) None);
     l1InfoTree_GetFirstVerifiedBatches := fun id => found (List.hd_error (ofRollup id));
     l1InfoTree_GetFirstVerifiedBatchesAfterBlock :=
       fun id n => found (find (fun v => n <=? VB_BlockNumber v) (ofRollup id));
     l1InfoTree_GetFirstL1InfoWithRollupExitRoot :=
       fun rer => found (find (fun l => RollupExitRoot l =? rer) (leaves st));
     bridgeL1_GetRootByLER := rootByLER (rootsL1 st);
     bridgeL2_GetRootByLER := rootByLER (rootsL2 st) |}.

(** The lookup as the specification words it: the tree index of the smallest
    L1 info leaf whose mainnet exit root has a deposit count at or above
    [depositCount], and [ErrNotOnL1Info] when there is none. *)
Definition coversL1 (st : Store) (depositCount : Z) (l : L1InfoTreeLeaf) : bool :=
  match rootByLER (rootsL1 st) (MainnetExitRoot l) with
  | Ok root => depositCount <=? Root_Index root
  | _ => false
  end.

Definition smallestCoveringL1 (st : Store) (depositCount : Z) : outcome Z :=
  match find (coversL1 st depositCount) (leaves st) with
  | Some l => Ok (L1InfoTreeIndex l)
  | None => Fail ErrNotOnL1Info
  end.

(** The same for a rollup: the leaf's rollup exit root is the one recorded by
    a verified batch of the rollup whose exit root has a deposit count at or
    above [depositCount]. *)
Definition coversL2 (network : Z) (st : Store) (depositCount : Z) (l : L1InfoTreeLeaf) : bool :=
  existsb (fun v =>
             (RollupID v =? network) && (VB_RollupExitRoot v =? RollupExitRoot l) &&
             match rootByLER (rootsL2 st) (ExitRoot v) with
             | Ok root => depositCount <=? Root_Index root
             | _ => false
             end) (verified st).

Definition smallestCoveringL2 (network : Z) (st : Store) (depositCount : Z) : outcome Z :=
  match find (coversL2 network st depositCount) (leaves st) with
  | Some l => Ok (L1InfoTreeIndex l)
  | None => Fail ErrNotOnL1Info
  end.

(** Five L1 info leaves at blocks 10 to 50.  Leaves 1, 2 and 3 share the
    mainnet exit root 200 (deposit count 5) and differ by their rollup exit
    root, which rollup 1 moved with three verified batches that left its own
    exit root 700 (deposit count 5) unchanged. *)
Definition leafAt (block index mer rer : Z) : L1InfoTreeLeaf :=
  {| BlockNumber := block; BlockPosition := 0; L1InfoTreeIndex := index;
     PreviousBlockHash := 0; Timestamp := 0; MainnetExitRoot := mer;
     RollupExitRoot := rer; GlobalExitRoot := mer + rer; Leaf_Hash := 0 |}.

Definition batchAt (block ler rer : Z) : VerifyBatches :=
  {| VB_BlockNumber := block; VB_BlockPosition := 0; RollupID := 1; NumBatch := block;
     StateRoot := 0; ExitRoot := ler; VB_RollupExitRoot := rer |}.

Definition sharedRootStore : Store :=
  {| leaves := [leafAt 10 0 100 900; leafAt 20 1 200 901; leafAt 30 2 200 902;
                leafAt 40 3 200 903; leafAt 50 4 300 903];
     verified := [batchAt 20 700 901; batchAt 30 700 902; batchAt 40 700 903];
     rootsL1 := [(100, 3); (200, 5); (300, 9)];
     rootsL2 := [(700, 5)] |}.

(** The first leaf of [sharedRootStore] at or after block [n], and the
    deposit count of its mainnet exit root. *)
Definition sharedInfoAfter (n : Z) : L1InfoTreeLeaf :=
  if n <=? 10 then leafAt 10 0 100 900
  else if n <=? 20 then leafAt 20 1 200 901
  else if n <=? 30 then leafAt 30 2 200 902
  else if n <=? 40 then leafAt 40 3 200 903
  else leafAt 50 4 300 903.

Definition sharedCountAt (n : Z) : Z :=
  if n <=? 10 then 3 else if n <=? 40 then 5 else 9.

(** The first verified batch of rollup 1 at or after block [n]. *)
Definition sharedBatchAfter (n : Z) : VerifyBatches :=
  if n <=? 20 then batchAt 20 700 901
  else if n <=? 30 then batchAt 30 700 902
  else batchAt 40 700 903.

End BridgeService.

(** ** bridgeservice: the endpoint /claim-proof *)

Module ClaimProof.
Import Machine GoError L1InfoTreeSync BridgeService.

(** What the handler writes with [c.JSON]: the two proofs and the leaf with
    status 200, or an error text with status 400 or 500. *)
Inductive ClaimProofResponse :=
| ClaimProofOK (ProofLocalExitRoot ProofRollupExitRoot : Proof) (leaf : L1InfoTreeLeaf)
| ClaimProofBadRequest
| ClaimProofInternalServerError (err : error).

Section Handler.

(** [tree.EmptyProof], the processor behind the L1 info tree syncer, the
    network of the service and the proof readers of its two bridge
    syncers.  The field [l1InfoTree] of the service is an interface; the
    handler is modelled over the implementation of that interface found in
    the repository, [L1InfoTreeSync]. *)
Variable EmptyProof : Proof.
Variable s : processor.
Variable serviceNetworkID : Z.
Variable bridgeL1_GetProof : Z -> Hash -> outcome Proof.
Variable bridgeL2_GetProof : Z -> Hash -> outcome Proof.

(** [ClaimProofHandler], given what [parseUintQuery] made of the three query
    parameters.  Logging and the request counter are left out. *)
Definition ClaimProofHandler (networkIDQuery l1InfoTreeIndexQuery depositCountQuery : outcome Z)
  : outcome ClaimProofResponse :=
  match networkIDQuery with
  | Fail _ => Ok ClaimProofBadRequest
  | Panic => Panic
  | Ok networkID_ =>
  match l1InfoTreeIndexQuery with
  | Fail _ => Ok ClaimProofBadRequest
  | Panic => Panic
  | Ok l1InfoTreeIndex =>
  match depositCountQuery with
  | Fail _ => Ok ClaimProofBadRequest
  | Panic => Panic
  | Ok depositCount =>
  match GetInfoByIndex s l1InfoTreeIndex with
  | Fail err => Ok (ClaimProofInternalServerError err)
  | Panic => Panic
  | Ok info =>
      let finish (proofLocalExitRoot : Proof) :=
        match GetRollupExitTreeMerkleProof EmptyProof s networkID_ (RollupExitRoot info) with
        | Ok proofRollupExitRoot =>
            Ok (ClaimProofOK proofLocalExitRoot proofRollupExitRoot info)
        | Fail err => Ok (ClaimProofInternalServerError err)
        | Panic => Panic
        end in
      if networkID_ =? mainnetNetworkID then
        match bridgeL1_GetProof depositCount (MainnetExitRoot info) with
        | Ok proofLocalExitRoot => finish proofLocalExitRoot
        | Fail err => Ok (ClaimProofInternalServerError err)
        | Panic => Panic
        end
      else if networkID_ =? serviceNetworkID then
        match GetLocalExitRoot s networkID_ (RollupExitRoot info) with
        | Ok localExitRoot =>
            match bridgeL2_GetProof depositCount localExitRoot with
            | Ok proofLocalExitRoot => finish proofLocalExitRoot
            | Fail err => Ok (ClaimProofInternalServerError err)
            | Panic => Panic
            end
        | Fail err => Ok (ClaimProofInternalServerError err)
        | Panic => Panic
        end
      else Ok ClaimProofBadRequest
  end end end end.

End Handler.

(** A processor that knows one leaf, at index 3, and a rollup exit tree
    with a leaf and a proof for every index. *)
Definition oneLeafProcessor : processor :=
  {| halted := false;
     p_GetL1InfoTreeMerkleProof := fun _ => Fail db_ErrNotFound;
     p_GetLatestInfoUntilBlock := fun _ => Fail db_ErrNotFound;
     p_GetInfoByIndex := fun index =>
       if index =? 3 then Ok (leafAt 40 3 200 903) else Fail db_ErrNotFound;
     p_GetLastProcessedBlock := Ok 40;
     p_GetLastVerifiedBatches := fun _ => Fail db_ErrNotFound;
     p_GetFirstVerifiedBatches := fun _ => Fail db_ErrNotFound;
     p_GetFirstVerifiedBatchesAfterBlock := fun _ _ => Fail db_ErrNotFound;
     p_GetFirstL1InfoWithRollupExitRoot := fun _ => Fail db_ErrNotFound;
     p_GetLastInfo := Fail db_ErrNotFound;
     p_GetFirstInfo := Fail db_ErrNotFound;
     p_GetFirstInfoAfterBlock := fun _ => Fail db_ErrNotFound;
     p_GetInfoByGlobalExitRoot := fun _ => Fail db_ErrNotFound;
     p_GetInitL1InfoRootMap := Ok None;
     p_GetProcessedBlockUntil := fun _ => Fail db_ErrNotFound;
     l1InfoTree_GetRootByIndex := fun _ => Fail db_ErrNotFound;
     l1InfoTree_GetLastRoot := Fail db_ErrNotFound;
     l1InfoTree_GetProof := fun _ _ => Fail db_ErrNotFound;
     rollupExitTree_GetLastRoot := Fail db_ErrNotFound;
     rollupExitTree_GetLeaf := fun index root => Ok (700 + index);
     rollupExitTree_GetProof := fun index root => Ok [index; root] |}.

End ClaimProof.

(** ** agglayer/types: BridgeExit.Hash *)

Module AgglayerTypes.
Import Machine GoError.

Definition bytes := list byte.

Definition byte_of_Z (z : Z) : byte :=
  match Byte.of_N (Z.to_N (z mod 256)) with
  | Some x => x
  | None => Byte.x00
  end.

(** The [n] low bytes of [z], most significant first. *)
Fixpoint bigEndian (n : nat) (z : Z) : bytes :=
  match n with
  | O => []
  | S n' => bigEndian n' (z / 256) ++ [byte_of_Z z]
  end.

(** Modelled from the spec: [aggkitcommon.Uint32ToBytes] is not under src/;
    the specification has uint32 values enter the hashes big-endian. *)
Definition Uint32ToBytes (x : Z) : bytes := bigEndian 4 (u32 x).

(** go-ethereum's [common.BigToHash(b).Bytes()]: the magnitude of [b],
    big-endian, cropped from the left to 32 bytes. *)
Definition BigToHash (b : Z) : bytes := bigEndian 32 (Z.abs b).

Record TokenInfo := {
  OriginNetwork : Z;
  OriginTokenAddress : bytes
}.

(** [TokenInfo] and [Amount] are pointers and [Metadata] is a slice: [None]
    is nil. *)
Record BridgeExit := {
  LeafType : Z;
  TokenInfo_ : option TokenInfo;
  DestinationNetwork : Z;
  DestinationAddress : bytes;
  Amount : option Z;
  Metadata : option bytes
}.

Definition len (sl : option bytes) : nat :=
  match sl with
  | Some l => List.length l
  | None => O
  end.

Definition slice (sl : option bytes) : bytes :=
  match sl with
  | Some l => l
  | None => []
  end.

Definition withAmount (b : BridgeExit) (amount : option Z) : BridgeExit :=
  {| LeafType := LeafType b; TokenInfo_ := TokenInfo_ b;
     DestinationNetwork := DestinationNetwork b;
     DestinationAddress := DestinationAddress b;
     Amount := amount; Metadata := Metadata b |}.

Definition withMetadata (b : BridgeExit) (metadata : option bytes) : BridgeExit :=
  {| LeafType := LeafType b; TokenInfo_ := TokenInfo_ b;
     DestinationNetwork := DestinationNetwork b;
     DestinationAddress := DestinationAddress b;
     Amount := Amount b; Metadata := metadata |}.

Section Hashing.

(** [crypto.Keccak256] of go-ethereum. *)
Variable Keccak256 : bytes -> bytes.

Definition Keccak256Hash (data : list bytes) : bytes := Keccak256 (List.concat data).

Definition emptyBytesHash : bytes := Keccak256 [].

(** [Hash] has a pointer receiver: it returns the bridge exit as the call
    leaves it, and the hash, or a panic when [TokenInfo] is nil. *)
Definition Hash (b : BridgeExit) : BridgeExit * outcome bytes :=
  let b := match Amount b with
           | None => withAmount b (Some 0)
           | Some _ => b
           end in
  let metaDataHash :=
    if Nat.eqb (len (Metadata b)) 0 then emptyBytesHash else slice (Metadata b) in
  match TokenInfo_ b, Amount b with
  | Some tokenInfo, Some amount =>
      (b, Ok (Keccak256Hash
                [[byte_of_Z (LeafType b)];
                 Uint32ToBytes (OriginNetwork tokenInfo);
                 OriginTokenAddress tokenInfo;
                 Uint32ToBytes (DestinationNetwork b);
                 DestinationAddress b;
                 BigToHash amount;
                 metaDataHash]))
  | _, _ => (b, Panic)
  end.

End Hashing.

(** *** LeafType and the JSON form of a bridge exit *)

Definition LeafTypeAsset : Z := 0.
Definition LeafTypeMessage : Z := 1.

(** [LeafType.String]: indexing the two names panics from 2 on. *)
Definition LeafType_String (l : Z) : outcome string :=
  if l =? LeafTypeAsset then Ok "Transfer"%string
  else if l =? LeafTypeMessage then Ok "Message"%string
  else Panic.

Definition quoteChar : ascii := ascii_of_nat 34.

Definition quoted (s : string) : string :=
  String quoteChar (s ++ String quoteChar EmptyString)%string.

Fixpoint trimLeft (cut : ascii) (s : list ascii) : list ascii :=
  match s with
  | a :: rest => if Ascii.eqb a cut then trimLeft cut rest else s
  | [] => []
  end.

(** [strings.Trim] with a one-character cutset. *)
Definition Trim (s : string) (cut : ascii) : string :=
  string_of_list_ascii
    (rev (trimLeft cut (rev (trimLeft cut (list_ascii_of_string s))))).

(** [strings.Contains]. *)
Fixpoint Contains (s substr : string) : bool :=
  String.prefix substr s ||
  match s with
  | String _ rest => Contains rest substr
  | EmptyString => false
  end.

Definition nilStr : string := "nil".

(** What [json.Marshal] is handed by [BridgeExit.MarshalJSON], and what
    [json.Unmarshal] reads in [BridgeExit.UnmarshalJSON]: the leaf type as
    the text between the quotes, the amount as text, the metadata as text or
    null.  The other fields go through the JSON library unchanged. *)
Record BridgeExitJSON := {
  json_leaf_type : string;
  json_token_info : option TokenInfo;
  json_dest_network : Z;
  json_dest_address : bytes;
  json_amount : string;
  json_metadata : option string
}.

Section Encoding.

(** [fmt.Sscanf] with the verb %d; the methods [String], of a number that
    is not nil, and [SetString], in base 10, of [big.Int]; go-ethereum's
    [common.Bytes2Hex] and [common.Hex2Bytes]. *)
Variable Sscanf_d : string -> option Z.
Variable big_String : Z -> string.
Variable big_SetString : string -> option Z.
Variable Bytes2Hex : bytes -> string.
Variable Hex2Bytes : string -> bytes.

(** [raw] is the JSON token, quotes included. *)
Definition LeafType_UnmarshalJSON (raw : string) : outcome Z :=
  let rawStr := Trim raw quoteChar in
  if String.eqb rawStr "Transfer" then Ok LeafTypeAsset
  else if String.eqb rawStr "Message" then Ok LeafTypeMessage
  else
    match Sscanf_d rawStr with
    | Some value => Ok (value mod 256)
    | None => Fail (Sentinel ("invalid LeafType: " ++ rawStr))
    end.

Definition MarshalJSON (b : BridgeExit) : outcome BridgeExitJSON :=
  let metadataString :=
    if Nat.ltb 0 (len (Metadata b)) then Some (Bytes2Hex (slice (Metadata b))) else None in
  match LeafType_String (LeafType b) with
  | Ok leafType =>
      Ok {| json_leaf_type := leafType;
            json_token_info := TokenInfo_ b;
            json_dest_network := DestinationNetwork b;
            json_dest_address := DestinationAddress b;
            json_amount :=
              match Amount b with
              | Some amount => big_String amount
              | None => "<nil>"
              end;
            json_metadata := metadataString |}
  | Fail e => Fail e
  | Panic => Panic
  end.

(** [b] is the bridge exit the JSON is decoded into. *)
Definition UnmarshalJSON (b : BridgeExit) (aux : BridgeExitJSON) : outcome BridgeExit :=
  match LeafType_UnmarshalJSON (quoted (json_leaf_type aux)) with
  | Ok leafType =>
      let decoded (amount : option Z) :=
        Ok {| LeafType := leafType;
              TokenInfo_ := json_token_info aux;
              DestinationNetwork := json_dest_network aux;
              DestinationAddress := json_dest_address aux;
              Amount := amount;
              Metadata :=
                match json_metadata aux with
                | Some s => Some (Hex2Bytes s)
                | None => None
                end |} in
      if negb (Contains (json_amount aux) nilStr) then
        match big_SetString (json_amount aux) with
        | Some amount => decoded (Some amount)
        | None =>
            Fail (Sentinel ("failed to convert amount to big.Int: " ++ json_amount aux))
        end
      else decoded (Amount b)
  | Fail e => Fail e
  | Panic => Panic
  end.

End Encoding.

(** *** CertificateStatus *)

(** [CertificateStatus] is an int; the five constants number from 0. *)
Definition Pending : Z := 0.
Definition Proven : Z := 1.
Definition Candidate : Z := 2.
Definition InError : Z := 3.
Definition Settled : Z := 4.

Definition NonSettledStatuses : list Z := [Pending; Candidate; Proven].

(** Indexing the five names panics outside [0, 4]. *)
Definition CertificateStatus_String (c : Z) : outcome string :=
  if c =? Pending then Ok "Pending"%string
  else if c =? Proven then Ok "Proven"%string
  else if c =? Candidate then Ok "Candidate"%string
  else if c =? InError then Ok "InError"%string
  else if c =? Settled then Ok "Settled"%string
  else Panic.

Definition IsOpen (c : Z) : bool := existsb (Z.eqb c) NonSettledStatuses.
Definition IsClosed (c : Z) : bool := negb (IsOpen c).
Definition IsSettled (c : Z) : bool := c =? Settled.
Definition IsInError (c : Z) : bool := c =? InError.

Section StatusDecoding.
Variable Sscanf_d : string -> option Z.

Definition CertificateStatus_UnmarshalJSON (rawStatus : string) : outcome Z :=
  let status := Trim rawStatus quoteChar in
  let status := if Contains status "InError" then "InError"%string else status in
  if String.eqb status "Pending" then Ok Pending
  else if String.eqb status "InError" then Ok InError
  else if String.eqb status "Proven" then Ok Proven
  else if String.eqb status "Candidate" then Ok Candidate
  else if String.eqb status "Settled" then Ok Settled
  else
    match Sscanf_d status with
    | Some statusInt => Ok statusInt
    | None => Fail (Sentinel ("invalid status: " ++ status))
    end.

End StatusDecoding.

(** The texts that name a status. *)
Definition statusNames : list string :=
  ["Pending"; "Proven"; "Candidate"; "InError"; "Settled"]%string.

(** The zero value of [BridgeExit]. *)
Definition zeroBridgeExit : BridgeExit :=
  {| LeafType := 0; TokenInfo_ := None; DestinationNetwork := 0;
     DestinationAddress := bigEndian 20 0; Amount := None; Metadata := None |}.

(** Stand-ins for the library's number and hexadecimal texts, to run the
    JSON functions on an example. *)
Definition decimalOf (z : Z) : string :=
  DecimalString.NilZero.string_of_int (Z.to_int z).

Definition decimalTo (s : string) : option Z :=
  option_map Z.of_int (DecimalString.NilZero.int_of_string s).

Definition hexDigit (n : N) : ascii :=
  match n with
  | 0 => "0" | 1 => "1" | 2 => "2" | 3 => "3" | 4 => "4" | 5 => "5" | 6 => "6" | 7 => "7"
  | 8 => "8" | 9 => "9" | 10 => "a" | 11 => "b" | 12 => "c" | 13 => "d" | 14 => "e"
  | _ => "f"
  end%N%char.

Definition hexValue (a : ascii) : option N :=
  let n := N_of_ascii a in
  (if (48 <=? n) && (n <=? 57) then Some (n - 48)
   else if (97 <=? n) && (n <=? 102) then Some (n - 87)
   else None)%N.

Fixpoint hexEncode (data : bytes) : string :=
  match data with
  | [] => EmptyString
  | x :: rest =>
      String (hexDigit (Byte.to_N x / 16))
        (String (hexDigit (Byte.to_N x mod 16)) (hexEncode rest))
  end%N.

Fixpoint hexDecode (s : string) : bytes :=
  match s with
  | String a (String b rest) =>
      match hexValue a, hexValue b with
      | Some high, Some low =>
          match Byte.of_N (16 * high + low) with
          | Some x => x :: hexDecode rest
          | None => []
          end
      | _, _ => []
      end
  | _ => []
  end.

Definition messageExit : BridgeExit :=
  {| LeafType := 1;
     TokenInfo_ := Some {| OriginNetwork := 0; OriginTokenAddress := bigEndian 20 0 |};
     DestinationNetwork := 1;
     DestinationAddress := bigEndian 20 3735928559;
     Amount := Some 1250;
     Metadata := Some (bigEndian 3 70000) |}.

(** A stand-in digest, to run [Hash] on an example: the length of the input
    on 32 bytes. *)
Definition lengthDigest (data : bytes) : bytes := bigEndian 32 (Z.of_nat (List.length data)).

Definition transferExit : BridgeExit :=
  {| LeafType := 0;
     TokenInfo_ := Some {| OriginNetwork := 0; OriginTokenAddress := bigEndian 20 0 |};
     DestinationNetwork := 1;
     DestinationAddress := bigEndian 20 3735928559;
     Amount := None;
     Metadata := None |}.

End AgglayerTypes.

(* ===================================================================== *)
(** * Part II: theorems                                                    *)
(* ===================================================================== *)

Module MachineFacts.
Import Machine.

Lemma u64_small (z : Z) : 0 <= z < 2 ^ 64 -> u64 z = z.
Proof. intros H. unfold u64. apply Z.mod_small. exact H. Qed.

Lemma u32_small (z : Z) : 0 <= z < 2 ^ 32 -> u32 z = z.
Proof. intros H. unfold u32. apply Z.mod_small. exact H. Qed.

Lemma int64_small (z : Z) : - 2 ^ 63 <= z < 2 ^ 63 -> int64 z = z.
Proof. intros H. unfold int64. rewrite Z.mod_small; lia. Qed.

End MachineFacts.

Module FlowsFacts.
Import Machine MachineFacts GoError Flows.

Lemma withExtraData_same (p : CertificateBuildParams) : withExtraData p (ExtraData p) = p.
Proof. destruct p; reflexivity. Qed.

Lemma cons_neq {A} (x : A) (l : list A) : x :: l <> l.
Proof.
  intros H. apply (f_equal (@List.length A)) in H. cbn in H. lia.
Qed.

(** What [adjustBlockRange] returns, with [Range] as the specification
    describes it. *)
Lemma adjustBlockRange_spec (bp : CertificateBuildParams) (requested proverTo : Z) :
  exists q, adjustBlockRange bp requested proverTo = Ok q /\
    FromBlock q = FromBlock bp /\ RetryCount q = RetryCount bp /\
    CreatedAt q = CreatedAt bp /\ AggchainProof_ q = AggchainProof_ bp /\
    (requested = proverTo -> q = bp) /\
    (requested <> proverTo ->
       ToBlock q = proverTo /\
       Bridges q = filter (fun b => Bridge_BlockNum b <=? proverTo) (Bridges bp) /\
       Claims q = filter (fun cl => Claim_BlockNum cl <=? proverTo) (Claims bp)).
Proof.
  unfold adjustBlockRange.
  destruct (requested =? proverTo) eqn:E; cbn.
  - apply Z.eqb_eq in E. exists bp. repeat split; auto. all: intros; contradiction.
  - apply Z.eqb_neq in E. eexists. split; [reflexivity|]. cbn.
    repeat split; auto. intros; contradiction.
Qed.

Section Traces.
Variable Storage : Type.
Variable a : AggchainProverFlow Storage.

Lemma GenerateAggchainProof_trace (lp to : Z) (bp : CertificateBuildParams)
  (w w' : World Storage) r :
  GenerateAggchainProof Storage a lp to bp w = (r, w') ->
  storage w' = storage w /\
  ((proverCalls w' = proverCalls w /\ forall x, r <> Ok x) \/
   exists c, proverCalls w' = c :: proverCalls w /\
     RequestedEndBlock (request c) = to /\
     Req_LastProvenBlock (request c) = lp /\
     match reply c with
     | Ok p => exists root x, r = Ok (p, root, withExtraData bp x)
     | Fail e => exists e', r = Fail e' /\
                   errors_Is e' errNoProofBuiltYet = errors_Is e errNoProofBuiltYet
     | Panic => r = Panic
     end).
Proof.
  unfold GenerateAggchainProof. intros H.
  destruct (GetFinalizedL1InfoTreeData Storage a) as [[[proof leaf] root]|e|];
    cbn -[u64] in H; [|inversion H; subst; split; [reflexivity|left; split; [reflexivity|discriminate]]..].
  destruct (CheckIfClaimsArePartOfFinalizedL1InfoTree Storage a root (Claims bp));
    cbn -[u64] in H; [inversion H; subst; split; [reflexivity|left; split; [reflexivity|discriminate]]|].
  destruct (GetInjectedGERsProofs Storage a root (u64 (lp + 1)) to) as [gers|e|];
    cbn -[u64] in H; [|inversion H; subst; split; [reflexivity|left; split; [reflexivity|discriminate]]..].
  destruct (getImportedBridgeExitsForProver Storage a (Claims bp)) as [ibes|e|];
    cbn -[u64] in H; [|inversion H; subst; split; [reflexivity|left; split; [reflexivity|discriminate]]..].
  match type of H with context [proverExchange _ false ?q _] => set (req := q) in H end.
  destruct (negb (CertificateType_eqb (CertificateType_ bp) CertificateTypeOptimistic)).
  - unfold bind, wrapErr, proverExchange, ret in H.
    destruct (GenerateAggchainProof_client Storage a req) as [p|e|] eqn:Er;
      inversion H; subst; clear H; cbn [storage proverCalls];
      (split; [reflexivity|]); right; eexists; (split; [reflexivity|]);
      cbn [request reply]; (split; [reflexivity|]); (split; [reflexivity|]).
    + exists root, (ExtraData bp). rewrite withExtraData_same. reflexivity.
    + eexists; split; reflexivity.
    + reflexivity.
  - unfold generateOptimisticAggchainProof, bind, wrapErr, call, proverExchange, ret in H.
    destruct (GetNewLocalExitRoot Storage a bp) as [ler|e|];
      [|inversion H; subst; split; [reflexivity|left; split; [reflexivity|discriminate]]..].
    destruct (optimisticSigner_Sign Storage a req ler (Claims bp)) as [[sign extra]|e|];
      [|inversion H; subst; split; [reflexivity|left; split; [reflexivity|discriminate]]..].
    destruct (GenerateOptimisticAggchainProof_client Storage a req sign) as [p|e|] eqn:Er;
      inversion H; subst; clear H; cbn [storage proverCalls];
      (split; [reflexivity|]); right; eexists; (split; [reflexivity|]);
      cbn [request reply]; (split; [reflexivity|]); (split; [reflexivity|]).
    + exists root, extra. reflexivity.
    + eexists; split; reflexivity.
    + reflexivity.
Qed.

Lemma verify_trace (bpo : option CertificateBuildParams) (w w' : World Storage) r :
  verifyBuildParamsAndGenerateProof Storage a bpo w = (r, w') ->
  storage w' = storage w /\
  ((proverCalls w' = proverCalls w /\ forall q, r <> Ok (Some q)) \/
   exists c bp, bpo = Some bp /\ proverCalls w' = c :: proverCalls w /\
     RequestedEndBlock (request c) = ToBlock bp /\
     match reply c with
     | Ok p =>
         exists root x,
           r = match adjustBlockRange
                       (withProof (withExtraData bp x) (Root_Hash root) p
                          (u32 (Root_Index root + 1)))
                       (ToBlock bp) (EndBlock p) with
               | Ok q => Ok (Some q)
               | Fail e => Fail e
               | Panic => Panic
               end
     | Fail e =>
         if errors_Is e errNoProofBuiltYet then r = Ok None else exists e', r = Fail e'
     | Panic => r = Panic
     end).
Proof.
  unfold verifyBuildParamsAndGenerateProof. intros H.
  destruct (VerifyBuildParams Storage a bpo).
  { inversion H; subst. split; [reflexivity|left; split; [reflexivity|discriminate]]. }
  destruct bpo as [bp|].
  2:{ inversion H; subst. split; [reflexivity|left; split; [reflexivity|discriminate]]. }
  destruct (GenerateAggchainProof Storage a
              (getLastProvenBlock Storage a (FromBlock bp) (LastSentCertificate bp))
              (ToBlock bp) bp w) as [r1 w1] eqn:Eg.
  apply GenerateAggchainProof_trace in Eg.
  destruct Eg as [Hst [[Hcalls Hno]|(c & Hcalls & Hreq & _ & Hreply)]].
  - destruct r1 as [[[p root] bp']|e|].
    + exfalso. eapply Hno. reflexivity.
    + destruct (errors_Is e errNoProofBuiltYet); inversion H; subst;
        (split; [exact Hst|left; split; [exact Hcalls|discriminate]]).
    + inversion H; subst. split; [exact Hst|left; split; [exact Hcalls|discriminate]].
  - assert (Hw : r1 = r1) by reflexivity.
    destruct (reply c) as [p|e|] eqn:Erep.
    + destruct Hreply as (root & x & ->).
      cbn [withProof withExtraData ToBlock] in H.
      split.
      * destruct (adjustBlockRange _ _ _) in H; inversion H; subst; exact Hst.
      * right. exists c, bp. rewrite Erep. repeat split; try assumption.
        -- destruct (adjustBlockRange _ _ _) in H; inversion H; subst; exact Hcalls.
        -- exists root, x. cbn [withProof withExtraData ToBlock].
           destruct (adjustBlockRange _ _ _) in H |- *; inversion H; subst; reflexivity.
    + destruct Hreply as (e' & -> & He').
      rewrite He' in H.
      destruct (errors_Is e errNoProofBuiltYet) eqn:Eis; inversion H; subst;
        (split; [exact Hst|]); right; exists c, bp; rewrite Erep, Eis;
        repeat split; try assumption; try reflexivity.
      eexists; reflexivity.
    + subst r1. inversion H; subst. split; [exact Hst|].
      right; exists c, bp; rewrite Erep. repeat split; assumption.
Qed.

Lemma AdaptCertificate_quiet (bpo : option CertificateBuildParams) (w w' : World Storage) r :
  AdaptCertificate Storage a bpo w = (r, w') -> w' = w.
Proof.
  unfold AdaptCertificate, call, ret.
  destruct (featureMaxL2Block Storage a) as [f|].
  - destruct (f bpo); intros H; inversion H; reflexivity.
  - intros H; inversion H; reflexivity.
Qed.

Lemma AdaptCertificate_idle (bpo : option CertificateBuildParams) (w : World Storage) :
  limiterIdle Storage a -> AdaptCertificate Storage a bpo w = (Ok bpo, w).
Proof.
  unfold limiterIdle, AdaptCertificate, call, ret.
  destruct (featureMaxL2Block Storage a) as [f|]; intros H; [rewrite H|]; reflexivity.
Qed.

(** Every tick reads the storage only, and talks to the prover at most once;
    a no-proof-yet answer ends the tick with nothing to send. *)
Lemma GetCertificateBuildParams_trace (w w' : World Storage) r :
  GetCertificateBuildParams Storage a w = (r, w') ->
  storage w' = storage w /\
  ((proverCalls w' = proverCalls w) \/
   exists c, proverCalls w' = c :: proverCalls w /\
     forall e, reply c = Fail e -> errors_Is e errNoProofBuiltYet = true -> r = Ok None).
Proof.
  assert (Hv : forall bpo w0 w1 r0,
             verifyBuildParamsAndGenerateProof Storage a bpo w0 = (r0, w1) ->
             storage w1 = storage w0 /\
             ((proverCalls w1 = proverCalls w0) \/
              exists c, proverCalls w1 = c :: proverCalls w0 /\
                forall e, reply c = Fail e ->
                  errors_Is e errNoProofBuiltYet = true -> r0 = Ok None)).
  { intros bpo w0 w1 r0 H. apply verify_trace in H.
    destruct H as [Hst [[Hc _]|(c & bp & _ & Hc & _ & Hrep)]].
    - split; [exact Hst|left; exact Hc].
    - split; [exact Hst|]. right. exists c. split; [exact Hc|].
      intros e He His. rewrite He, His in Hrep. exact Hrep. }
  unfold GetCertificateBuildParams, getCertificateTypeToGenerate, bind, wrapErr, call, ret.
  intros H.
  destruct (GetLastSentCertificateHeaderWithProofIfInError Storage a (storage w))
    as [[lastSentCert proof]|e|];
    [|inversion H; subst; split; [reflexivity|left; reflexivity]..].
  destruct (IsOptimisticModeOn Storage a) as [opt|e|];
    [|inversion H; subst; split; [reflexivity|left; reflexivity]..].
  set (typeCert := if opt then CertificateTypeOptimistic else CertificateTypeFEP).
  assert (Hnew : forall r0 w1, buildNew Storage a lastSentCert typeCert w = (r0, w1) ->
            storage w1 = storage w /\
            ((proverCalls w1 = proverCalls w) \/
             exists c, proverCalls w1 = c :: proverCalls w /\
               forall e, reply c = Fail e ->
                 errors_Is e errNoProofBuiltYet = true -> r0 = Ok None)).
  { intros r0 w1 Hb. unfold buildNew, bind in Hb.
    destruct (GetCertificateBuildParamsInternal Storage a typeCert) as [bpo|e|].
    - destruct (AdaptCertificate Storage a bpo w) as [r2 w2] eqn:Ea.
      apply AdaptCertificate_quiet in Ea. subst w2.
      destruct r2 as [[bp|]|e|];
        try (inversion Hb; subst; split; [reflexivity|left; reflexivity]).
      eapply Hv. exact Hb.
    - destruct (errors_Is e errNoNewBlocks); inversion Hb; subst;
        (split; [reflexivity|left; reflexivity]).
    - inversion Hb; subst. split; [reflexivity|left; reflexivity]. }
  destruct opt; cbn beta iota in H;
    fold typeCert in H.
  all: destruct lastSentCert as [cert|]; [|apply Hnew; exact H].
  all: destruct (IsInError (Status cert) && CertificateType_eqb (CertType cert) typeCert);
         [|apply Hnew; exact H].
  all: unfold resendInError, bind, call, ret in H.
  all: destruct (GetBridgesAndClaims Storage a (Header_FromBlock cert) (Header_ToBlock cert))
         as [[bridges claims]|e|];
         [|inversion H; subst; split; [reflexivity|left; reflexivity]..].
  all: match type of H with
       | context [AdaptCertificate Storage a ?b ?w0] =>
           destruct (AdaptCertificate Storage a b w0) as [r2 w2] eqn:Ea;
           apply AdaptCertificate_quiet in Ea; subst w2
       end.
  all: destruct r2 as [bpo|e|];
         [|inversion H; subst; split; [reflexivity|left; reflexivity]..].
  all: destruct proof as [pr|]; [|eapply Hv; exact H].
  all: destruct bpo as [bp|]; [destruct (FinalizedL1InfoTreeRoot cert)|];
         inversion H; subst; split; try reflexivity; left; reflexivity.
Qed.

(** C4: the last proven block is the start L2 block when fromBlock is 0, or
    the last certificate ends below the start L2 block, or fromBlock - 1 is
    below it; in every other case it is fromBlock - 1. *)
Theorem getLastProvenBlock_rule (fromBlock : Z) (lastCert : option CertificateHeader) :
  0 <= fromBlock < 2 ^ 64 ->
  ((fromBlock = 0 \/
    (exists c, lastCert = Some c /\ Header_ToBlock c < StartL2Block Storage a) \/
    fromBlock - 1 < StartL2Block Storage a) ->
   getLastProvenBlock Storage a fromBlock lastCert = StartL2Block Storage a) /\
  (~ (fromBlock = 0 \/
      (exists c, lastCert = Some c /\ Header_ToBlock c < StartL2Block Storage a) \/
      fromBlock - 1 < StartL2Block Storage a) ->
   getLastProvenBlock Storage a fromBlock lastCert = fromBlock - 1).
Proof.
  intros Hrange. unfold getLastProvenBlock.
  destruct (fromBlock =? 0) eqn:E0.
  { apply Z.eqb_eq in E0. split; [reflexivity|]. intros Hn. exfalso. apply Hn. left; exact E0. }
  apply Z.eqb_neq in E0. rewrite (u64_small (fromBlock - 1)) by lia.
  destruct lastCert as [c|].
  - destruct (Header_ToBlock c <? StartL2Block Storage a) eqn:E1.
    + apply Z.ltb_lt in E1. split; [reflexivity|]. intros Hn. exfalso. apply Hn.
      right; left. exists c. split; [reflexivity|exact E1].
    + apply Z.ltb_ge in E1.
      destruct (fromBlock - 1 <? StartL2Block Storage a) eqn:E2.
      * apply Z.ltb_lt in E2. split; [reflexivity|]. intros Hn. exfalso. apply Hn.
        right; right; exact E2.
      * apply Z.ltb_ge in E2. split; [|reflexivity].
        intros [H|[(c' & Hc & Hlt)|H]]; [lia| |lia].
        inversion Hc; subst c'. lia.
  - destruct (fromBlock - 1 <? StartL2Block Storage a) eqn:E2.
    + apply Z.ltb_lt in E2. split; [reflexivity|]. intros Hn. exfalso. apply Hn.
      right; right; exact E2.
    + apply Z.ltb_ge in E2. split; [|reflexivity].
      intros [H|[(c' & Hc & Hlt)|H]]; [lia|discriminate Hc|lia].
Qed.

(** C2: when the prover answers the request of this tick with an error that
    is the no-proof-built-yet gRPC error (code Unavailable, that message),
    GetCertificateBuildParams returns nil parameters and a nil error, and the
    storage is what it was before the tick. *)
Theorem no_proof_built_yet_emits_nothing (w w' : World Storage) r (c : ProverCall) (e : error) :
  GetCertificateBuildParams Storage a w = (r, w') ->
  proverCalls w' = c :: proverCalls w ->
  reply c = Fail e ->
  errors_Is e errNoProofBuiltYet = true ->
  r = Ok None /\ storage w' = storage w.
Proof.
  intros Hrun Hcall Hreply His.
  apply GetCertificateBuildParams_trace in Hrun.
  destruct Hrun as [Hst [Hsame|(c' & Hc' & Hnil)]].
  - rewrite Hsame in Hcall. symmetry in Hcall. apply cons_neq in Hcall. contradiction.
  - rewrite Hc' in Hcall. inversion Hcall; subst c'.
    split; [eapply Hnil; eassumption|exact Hst].
Qed.

(** C3: when the prover answers with an end block below the requested one,
    the build parameters that come back end at the prover's end block, start
    where they started, and hold exactly the bridges and claims of the
    request whose block number is at most that end block. *)
Theorem prover_shorter_range_shrinks (bp : CertificateBuildParams)
  (w w' : World Storage) r (c : ProverCall) (p : AggchainProof) :
  verifyBuildParamsAndGenerateProof Storage a (Some bp) w = (r, w') ->
  proverCalls w' = c :: proverCalls w ->
  reply c = Ok p ->
  EndBlock p < RequestedEndBlock (request c) ->
  exists q, r = Ok (Some q) /\
    ToBlock q = EndBlock p /\ FromBlock q = FromBlock bp /\
    (forall b, In b (Bridges q) <-> In b (Bridges bp) /\ Bridge_BlockNum b <= EndBlock p) /\
    (forall cl, In cl (Claims q) <-> In cl (Claims bp) /\ Claim_BlockNum cl <= EndBlock p).
Proof.
  intros Hrun Hcall Hreply Hlt.
  apply verify_trace in Hrun.
  destruct Hrun as [_ [[Hsame _]|(c' & bp' & Hbp & Hc' & Hreq & Hrep)]].
  - rewrite Hsame in Hcall. symmetry in Hcall. apply cons_neq in Hcall. contradiction.
  - inversion Hbp; subst bp'. rewrite Hc' in Hcall. inversion Hcall; subst c'.
    rewrite Hreply in Hrep. destruct Hrep as (root & x & ->).
    rewrite Hreq in Hlt.
    destruct (adjustBlockRange_spec
                (withProof (withExtraData bp x) (Root_Hash root) p (u32 (Root_Index root + 1)))
                (ToBlock bp) (EndBlock p))
      as (q & Hq & Hfrom & _ & _ & _ & _ & Hne).
    destruct Hne as (Hto & Hbr & Hcl); [lia|].
    exists q. rewrite Hq. split; [reflexivity|].
    split; [exact Hto|]. split; [exact Hfrom|].
    split.
    + intros b. rewrite Hbr. cbn [withProof withExtraData Bridges].
      rewrite filter_In, Z.leb_le. reflexivity.
    + intros cl. rewrite Hcl. cbn [withProof withExtraData Claims].
      rewrite filter_In, Z.leb_le. reflexivity.
Qed.

(** What a retry does.  When the last sent certificate is InError with the
    current certificate type, its retry count is below the largest int64 and
    the MaxL2Block limiter leaves the parameters as they are, the tick keeps
    the storage unchanged and
    - with a cached proof, it does not call the prover; when moreover the
      bridges and claims of the range can be read and the certificate holds
      its finalized L1 info tree root, it returns parameters with the
      certificate's FromBlock, ToBlock and CreatedAt, RetryCount + 1 and the
      cached proof;
    - without one, any parameters it returns come from one prover call that
      answered with a proof, carry that proof, the certificate's FromBlock
      and CreatedAt, RetryCount + 1, and end at the prover's end block. *)
Theorem resend_in_error (w w' : World Storage) r (cert : CertificateHeader)
  (cached : option AggchainProof) (opt : bool) :
  GetLastSentCertificateHeaderWithProofIfInError Storage a (storage w) = Ok (Some cert, cached) ->
  IsOptimisticModeOn Storage a = Ok opt ->
  IsInError (Status cert) = true ->
  CertType cert = (if opt then CertificateTypeOptimistic else CertificateTypeFEP) ->
  limiterIdle Storage a ->
  0 <= Header_RetryCount cert < max_int64 ->
  GetCertificateBuildParams Storage a w = (r, w') ->
  storage w' = storage w /\
  match cached with
  | Some pr =>
      proverCalls w' = proverCalls w /\
      forall bridges claims rootHash,
        GetBridgesAndClaims Storage a (Header_FromBlock cert) (Header_ToBlock cert)
          = Ok (bridges, claims) ->
        FinalizedL1InfoTreeRoot cert = Some rootHash ->
        exists bp, r = Ok (Some bp) /\
          FromBlock bp = Header_FromBlock cert /\ ToBlock bp = Header_ToBlock cert /\
          CreatedAt bp = Header_CreatedAt cert /\
          RetryCount bp = Header_RetryCount cert + 1 /\
          AggchainProof_ bp = Some pr
  | None =>
      forall bp, r = Ok (Some bp) ->
        exists c p, proverCalls w' = c :: proverCalls w /\ reply c = Ok p /\
          AggchainProof_ bp = Some p /\
          FromBlock bp = Header_FromBlock cert /\ ToBlock bp = EndBlock p /\
          CreatedAt bp = Header_CreatedAt cert /\
          RetryCount bp = Header_RetryCount cert + 1
  end.
Proof.
  intros Hread Hmode Herr Htype Hidle Hretry Hrun.
  assert (Hrc : int64 (Header_RetryCount cert + 1) = Header_RetryCount cert + 1).
  { apply int64_small. unfold max_int64 in Hretry. lia. }
  unfold GetCertificateBuildParams, getCertificateTypeToGenerate, bind, wrapErr, call, ret in Hrun.
  rewrite Hread, Hmode in Hrun.
  assert (Hrun' : resendInError Storage a cert cached
                    (if opt then CertificateTypeOptimistic else CertificateTypeFEP) w = (r, w')).
  { destruct opt; cbn beta iota in Hrun; rewrite Herr, Htype in Hrun; cbn in Hrun; exact Hrun. }
  clear Hrun. unfold resendInError, bind, call, ret in Hrun'.
  destruct (GetBridgesAndClaims Storage a (Header_FromBlock cert) (Header_ToBlock cert))
    as [[bridges claims]|e|] eqn:Ebc.
  - rewrite AdaptCertificate_idle in Hrun' by exact Hidle.
    destruct cached as [pr|].
    + destruct (FinalizedL1InfoTreeRoot cert) as [rootHash|] eqn:Eroot;
        inversion Hrun'; subst; (split; [reflexivity|]); (split; [reflexivity|]).
      * intros bridges' claims' rootHash' Hbc Hr. inversion Hbc; subst. inversion Hr; subst.
        eexists. split; [reflexivity|]. cbn. rewrite Hrc. repeat split; reflexivity.
      * intros bridges' claims' rootHash' _ Hr. discriminate Hr.
    + apply verify_trace in Hrun'.
      destruct Hrun' as [Hst [[_ Hno]|(c & bp0 & Hbp0 & Hc & _ & Hrep)]].
      * split; [exact Hst|]. intros bp Hr. exfalso. eapply Hno. exact Hr.
      * split; [exact Hst|]. intros bp Hr. inversion Hbp0; subst bp0. clear Hbp0.
        destruct (reply c) as [p|e|] eqn:Erep.
        -- destruct Hrep as (root & x & Hr').
           match type of Hr' with
           | context [adjustBlockRange ?b ?t ?e] =>
               destruct (adjustBlockRange_spec b t e)
                 as (q & Hq & Hfrom & Hretryq & Hcreated & Hproof & Heq & Hne)
           end.
           rewrite Hq in Hr'. rewrite Hr in Hr'. inversion Hr'; subst q.
           exists c, p. cbn in *. rewrite Hrc in Hretryq.
           repeat split; try assumption.
           destruct (Z.eq_dec (Header_ToBlock cert) (EndBlock p)) as [Hsame|Hdiff].
           ++ rewrite (Heq Hsame). cbn. exact Hsame.
           ++ apply Hne. exact Hdiff.
        -- destruct (errors_Is e errNoProofBuiltYet).
           ++ rewrite Hrep in Hr. discriminate Hr.
           ++ destruct Hrep as (e' & He'). rewrite He' in Hr. discriminate Hr.
        -- rewrite Hrep in Hr. discriminate Hr.
  - inversion Hrun'; subst. split; [reflexivity|].
    destruct cached; [split; [reflexivity|]|].
    + intros ? ? ? Hbc. discriminate Hbc.
    + intros bp Hbp. discriminate Hbp.
  - inversion Hrun'; subst. split; [reflexivity|].
    destruct cached; [split; [reflexivity|]|].
    + intros ? ? ? Hbc. discriminate Hbc.
    + intros bp Hbp. discriminate Hbp.
Qed.

End Traces.

Section Requests.
Variable Storage : Type.
Variable a : AggchainProverFlow Storage.

(** What is known once [GenerateAggchainProof] has talked to the prover. *)
Lemma GenerateAggchainProof_called (lp to : Z) (bp : CertificateBuildParams)
  (w w' : World Storage) r (c : ProverCall) :
  GenerateAggchainProof Storage a lp to bp w = (r, w') ->
  proverCalls w' = c :: proverCalls w ->
  exists proof leaf root gers ibes,
    GetFinalizedL1InfoTreeData Storage a = Ok (proof, leaf, root) /\
    getImportedBridgeExitsForProver Storage a (Claims bp) = Ok ibes /\
    request c = {| Req_LastProvenBlock := lp;
                   RequestedEndBlock := to;
                   L1InfoTreeRootHash := Root_Hash root;
                   L1InfoTreeLeaf := leaf;
                   L1InfoTreeMerkleProof := (Root_Hash root, proof);
                   GERLeavesWithBlockNumber := gers;
                   ImportedBridgeExitsWithBlockNumber := ibes |} /\
    optimistic c = CertificateType_eqb (CertificateType_ bp) CertificateTypeOptimistic /\
    forall p, reply c = Ok p ->
      exists x, r = Ok (p, root, withExtraData bp x) /\
                (optimistic c = false -> x = ExtraData bp).
Proof.
  unfold GenerateAggchainProof. intros H Hc.
  assert (Hquiet : forall (w0 : World Storage), proverCalls w0 = c :: proverCalls w0 -> False).
  { intros w0 Hw0. symmetry in Hw0. exact (cons_neq _ _ Hw0). }
  destruct (GetFinalizedL1InfoTreeData Storage a) as [[[proof leaf] root]|e|];
    cbn -[u64] in H; [|inversion H; subst; exfalso; eauto..].
  destruct (CheckIfClaimsArePartOfFinalizedL1InfoTree Storage a root (Claims bp));
    cbn -[u64] in H; [inversion H; subst; exfalso; eauto|].
  destruct (GetInjectedGERsProofs Storage a root (u64 (lp + 1)) to) as [gers|e|];
    cbn -[u64] in H; [|inversion H; subst; exfalso; eauto..].
  destruct (getImportedBridgeExitsForProver Storage a (Claims bp)) as [ibes|e|];
    cbn -[u64] in H; [|inversion H; subst; exfalso; eauto..].
  exists proof, leaf, root, gers, ibes. split; [reflexivity|]. split; [reflexivity|].
  match type of H with context [proverExchange _ false ?q _] => set (req := q) in * end.
  destruct (CertificateType_eqb (CertificateType_ bp) CertificateTypeOptimistic); cbn [negb] in H.
  - unfold generateOptimisticAggchainProof, bind, wrapErr, call, proverExchange, ret in H.
    destruct (GetNewLocalExitRoot Storage a bp) as [ler|e|];
      [|inversion H; subst; exfalso; eauto..].
    destruct (optimisticSigner_Sign Storage a req ler (Claims bp)) as [[sign extra]|e|];
      [|inversion H; subst; exfalso; eauto..].
    destruct (GenerateOptimisticAggchainProof_client Storage a req sign) as [p|e|] eqn:Er;
      inversion H; subst; clear H; cbn [proverCalls] in Hc;
      inversion Hc; subst c; cbn [request reply optimistic];
      (split; [reflexivity|]); (split; [reflexivity|]);
      intros p' Hp'; try discriminate Hp'.
    inversion Hp'; subst p'. exists extra. split; [reflexivity|]. intros Hf; discriminate Hf.
  - unfold bind, wrapErr, proverExchange, ret in H.
    destruct (GenerateAggchainProof_client Storage a req) as [p|e|] eqn:Er;
      inversion H; subst; clear H; cbn [proverCalls] in Hc;
      inversion Hc; subst c; cbn [request reply optimistic];
      (split; [reflexivity|]); (split; [reflexivity|]);
      intros p' Hp'; try discriminate Hp'.
    inversion Hp'; subst p'. exists (ExtraData bp).
    rewrite withExtraData_same. split; reflexivity.
Qed.

(** A tick that talked to the prover went through
    [verifyBuildParamsAndGenerateProof], on accepted parameters. *)
Lemma verify_called (bpo : option CertificateBuildParams) (w w' : World Storage) r
  (c : ProverCall) :
  verifyBuildParamsAndGenerateProof Storage a bpo w = (r, w') ->
  proverCalls w' = c :: proverCalls w ->
  exists bp r1, bpo = Some bp /\
    VerifyBuildParams Storage a (Some bp) = None /\
    GenerateAggchainProof Storage a
      (getLastProvenBlock Storage a (FromBlock bp) (LastSentCertificate bp))
      (ToBlock bp) bp w = (r1, w') /\
    forall q, r = Ok (Some q) ->
      exists p root x, r1 = Ok (p, root, withExtraData bp x) /\
        adjustBlockRange
          (withProof (withExtraData bp x) (Root_Hash root) p (u32 (Root_Index root + 1)))
          (ToBlock bp) (EndBlock p) = Ok q.
Proof.
  unfold verifyBuildParamsAndGenerateProof. intros H Hc.
  assert (Hquiet : proverCalls w = c :: proverCalls w -> False).
  { intros Hw0. symmetry in Hw0. exact (cons_neq _ _ Hw0). }
  destruct (VerifyBuildParams Storage a bpo) eqn:Ev.
  { inversion H; subst. contradiction. }
  destruct bpo as [bp|]; [|inversion H; subst; contradiction].
  destruct (GenerateAggchainProof Storage a _ (ToBlock bp) bp w) as [r1 w1] eqn:Eg.
  assert (w1 = w').
  { destruct r1 as [[[p root] bp']|e|]; [| |inversion H; reflexivity].
    - destruct (adjustBlockRange _ _ _) in H; inversion H; reflexivity.
    - destruct (errors_Is e errNoProofBuiltYet); inversion H; reflexivity. }
  subst w1. exists bp, r1. repeat split; try assumption.
  intros q Hq. subst r.
  destruct (GenerateAggchainProof_called _ _ _ _ _ _ _ Eg Hc)
    as (proof & leaf & root & gers & ibes & _ & _ & _ & _ & Hreply).
  destruct r1 as [[[p root'] bp']|e|].
  - apply GenerateAggchainProof_trace in Eg.
    destruct Eg as [_ [[Hsame _]|(c' & Hc' & _ & _ & Hrep)]].
    { rewrite Hsame in Hc. contradiction. }
    rewrite Hc' in Hc. inversion Hc; subst c'.
    destruct (reply c) as [p0|e0|]; [|destruct Hrep as (e' & He' & _); discriminate He'|discriminate Hrep].
    destruct Hrep as (root0 & x & Hr). inversion Hr; subst p0 root0 bp'.
    exists p, root', x. split; [reflexivity|].
    cbn [withProof withExtraData ToBlock] in H |- *.
    destruct (adjustBlockRange _ _ _) in H |- *; inversion H; reflexivity.
  - destruct (errors_Is e errNoProofBuiltYet); discriminate H.
  - discriminate H.
Qed.

Lemma withFromBlock_same (bp : CertificateBuildParams) : withFromBlock bp (FromBlock bp) = bp.
Proof. destruct bp; reflexivity. Qed.

Lemma tick_called (w w' : World Storage) r (c : ProverCall) :
  GetCertificateBuildParams Storage a w = (r, w') ->
  proverCalls w' = c :: proverCalls w ->
  exists bpo, handedToVerification Storage a w bpo /\
    verifyBuildParamsAndGenerateProof Storage a bpo w = (r, w').
Proof.
  intros H Hc.
  assert (Hquiet : proverCalls w = c :: proverCalls w -> False).
  { intros Hw0. symmetry in Hw0. exact (cons_neq _ _ Hw0). }
  unfold GetCertificateBuildParams, getCertificateTypeToGenerate, bind, wrapErr, call, ret in H.
  destruct (GetLastSentCertificateHeaderWithProofIfInError Storage a (storage w))
    as [[lastSentCert cached]|e|] eqn:Eread;
    [|inversion H; subst; contradiction..].
  destruct (IsOptimisticModeOn Storage a) as [opt|e|] eqn:Emode;
    [|inversion H; subst; contradiction..].
  set (typeCert := if opt then CertificateTypeOptimistic else CertificateTypeFEP) in *.
  assert (Hnew : buildNew Storage a lastSentCert typeCert w = (r, w') ->
            exists bpo, handedToVerification Storage a w bpo /\
              verifyBuildParamsAndGenerateProof Storage a bpo w = (r, w')).
  { intros Hb. unfold buildNew, bind in Hb.
    destruct (GetCertificateBuildParamsInternal Storage a typeCert) as [proposed|e|] eqn:Eint.
    - destruct (AdaptCertificate Storage a proposed w) as [r2 w2] eqn:Ea.
      pose proof (AdaptCertificate_quiet Storage a _ _ _ _ Ea) as ->.
      destruct r2 as [[bp|]|e|]; try (inversion Hb; subst; contradiction).
      eexists. split; [|].
      + right. exists lastSentCert, cached, opt, proposed, bp.
        split; [exact Eread|]. split; [exact Emode|]. split; [exact Eint|].
        split; [rewrite Ea; reflexivity|reflexivity].
      + destruct (negb (FromBlock bp =? u64 (getLastProvenBlock Storage a (FromBlock bp) lastSentCert + 1))) eqn:En.
        * exact Hb.
        * apply negb_false_iff, Z.eqb_eq in En. rewrite <- En.
          rewrite withFromBlock_same. exact Hb.
    - destruct (errors_Is e errNoNewBlocks); inversion Hb; subst; contradiction.
    - inversion Hb; subst; contradiction. }
  assert (Hrun : (match lastSentCert with
                  | Some cert =>
                      if IsInError (Status cert) && CertificateType_eqb (CertType cert) typeCert
                      then resendInError Storage a cert cached typeCert
                      else buildNew Storage a lastSentCert typeCert
                  | None => buildNew Storage a lastSentCert typeCert
                  end) w = (r, w')).
  { subst typeCert. destruct opt; exact H. }
  clear H.
  destruct lastSentCert as [cert|]; [|apply Hnew; exact Hrun].
  destruct (IsInError (Status cert) && CertificateType_eqb (CertType cert) typeCert) eqn:Eretry;
    [|apply Hnew; exact Hrun].
  unfold resendInError, bind, call, ret in Hrun.
  destruct (GetBridgesAndClaims Storage a (Header_FromBlock cert) (Header_ToBlock cert))
    as [[bridges claims]|e|] eqn:Ebc;
    [|inversion Hrun; subst; contradiction..].
  match type of Hrun with
  | context [AdaptCertificate Storage a ?b ?w0] =>
      destruct (AdaptCertificate Storage a b w0) as [r2 w2] eqn:Ea
  end.
  pose proof (AdaptCertificate_quiet Storage a _ _ _ _ Ea) as ->.
  destruct r2 as [bpo|e|]; [|inversion Hrun; subst; contradiction..].
  destruct cached as [pr|].
  - destruct bpo as [bp|]; [destruct (FinalizedL1InfoTreeRoot cert)|];
      inversion Hrun; subst; contradiction.
  - exists bpo. split; [|exact Hrun].
    left. exists cert, opt, bridges, claims.
    split; [exact Eread|]. split; [exact Emode|]. split; [exact Eretry|].
    split; [exact Ebc|]. fold typeCert. rewrite Ea. reflexivity.
Qed.

Lemma getLastProvenBlock_ge (fromBlock : Z) (lastCert : option CertificateHeader) :
  StartL2Block Storage a <= getLastProvenBlock Storage a fromBlock lastCert.
Proof.
  unfold getLastProvenBlock.
  destruct (fromBlock =? 0); [lia|].
  destruct lastCert as [cert|].
  - destruct (Header_ToBlock cert <? StartL2Block Storage a); [lia|].
    destruct (u64 (fromBlock - 1) <? StartL2Block Storage a) eqn:E; [lia|].
    apply Z.ltb_ge in E. exact E.
  - destruct (u64 (fromBlock - 1) <? StartL2Block Storage a) eqn:E; [lia|].
    apply Z.ltb_ge in E. exact E.
Qed.

(** Realigning fromBlock on the last proven block does not move the last
    proven block. *)
Lemma getLastProvenBlock_realigned (fromBlock : Z) (lastCert : option CertificateHeader) :
  0 <= fromBlock < 2 ^ 64 -> 0 <= StartL2Block Storage a < 2 ^ 64 - 1 ->
  getLastProvenBlock Storage a
    (u64 (getLastProvenBlock Storage a fromBlock lastCert + 1)) lastCert
  = getLastProvenBlock Storage a fromBlock lastCert.
Proof.
  intros Hf Hs.
  assert (Hlp : StartL2Block Storage a <= getLastProvenBlock Storage a fromBlock lastCert
                < 2 ^ 64 - 1).
  { split; [apply getLastProvenBlock_ge|].
    unfold getLastProvenBlock.
    destruct (fromBlock =? 0) eqn:E0; [lia|]. apply Z.eqb_neq in E0.
    rewrite (u64_small (fromBlock - 1)) by lia.
    destruct lastCert as [cert|];
      repeat match goal with
             | |- context [if ?b then _ else _] => destruct b
             end; lia. }
  set (lp := getLastProvenBlock Storage a fromBlock lastCert) in *.
  assert (Hcase : lp = StartL2Block Storage a \/
                  (match lastCert with
                   | Some cert => Header_ToBlock cert <? StartL2Block Storage a
                   | None => false
                   end = false)).
  { subst lp. unfold getLastProvenBlock.
    destruct (fromBlock =? 0); [left; reflexivity|].
    destruct lastCert as [cert|]; [|right; reflexivity].
    destruct (Header_ToBlock cert <? StartL2Block Storage a); [left|right]; reflexivity. }
  unfold getLastProvenBlock at 1.
  rewrite (u64_small (lp + 1)) by lia.
  destruct (lp + 1 =? 0) eqn:E0; [apply Z.eqb_eq in E0; lia|].
  replace (lp + 1 - 1) with lp by lia. rewrite (u64_small lp) by lia.
  destruct Hcase as [Heq|Hno].
  - destruct lastCert as [cert|].
    + destruct (Header_ToBlock cert <? StartL2Block Storage a); [lia|].
      destruct (lp <? StartL2Block Storage a); lia.
    + destruct (lp <? StartL2Block Storage a); lia.
  - rewrite Hno.
    destruct (lp <? StartL2Block Storage a) eqn:E; [apply Z.ltb_lt in E; lia|reflexivity].
Qed.

(** The flow never asks the prover for a proof that starts before the start
    L2 block: whatever the path of the tick, the request says that the last
    proven block is at or above it. *)
Theorem prover_request_not_before_start_block (w w' : World Storage) r (c : ProverCall) :
  GetCertificateBuildParams Storage a w = (r, w') ->
  proverCalls w' = c :: proverCalls w ->
  StartL2Block Storage a <= Req_LastProvenBlock (request c).
Proof.
  intros Hrun Hc.
  destruct (tick_called w w' r c Hrun Hc) as (bpo & _ & Hv).
  destruct (verify_called bpo w w' r c Hv Hc) as (bp & r1 & _ & _ & Hg & _).
  destruct (GenerateAggchainProof_called _ _ _ _ _ _ _ Hg Hc)
    as (proof & leaf & root & gers & ibes & _ & _ & Hreq & _).
  rewrite Hreq. cbn [Req_LastProvenBlock]. apply getLastProvenBlock_ge.
Qed.

Lemma getImportedBridgeExitsForProver_blocks (claims : list Claim) :
  forall l, getImportedBridgeExitsForProver Storage a claims = Ok l ->
    map BlockNumber l = map Claim_BlockNum claims.
Proof.
  induction claims as [|claim rest IH]; intros l H; cbn [getImportedBridgeExitsForProver] in H.
  - inversion H. reflexivity.
  - destruct (ConvertClaimToImportedBridgeExit Storage a claim) as [ibe|e|];
      try discriminate H.
    destruct (getImportedBridgeExitsForProver Storage a rest) as [l'|e|];
      try discriminate H.
    inversion H; subst l. cbn [map BlockNumber]. rewrite (IH l' eq_refl). reflexivity.
Qed.

(** The list sent to the prover has one imported bridge exit per claim, in
    the order of the claims, each with the block number of its claim; one
    claim that cannot be converted fails the whole conversion. *)
Theorem imported_bridge_exits_follow_claims (claims : list Claim)
  (l : list ImportedBridgeExitWithBlockNumber) :
  getImportedBridgeExitsForProver Storage a claims = Ok l <->
  Forall2 (fun claim ibe =>
             ConvertClaimToImportedBridgeExit Storage a claim = Ok (ImportedBridgeExit ibe) /\
             BlockNumber ibe = Claim_BlockNum claim) claims l.
Proof.
  revert l. induction claims as [|claim rest IH]; intros l; cbn [getImportedBridgeExitsForProver].
  - split.
    + intros H. inversion H. constructor.
    + intros H. inversion H. reflexivity.
  - destruct (ConvertClaimToImportedBridgeExit Storage a claim) as [ibe|e|] eqn:Ec.
    + destruct (getImportedBridgeExitsForProver Storage a rest) as [l'|e|] eqn:Er.
      * split.
        -- intros H. inversion H; subst l. constructor; [split; [exact Ec|reflexivity]|].
           apply IH. reflexivity.
        -- intros H. inversion H as [|cl i rest' l'' [Hi Hb] Htl]; subst.
           apply IH in Htl. inversion Htl; subst l''.
           destruct i as [x n]. cbn in Hi, Hb. subst n.
           rewrite Ec in Hi. inversion Hi; subst x. reflexivity.
      * split; [discriminate|].
        intros H. inversion H as [|cl i rest' l'' _ Htl]; subst.
        apply IH in Htl. discriminate Htl.
      * split; [discriminate|].
        intros H. inversion H as [|cl i rest' l'' _ Htl]; subst.
        apply IH in Htl. discriminate Htl.
    + split; [discriminate|].
      intros H. inversion H as [|cl i rest' l'' [Hi _] _]; subst.
      rewrite Ec in Hi. discriminate Hi.
    + split; [discriminate|].
      intros H. inversion H as [|cl i rest' l'' [Hi _] _]; subst.
      rewrite Ec in Hi. discriminate Hi.
Qed.

(** When the base flow reports that there are no new blocks, in a tick that
    is not a retry, the tick ends with nothing to send and no error, and the
    prover is not called. *)
Theorem no_new_blocks_emits_nothing (w : World Storage)
  (lastSentCert : option CertificateHeader) (cached : option AggchainProof)
  (opt : bool) (e : error) :
  GetLastSentCertificateHeaderWithProofIfInError Storage a (storage w)
    = Ok (lastSentCert, cached) ->
  IsOptimisticModeOn Storage a = Ok opt ->
  notARetry lastSentCert (if opt then CertificateTypeOptimistic else CertificateTypeFEP) ->
  GetCertificateBuildParamsInternal Storage a
    (if opt then CertificateTypeOptimistic else CertificateTypeFEP) = Fail e ->
  errors_Is e errNoNewBlocks = true ->
  GetCertificateBuildParams Storage a w = (Ok None, w).
Proof.
  intros Hread Hmode Hnot Hint His.
  unfold GetCertificateBuildParams, getCertificateTypeToGenerate, bind, wrapErr, call, ret.
  rewrite Hread, Hmode.
  assert (Hnew : buildNew Storage a lastSentCert
                   (if opt then CertificateTypeOptimistic else CertificateTypeFEP) w
                 = (Ok None, w)).
  { unfold buildNew. rewrite Hint, His. reflexivity. }
  unfold notARetry in Hnot.
  destruct opt; cbn beta iota; destruct lastSentCert as [cert|];
    try rewrite Hnot; exact Hnew.
Qed.

(** A new certificate and the last proven block: in a tick that is not a
    retry, with the limiter idle, the proposal of the base flow is handed to
    verification with its FromBlock moved to one block after the last proven
    block computed from the certificate the storage returned, and the
    parameters that come back start there.  The request to the prover
    carries the end block of the proposal and the last proven block computed
    again, from that FromBlock and the certificate inside the proposal.
    When the proposal carries the certificate the storage returned, and the
    blocks are below 2^64 - 1, the two computations agree: the request names
    the block right before the first block of the parameters. *)
Theorem new_certificate_follows_last_proven_block (w w' : World Storage) r (c : ProverCall)
  (lastSentCert : option CertificateHeader) (cached : option AggchainProof)
  (opt : bool) (proposed : CertificateBuildParams) :
  GetLastSentCertificateHeaderWithProofIfInError Storage a (storage w)
    = Ok (lastSentCert, cached) ->
  IsOptimisticModeOn Storage a = Ok opt ->
  notARetry lastSentCert (if opt then CertificateTypeOptimistic else CertificateTypeFEP) ->
  GetCertificateBuildParamsInternal Storage a
    (if opt then CertificateTypeOptimistic else CertificateTypeFEP) = Ok (Some proposed) ->
  limiterIdle Storage a ->
  GetCertificateBuildParams Storage a w = (r, w') ->
  proverCalls w' = c :: proverCalls w ->
  let lastProvenBlock := getLastProvenBlock Storage a (FromBlock proposed) lastSentCert in
  let handed := withFromBlock proposed (u64 (lastProvenBlock + 1)) in
  VerifyBuildParams Storage a (Some handed) = None /\
  (forall q, r = Ok (Some q) -> FromBlock q = u64 (lastProvenBlock + 1)) /\
  RequestedEndBlock (request c) = ToBlock proposed /\
  Req_LastProvenBlock (request c)
    = getLastProvenBlock Storage a (u64 (lastProvenBlock + 1)) (LastSentCertificate proposed) /\
  (LastSentCertificate proposed = lastSentCert ->
   0 <= FromBlock proposed < 2 ^ 64 ->
   0 <= StartL2Block Storage a < 2 ^ 64 - 1 ->
   Req_LastProvenBlock (request c) = lastProvenBlock /\
   FromBlock handed = Req_LastProvenBlock (request c) + 1).
Proof.
  intros Hread Hmode Hnot Hint Hidle Hrun Hc lastProvenBlock handed.
  destruct (tick_called w w' r c Hrun Hc) as (bpo & Hhand & Hv).
  assert (Hbpo : bpo = Some handed).
  { destruct Hhand as [(cert & opt' & bridges & claims & Hr' & Hm' & Hretry & _)
                      |(lsc & cached' & opt' & proposed' & bp & Hr' & Hm' & Hint' & Had & Hb)].
    - assert (Hl : lastSentCert = Some cert) by congruence.
      assert (Ho : opt' = opt) by congruence.
      unfold notARetry in Hnot. rewrite Hl in Hnot. rewrite Ho in Hretry.
      rewrite Hnot in Hretry. discriminate Hretry.
    - assert (Hl : lsc = lastSentCert) by congruence.
      assert (Ho : opt' = opt) by congruence.
      rewrite Ho, Hint in Hint'.
      assert (Hp : proposed' = Some proposed) by congruence.
      rewrite Hl in Hb. rewrite Hp in Had. clear Hl Ho Hp.
      rewrite (AdaptCertificate_idle Storage a _ w Hidle) in Had.
      cbn [fst] in Had. inversion Had; subst bp. exact Hb. }
  destruct (verify_called bpo w w' r c Hv Hc) as (bp & r1 & Hbp & Hok & Hg & Hret).
  rewrite Hbpo in Hbp. inversion Hbp; subst bp. clear Hbp.
  destruct (GenerateAggchainProof_called _ _ _ _ _ _ _ Hg Hc)
    as (proof & leaf & root & gers & ibes & _ & _ & Hreq & _).
  subst handed.
  cbn [withFromBlock FromBlock ToBlock LastSentCertificate] in Hreq |- *.
  split; [exact Hok|].
  split.
  { intros q Hq. destruct (Hret q Hq) as (p & root' & x & _ & Hadj).
    match type of Hadj with
    | adjustBlockRange ?b ?t ?e = _ =>
        destruct (adjustBlockRange_spec b t e) as (q' & Hq' & Hfrom & _)
    end.
    rewrite Hq' in Hadj. inversion Hadj; subst q'. rewrite Hfrom. reflexivity. }
  rewrite Hreq. cbn [Req_LastProvenBlock RequestedEndBlock].
  split; [reflexivity|]. split; [reflexivity|].
  intros Hlast Hfrom Hstart. rewrite Hlast.
  fold lastProvenBlock.
  assert (Hre : getLastProvenBlock Storage a (u64 (lastProvenBlock + 1)) lastSentCert
                = lastProvenBlock).
  { exact (getLastProvenBlock_realigned _ _ Hfrom Hstart). }
  rewrite Hre. split; [reflexivity|].
  pose proof (getLastProvenBlock_ge (FromBlock proposed) lastSentCert) as Hge.
  assert (Hlt : lastProvenBlock < 2 ^ 64 - 1).
  { subst lastProvenBlock. unfold getLastProvenBlock.
    destruct (FromBlock proposed =? 0) eqn:E0; [lia|]. apply Z.eqb_neq in E0.
    rewrite (u64_small (FromBlock proposed - 1)) by lia.
    destruct lastSentCert as [cert|];
      repeat match goal with
             | |- context [if ?b then _ else _] => destruct b
             end; lia. }
  fold lastProvenBlock in Hge. apply u64_small. lia.
Qed.

(** When the prover proves exactly the range it was asked for, the tick
    returns parameters that carry the prover's proof, end at the requested
    block, name the L1 info root that was sent to the prover with its leaf
    count, and hold one claim per imported bridge exit of the request, with
    the same block numbers. *)
Theorem full_range_proof_is_attached (w w' : World Storage) r (c : ProverCall)
  (p : AggchainProof) :
  GetCertificateBuildParams Storage a w = (r, w') ->
  proverCalls w' = c :: proverCalls w ->
  reply c = Ok p ->
  EndBlock p = RequestedEndBlock (request c) ->
  exists q proof leaf root,
    r = Ok (Some q) /\
    GetFinalizedL1InfoTreeData Storage a = Ok (proof, leaf, root) /\
    AggchainProof_ q = Some p /\
    ToBlock q = EndBlock p /\
    Req_LastProvenBlock (request c)
      = getLastProvenBlock Storage a (FromBlock q) (LastSentCertificate q) /\
    L1InfoTreeRootFromWhichToProve q = L1InfoTreeRootHash (request c) /\
    L1InfoTreeRootFromWhichToProve q = Root_Hash root /\
    L1InfoTreeLeafCount q = u32 (Root_Index root + 1) /\
    map BlockNumber (ImportedBridgeExitsWithBlockNumber (request c))
      = map Claim_BlockNum (Claims q).
Proof.
  intros Hrun Hc Hreply Hfull.
  destruct (tick_called w w' r c Hrun Hc) as (bpo & _ & Hv).
  destruct (verify_called bpo w w' r c Hv Hc) as (bp & r1 & Hbp & _ & Hg & _).
  subst bpo.
  destruct (GenerateAggchainProof_called _ _ _ _ _ _ _ Hg Hc)
    as (proof & leaf & root & gers & ibes & Hdata & Hibes & Hreq & _ & Hrep).
  destruct (Hrep p Hreply) as (x & Hr1 & _).
  unfold verifyBuildParamsAndGenerateProof in Hv.
  destruct (VerifyBuildParams Storage a (Some bp)); [inversion Hv; subst;
    symmetry in Hc; apply cons_neq in Hc; contradiction|].
  rewrite Hg, Hr1 in Hv.
  rewrite Hreq in Hfull. cbn [RequestedEndBlock] in Hfull.
  unfold adjustBlockRange in Hv. cbn [withProof withExtraData ToBlock] in Hv.
  rewrite Hfull, Z.eqb_refl in Hv. cbn [negb] in Hv.
  apply (f_equal fst) in Hv. cbn [fst] in Hv. rewrite <- Hv.
  eexists. exists proof, leaf, root. split; [reflexivity|].
  rewrite Hreq.
  cbn [withProof withExtraData AggchainProof_ ToBlock FromBlock LastSentCertificate
       L1InfoTreeRootFromWhichToProve L1InfoTreeLeafCount Claims
       Req_LastProvenBlock L1InfoTreeRootHash ImportedBridgeExitsWithBlockNumber].
  repeat split; try reflexivity; try assumption.
  - symmetry. exact Hfull.
  - exact (getImportedBridgeExitsForProver_blocks _ _ Hibes).
Qed.

(** Two nil pointers the tick does not guard against: an InError
    certificate that comes with a cached proof but without its finalized L1
    info tree root, and a base flow that proposes no parameters without
    reporting an error.  Both end the tick in a panic, before the prover is
    asked. *)
Theorem tick_panics_on_nil (w : World Storage) :
  (forall cert pr opt bridges claims,
     GetLastSentCertificateHeaderWithProofIfInError Storage a (storage w)
       = Ok (Some cert, Some pr) ->
     IsOptimisticModeOn Storage a = Ok opt ->
     IsInError (Status cert) && CertificateType_eqb (CertType cert)
       (if opt then CertificateTypeOptimistic else CertificateTypeFEP) = true ->
     GetBridgesAndClaims Storage a (Header_FromBlock cert) (Header_ToBlock cert)
       = Ok (bridges, claims) ->
     limiterIdle Storage a ->
     FinalizedL1InfoTreeRoot cert = None ->
     GetCertificateBuildParams Storage a w = (Panic, w)) /\
  (forall lastSentCert cached opt,
     GetLastSentCertificateHeaderWithProofIfInError Storage a (storage w)
       = Ok (lastSentCert, cached) ->
     IsOptimisticModeOn Storage a = Ok opt ->
     notARetry lastSentCert (if opt then CertificateTypeOptimistic else CertificateTypeFEP) ->
     GetCertificateBuildParamsInternal Storage a
       (if opt then CertificateTypeOptimistic else CertificateTypeFEP) = Ok None ->
     limiterIdle Storage a ->
     GetCertificateBuildParams Storage a w = (Panic, w)).
Proof.
  split.
  - intros cert pr opt bridges claims Hread Hmode Hretry Hbc Hidle Hroot.
    unfold GetCertificateBuildParams, getCertificateTypeToGenerate, bind, wrapErr, call, ret.
    rewrite Hread, Hmode.
    assert (Hresend : resendInError Storage a cert (Some pr)
                        (if opt then CertificateTypeOptimistic else CertificateTypeFEP) w
                      = (Panic, w)).
    { unfold resendInError, bind, call. rewrite Hbc.
      rewrite (AdaptCertificate_idle Storage a _ w Hidle). rewrite Hroot. reflexivity. }
    destruct opt; cbn beta iota in Hretry |- *; rewrite Hretry; exact Hresend.
  - intros lastSentCert cached opt Hread Hmode Hnot Hint Hidle.
    unfold GetCertificateBuildParams, getCertificateTypeToGenerate, bind, wrapErr, call, ret.
    rewrite Hread, Hmode.
    assert (Hnew : buildNew Storage a lastSentCert
                     (if opt then CertificateTypeOptimistic else CertificateTypeFEP) w
                   = (Panic, w)).
    { unfold buildNew, bind. rewrite Hint.
      rewrite (AdaptCertificate_idle Storage a None w Hidle). reflexivity. }
    unfold notARetry in Hnot.
    destruct opt; cbn beta iota; destruct lastSentCert as [cert|];
      try rewrite Hnot; exact Hnew.
Qed.

End Requests.

Example scenario5_retry_full_range :
  exists bp w',
    GetCertificateBuildParams unit retryFlow emptyWorld = (Ok (Some bp), w') /\
    FromBlock bp = 1 /\ ToBlock bp = 10 /\ RetryCount bp = 1 /\
    CreatedAt bp = Header_CreatedAt inErrorHeader /\
    AggchainProof_ bp = Some (proofUpTo 0 10) /\
    List.length (proverCalls w') = 1%nat.
Proof. eexists. eexists. split; [vm_compute; reflexivity|]. repeat split. Qed.

Example scenario4_shrunk_range :
  exists bp w',
    GetCertificateBuildParams unit shrinkFlow emptyWorld = (Ok (Some bp), w') /\
    FromBlock bp = 6 /\ ToBlock bp = 8 /\
    Bridges bp = [{| Bridge_BlockNum := 6; Bridge_Content := 1 |}] /\
    Claims bp = [{| Claim_BlockNum := 8; Claim_Content := 1 |}].
Proof. eexists. eexists. split; [vm_compute; reflexivity|]. repeat split. Qed.

Lemma getLastProvenBlock_rule_witness :
  ((10 = 0 \/
    (exists c, None = Some c /\ Header_ToBlock c < StartL2Block unit retryFlow) \/
    10 - 1 < StartL2Block unit retryFlow) ->
   getLastProvenBlock unit retryFlow 10 None = StartL2Block unit retryFlow) /\
  (~ (10 = 0 \/
      (exists c, None = Some c /\ Header_ToBlock c < StartL2Block unit retryFlow) \/
      10 - 1 < StartL2Block unit retryFlow) ->
   getLastProvenBlock unit retryFlow 10 None = 10 - 1).
Proof. apply (getLastProvenBlock_rule unit retryFlow 10 None). lia. Defined.

Lemma no_proof_built_yet_emits_nothing_witness :
  fst (GetCertificateBuildParams unit noProofFlow emptyWorld) = Ok None /\
  storage (snd (GetCertificateBuildParams unit noProofFlow emptyWorld)) = storage emptyWorld.
Proof.
  eapply (no_proof_built_yet_emits_nothing unit noProofFlow emptyWorld).
  - apply surjective_pairing.
  - vm_compute. reflexivity.
  - reflexivity.
  - reflexivity.
Defined.

Lemma prover_shorter_range_shrinks_witness :
  exists q,
    fst (verifyBuildParamsAndGenerateProof unit shrinkFlow (Some proposedParams) emptyWorld)
      = Ok (Some q) /\
    ToBlock q = EndBlock (proofUpTo 5 8) /\ FromBlock q = FromBlock proposedParams /\
    (forall b, In b (Bridges q) <->
       In b (Bridges proposedParams) /\ Bridge_BlockNum b <= EndBlock (proofUpTo 5 8)) /\
    (forall cl, In cl (Claims q) <->
       In cl (Claims proposedParams) /\ Claim_BlockNum cl <= EndBlock (proofUpTo 5 8)).
Proof.
  eapply (prover_shorter_range_shrinks unit shrinkFlow proposedParams emptyWorld).
  - apply surjective_pairing.
  - vm_compute. reflexivity.
  - reflexivity.
  - vm_compute. reflexivity.
Defined.

Lemma resend_in_error_witness :
  storage (snd (GetCertificateBuildParams unit retryFlow emptyWorld)) = storage emptyWorld /\
  forall bp, fst (GetCertificateBuildParams unit retryFlow emptyWorld) = Ok (Some bp) ->
    exists c p,
      proverCalls (snd (GetCertificateBuildParams unit retryFlow emptyWorld))
        = c :: proverCalls emptyWorld /\
      reply c = Ok p /\ AggchainProof_ bp = Some p /\
      FromBlock bp = Header_FromBlock inErrorHeader /\ ToBlock bp = EndBlock p /\
      CreatedAt bp = Header_CreatedAt inErrorHeader /\
      RetryCount bp = Header_RetryCount inErrorHeader + 1.
Proof.
  apply (resend_in_error unit retryFlow emptyWorld _ _ inErrorHeader None false).
  - reflexivity.
  - reflexivity.
  - reflexivity.
  - reflexivity.
  - exact I.
  - unfold max_int64. cbn. lia.
  - apply surjective_pairing.
Defined.

(** C1, at the failing input: the InError certificate covers [1, 10] and no
    proof is cached beside it; the prover is asked for the blocks up to 10
    and proves up to block 8.  The tick returns parameters for [1, 8], with
    the bridges and claims above block 8 dropped, where the documentation of
    GetCertificateBuildParams says that the exact same certificate is sent
    again.  The sibling path does so: with the same proof cached beside the
    certificate, the parameters cover [1, 10]. *)
Theorem retry_without_cached_proof_shrinks_range :
  Header_FromBlock inErrorHeader = 1 /\ Header_ToBlock inErrorHeader = 10 /\
  (exists bp c,
     GetCertificateBuildParams unit retryShortFlow emptyWorld
       = (Ok (Some bp), {| storage := tt; proverCalls := [c] |}) /\
     RequestedEndBlock (request c) = 10 /\ reply c = Ok (proofUpTo 0 8) /\
     FromBlock bp = 1 /\ ToBlock bp = 8 /\
     RetryCount bp = 1 /\ CreatedAt bp = Header_CreatedAt inErrorHeader /\
     Bridges bp = [{| Bridge_BlockNum := 6; Bridge_Content := 1 |}] /\
     Claims bp = [{| Claim_BlockNum := 8; Claim_Content := 1 |}]) /\
  (exists bp,
     GetCertificateBuildParams unit retryCachedFlow emptyWorld = (Ok (Some bp), emptyWorld) /\
     FromBlock bp = 1 /\ ToBlock bp = 10 /\
     RetryCount bp = 1 /\ CreatedAt bp = Header_CreatedAt inErrorHeader /\
     AggchainProof_ bp = Some (proofUpTo 0 8) /\
     Bridges bp = scenarioBridges /\ Claims bp = scenarioClaims).
Proof.
  split; [reflexivity|]. split; [reflexivity|]. split.
  - eexists. eexists. split; [vm_compute; reflexivity|]. repeat split.
  - eexists. split; [vm_compute; reflexivity|]. repeat split.
Qed.

(** The range of a retry is not kept in general: the same input, read on
    the statement that a retry keeps the range. *)
Lemma retry_range_can_shrink : ~ retryKeepsRange retryShortFlow emptyWorld.
Proof.
  intros H.
  destruct (GetCertificateBuildParams unit retryShortFlow emptyWorld) as [r w'] eqn:E.
  vm_compute in E. inversion E as [[Hr Hw]]. clear E.
  unfold retryKeepsRange in H.
  match type of Hr with
  | Ok (Some ?bp) = _ =>
      specialize (H inErrorHeader None CertificateTypeFEP bp)
  end.
  destruct H as [_ Hto]; try reflexivity.
  vm_compute in Hto. discriminate Hto.
Qed.

Lemma prover_request_not_before_start_block_witness :
  exists c,
    proverCalls (snd (GetCertificateBuildParams unit newCertFlow emptyWorld))
      = c :: proverCalls emptyWorld /\
    StartL2Block unit newCertFlow <= Req_LastProvenBlock (request c).
Proof.
  eexists. split; [vm_compute; reflexivity|].
  eapply (prover_request_not_before_start_block unit newCertFlow emptyWorld).
  - apply surjective_pairing.
  - vm_compute. reflexivity.
Defined.

Lemma no_new_blocks_emits_nothing_witness :
  GetCertificateBuildParams unit noNewBlocksFlow emptyWorld = (Ok None, emptyWorld).
Proof.
  apply (no_new_blocks_emits_nothing unit noNewBlocksFlow emptyWorld
           (Some settledHeader) None false
           (Wrapped "error getting block range" errNoNewBlocks)).
  - reflexivity.
  - reflexivity.
  - reflexivity.
  - reflexivity.
  - reflexivity.
Defined.

Lemma new_certificate_follows_last_proven_block_witness :
  exists c,
    proverCalls (snd (GetCertificateBuildParams unit newCertFlow emptyWorld))
      = c :: proverCalls emptyWorld /\
    Req_LastProvenBlock (request c) = 5 /\
    RequestedEndBlock (request c) = 10 /\
    forall q, fst (GetCertificateBuildParams unit newCertFlow emptyWorld) = Ok (Some q) ->
      FromBlock q = 6.
Proof.
  eexists. split; [vm_compute; reflexivity|].
  destruct (new_certificate_follows_last_proven_block unit newCertFlow emptyWorld
              (snd (GetCertificateBuildParams unit newCertFlow emptyWorld))
              (fst (GetCertificateBuildParams unit newCertFlow emptyWorld))
              _ (Some settledHeader) None false proposedParams
              eq_refl eq_refl eq_refl eq_refl I (surjective_pairing _) eq_refl)
    as (_ & Hfrom & Hend & Hreq & _).
  split; [exact Hreq|]. split; [exact Hend|exact Hfrom].
Defined.

Lemma full_range_proof_is_attached_witness :
  exists c,
    proverCalls (snd (GetCertificateBuildParams unit newCertFlow emptyWorld))
      = c :: proverCalls emptyWorld /\
    exists q proof leaf root,
      fst (GetCertificateBuildParams unit newCertFlow emptyWorld) = Ok (Some q) /\
      GetFinalizedL1InfoTreeData unit newCertFlow = Ok (proof, leaf, root) /\
      AggchainProof_ q = Some (proofUpTo 5 10) /\
      ToBlock q = EndBlock (proofUpTo 5 10) /\
      Req_LastProvenBlock (request c)
        = getLastProvenBlock unit newCertFlow (FromBlock q) (LastSentCertificate q) /\
      L1InfoTreeRootFromWhichToProve q = L1InfoTreeRootHash (request c) /\
      L1InfoTreeRootFromWhichToProve q = Root_Hash root /\
      L1InfoTreeLeafCount q = u32 (Root_Index root + 1) /\
      map BlockNumber (ImportedBridgeExitsWithBlockNumber (request c))
        = map Claim_BlockNum (Claims q).
Proof.
  eexists. split; [vm_compute; reflexivity|].
  eapply (full_range_proof_is_attached unit newCertFlow emptyWorld).
  - apply surjective_pairing.
  - vm_compute. reflexivity.
  - reflexivity.
  - reflexivity.
Defined.

Lemma tick_panics_on_nil_witness :
  GetCertificateBuildParams unit rootlessFlow emptyWorld = (Panic, emptyWorld).
Proof.
  refine (proj1 (tick_panics_on_nil unit rootlessFlow emptyWorld)
            rootlessHeader (proofUpTo 0 10) false scenarioBridges scenarioClaims
            _ _ _ _ _ _); try reflexivity.
Defined.

End FlowsFacts.

Module ProofGenerationToolFacts.
Import Machine MachineFacts GoError Flows FlowsFacts ProofGenerationTool.

Section Tool.
Variable Storage : Type.
Variable zeroCertificateType : CertificateType.
Variable t : AggchainProofGenerationTool Storage.

(** The tool and the L2 syncer.  A syncer that cannot be read, or that stands
    below the last proven block, ends the call with that error and nothing
    else happens.  With the syncer at or above the last proven block the
    outcome is the same wherever the syncer stands, so the end block is not
    compared with the block the syncer has reached: the claims of the blocks
    after the last proven one up to the end block are read, and once they
    are at hand the flow is asked for a proof with exactly the two blocks
    and those claims; its proof comes back as the SP1 proof, its error
    wrapped.  The prover is asked at most once, for exactly the two blocks,
    with one imported bridge exit per claim. *)
Theorem tool_request_follows_arguments (lastProvenBlock maxEndBlock : Z)
  (w w' : World Storage) r :
  GenerateAggchainProof Storage zeroCertificateType t lastProvenBlock maxEndBlock w
    = (r, w') ->
  storage w' = storage w /\
  (forall e, l2Syncer_GetLastProcessedBlock Storage t = Fail e ->
     r = Fail (Wrapped "error getting last processed block from l2" e) /\ w' = w) /\
  (forall synced, l2Syncer_GetLastProcessedBlock Storage t = Ok synced ->
     synced < lastProvenBlock -> r = Fail errSyncerBehind /\ w' = w) /\
  (forall synced, l2Syncer_GetLastProcessedBlock Storage t = Ok synced ->
     lastProvenBlock <= synced ->
     (forall synced', lastProvenBlock <= synced' ->
        GenerateAggchainProof Storage zeroCertificateType (syncedAt Storage t synced')
          lastProvenBlock maxEndBlock w = (r, w')) /\
     (forall e, l2Syncer_GetClaims Storage t (u64 (lastProvenBlock + 1)) maxEndBlock = Fail e ->
        r = Fail (Wrapped "error getting claims (imported bridge exits)" e) /\ w' = w) /\
     (forall claims,
        l2Syncer_GetClaims Storage t (u64 (lastProvenBlock + 1)) maxEndBlock = Ok claims ->
        exists r1,
          Flows.GenerateAggchainProof Storage (flow Storage t) lastProvenBlock maxEndBlock
            (onlyClaims zeroCertificateType claims) w = (r1, w') /\
          (forall p root bp, r1 = Ok (p, root, bp) -> r = Ok (SP1StarkProof p)) /\
          (forall e, r1 = Fail e ->
             r = Fail (Wrapped "error generating Aggchain proof" e)))) /\
  ((proverCalls w' = proverCalls w /\ forall x, r <> Ok x) \/
   exists c synced claims,
     proverCalls w' = c :: proverCalls w /\
     l2Syncer_GetLastProcessedBlock Storage t = Ok synced /\
     lastProvenBlock <= synced /\
     l2Syncer_GetClaims Storage t (u64 (lastProvenBlock + 1)) maxEndBlock = Ok claims /\
     Req_LastProvenBlock (request c) = lastProvenBlock /\
     RequestedEndBlock (request c) = maxEndBlock /\
     map BlockNumber (ImportedBridgeExitsWithBlockNumber (request c))
       = map Claim_BlockNum claims /\
     forall p, reply c = Ok p -> r = Ok (SP1StarkProof p)).
Proof.
  unfold GenerateAggchainProof, bind, call, wrapErr, ret. intros H.
  destruct (l2Syncer_GetLastProcessedBlock Storage t) as [synced|e|] eqn:Esync.
  2:{ inversion H; subst. split; [reflexivity|].
      split; [intros e' He'; inversion He'; split; reflexivity|].
      split; [intros s' Hs'; discriminate Hs'|].
      split; [intros s' Hs'; discriminate Hs'|].
      left; split; [reflexivity|discriminate]. }
  2:{ inversion H; subst. split; [reflexivity|].
      split; [intros e' He'; discriminate He'|].
      split; [intros s' Hs'; discriminate Hs'|].
      split; [intros s' Hs'; discriminate Hs'|].
      left; split; [reflexivity|discriminate]. }
  destruct (synced <? lastProvenBlock) eqn:Ebehind.
  { apply Z.ltb_lt in Ebehind. inversion H; subst. split; [reflexivity|].
    split; [intros e' He'; discriminate He'|].
    split; [intros s' Hs' _; split; reflexivity|].
    split; [intros s' Hs' Hge; inversion Hs'; subst s'; lia|].
    left; split; [reflexivity|discriminate]. }
  apply Z.ltb_ge in Ebehind.
  assert (Hany : forall synced', lastProvenBlock <= synced' ->
            (synced' <? lastProvenBlock) = false).
  { intros synced' Hge. apply Z.ltb_ge. exact Hge. }
  destruct (l2Syncer_GetClaims Storage t (u64 (lastProvenBlock + 1)) maxEndBlock)
    as [claims|e|] eqn:Eclaims.
  2:{ inversion H; subst. split; [reflexivity|].
      split; [intros e' He'; discriminate He'|].
      split; [intros s' Hs' Hlt; inversion Hs'; subst s'; lia|].
      split.
      - intros s' _ _. split; [|split].
        + intros synced' Hge. cbn [syncedAt l2Syncer_GetLastProcessedBlock l2Syncer_GetClaims flow].
          rewrite (Hany synced' Hge), Eclaims. reflexivity.
        + intros e' He'. inversion He'. split; reflexivity.
        + intros claims Hcl. discriminate Hcl.
      - left; split; [reflexivity|discriminate]. }
  2:{ inversion H; subst. split; [reflexivity|].
      split; [intros e' He'; discriminate He'|].
      split; [intros s' Hs' Hlt; inversion Hs'; subst s'; lia|].
      split.
      - intros s' _ _. split; [|split].
        + intros synced' Hge. cbn [syncedAt l2Syncer_GetLastProcessedBlock l2Syncer_GetClaims flow].
          rewrite (Hany synced' Hge), Eclaims. reflexivity.
        + intros e' He'. discriminate He'.
        + intros claims Hcl. discriminate Hcl.
      - left; split; [reflexivity|discriminate]. }
  destruct (Flows.GenerateAggchainProof Storage (flow Storage t) lastProvenBlock maxEndBlock
              (onlyClaims zeroCertificateType claims) w) as [r1 w1] eqn:Eflow.
  destruct (GenerateAggchainProof_trace Storage (flow Storage t) _ _ _ _ _ _ Eflow)
    as (Hstorage & Hcalls).
  assert (Hw : w' = w1).
  { destruct r1 as [[[p root] bp]|e|]; inversion H; reflexivity. }
  subst w1. split; [exact Hstorage|].
  split; [intros e' He'; discriminate He'|].
  split; [intros s' Hs' Hlt; inversion Hs'; subst s'; lia|].
  split.
  - intros s' _ _. split; [|split].
    + intros synced' Hge. cbn [syncedAt l2Syncer_GetLastProcessedBlock l2Syncer_GetClaims flow].
      rewrite (Hany synced' Hge), Eclaims, Eflow. exact H.
    + intros e' He'. discriminate He'.
    + intros claims' Hcl. inversion Hcl; subst claims'. exists r1.
      split; [exact Eflow|]. split.
      * intros p root bp Hr1. subst r1. inversion H. reflexivity.
      * intros e' Hr1. subst r1. inversion H. reflexivity.
  - destruct Hcalls as [(Hsame & Hno)|(c & Hc & Hend & Hlp & Hreply)].
    + left. split; [exact Hsame|].
      destruct r1 as [x|e|]; [exfalso; exact (Hno x eq_refl)|inversion H; discriminate..].
    + right. exists c, synced, claims.
      split; [exact Hc|]. split; [reflexivity|]. split; [exact Ebehind|].
      split; [reflexivity|]. split; [exact Hlp|]. split; [exact Hend|].
      destruct (GenerateAggchainProof_called Storage (flow Storage t) _ _ _ _ _ _ c Eflow Hc)
        as (proof & leaf & root & gers & ibes & _ & Hibes & Hreq & _ & Hok).
      split.
      * rewrite Hreq. cbn [ImportedBridgeExitsWithBlockNumber].
        exact (getImportedBridgeExitsForProver_blocks Storage (flow Storage t) _ _ Hibes).
      * intros p Hp. destruct (Hok p Hp) as (x & Hr1 & _). subst r1.
        inversion H. reflexivity.
Qed.

End Tool.

(** The syncer of the scenario stands at block 7, below the end block 10:
    the prover is asked all the same, as it is with the syncer at block 100,
    and its proof comes back. *)
Lemma tool_request_follows_arguments_witness :
  GenerateAggchainProof unit CertificateTypeUnknown (syncedAt unit (scenarioTool 7) 100) 5 10
    emptyWorld
  = (Ok (SP1StarkProof (proofUpTo 5 10)),
     snd (GenerateAggchainProof unit CertificateTypeUnknown (scenarioTool 7) 5 10 emptyWorld)).
Proof.
  refine (proj1 (proj1 (proj2 (proj2 (proj2
            (tool_request_follows_arguments unit CertificateTypeUnknown (scenarioTool 7) 5 10
               emptyWorld _ _ _))))
            7 eq_refl _) 100 _).
  - vm_compute. reflexivity.
  - lia.
  - lia.
Defined.

End ProofGenerationToolFacts.

Module SyncFacts.
Import Machine GoError Sync MachineFacts.

Lemma pass_scanned (d : EVMDownloader) (env : EVMDownloaderInterface) (st : LoopState)
  (sc : Scan) :
  scan d env st = Some sc -> pass d env st = report d env st sc.
Proof. intros H. unfold pass. rewrite H. reflexivity. Qed.

Lemma reportEmptyBlock_alive (d : EVMDownloader) (env : EVMDownloaderInterface) (n lf : Z) :
  snd (GetBlockHeader env n) = false ->
  exists b, reportEmptyBlock d env n lf = [b] /\
    isCheckpointFor (fst (GetBlockHeader env n)) b.
Proof.
  intros H. unfold reportEmptyBlock.
  destruct (GetBlockHeader env n) as [header cancelled]. cbn in H. subst cancelled.
  eexists. split; [reflexivity|]. split; reflexivity.
Qed.

(** C6 (amended): in a pass whose produced list is empty or ends below
    requestToBlock, with the header lookup not cancelled,
    - when requestToBlock is at or below the last finalized block, the
      produced blocks are sent followed by a checkpoint for requestToBlock;
    - when it is above and nothing was produced, a checkpoint for the last
      finalized block is the only block sent if fromBlock is at or below that
      block; otherwise nothing is sent, fromBlock stays and toBlock grows by
      the chunk size;
    - when it is above and blocks were produced, exactly those blocks are
      sent, with no checkpoint. *)
Theorem checkpoint_rule (d : EVMDownloader) (env : EVMDownloaderInterface)
  (st : LoopState) (sc : Scan) :
  scan d env st = Some sc ->
  blocks sc = [] \/ lastNum (blocks sc) < requestToBlock sc ->
  (forall n, snd (GetBlockHeader env n) = false) ->
  (requestToBlock sc <= lastFinalizedBlockNumber sc ->
     exists b,
       snd (pass d env st)
         = reportBlocks d (blocks sc) (lastFinalizedBlockNumber sc) ++ [b] /\
       isCheckpointFor (fst (GetBlockHeader env (requestToBlock sc))) b) /\
  (lastFinalizedBlockNumber sc < requestToBlock sc -> blocks sc = [] ->
     fromBlock st <= lastFinalizedBlockNumber sc ->
     exists b,
       snd (pass d env st) = [b] /\
       isCheckpointFor (fst (GetBlockHeader env (lastFinalizedBlockNumber sc))) b) /\
  (lastFinalizedBlockNumber sc < requestToBlock sc -> blocks sc = [] ->
     lastFinalizedBlockNumber sc < fromBlock st ->
     snd (pass d env st) = [] /\
     fromBlock (fst (pass d env st)) = fromBlock st /\
     toBlock (fst (pass d env st)) = u64 (scan_toBlock sc + syncBlockChunkSize d)) /\
  (lastFinalizedBlockNumber sc < requestToBlock sc -> blocks sc <> [] ->
     snd (pass d env st) = reportBlocks d (blocks sc) (lastFinalizedBlockNumber sc)).
Proof.
  intros Hscan Hshort Halive. rewrite (pass_scanned d env st sc Hscan).
  unfold report.
  split; [|split; [|split]].
  - intros Hsafe. apply Z.leb_le in Hsafe. rewrite Hsafe. cbn [snd].
    assert (Hcond : Nat.eqb (List.length (blocks sc)) 0
                    || (lastNum (blocks sc) <? requestToBlock sc) = true).
    { destruct Hshort as [Hnil|Hlt].
      - rewrite Hnil. reflexivity.
      - apply Z.ltb_lt in Hlt. rewrite Hlt. apply orb_true_r. }
    rewrite Hcond.
    destruct (reportEmptyBlock_alive d env (requestToBlock sc)
                (lastFinalizedBlockNumber sc) (Halive _)) as (b & Hb & Hcp).
    exists b. rewrite Hb. split; [reflexivity|exact Hcp].
  - intros Hunsafe Hnil Hfrom.
    apply Z.leb_gt in Hunsafe. rewrite Hunsafe. rewrite Hnil. cbn [List.length Nat.eqb].
    apply Z.leb_le in Hfrom. rewrite Hfrom. cbn [snd].
    apply reportEmptyBlock_alive. apply Halive.
  - intros Hunsafe Hnil Hbehind.
    apply Z.leb_gt in Hunsafe. rewrite Hunsafe. rewrite Hnil. cbn [List.length Nat.eqb].
    apply Z.leb_gt in Hbehind. rewrite Hbehind. repeat split.
  - intros Hunsafe Hne.
    apply Z.leb_gt in Hunsafe. rewrite Hunsafe.
    destruct (blocks sc) as [|b0 rest]; [contradiction|]. reflexivity.
Qed.

Lemma reportEmptyBlock_sent (d : EVMDownloader) (env : EVMDownloaderInterface) (n lf : Z)
  (b : EVMBlock) :
  In b (reportEmptyBlock d env n lf) ->
  Header b = fst (GetBlockHeader env n) /\ Events b = [] /\
  IsFinalizedBlock b
  = finalizedBlockType_IsFinalized d && (Num (fst (GetBlockHeader env n)) <=? lf).
Proof.
  unfold reportEmptyBlock.
  destruct (GetBlockHeader env n) as [header cancelled].
  destruct cancelled; [intros []|].
  intros [Hb|[]]. subst b. repeat split.
Qed.

Lemma reportBlocks_sent (d : EVMDownloader) (bs : list EVMBlock) (lf : Z) (b : EVMBlock) :
  In b (reportBlocks d bs lf) ->
  exists b0, In b0 bs /\ Header b = Header b0 /\ Events b = Events b0 /\
    IsFinalizedBlock b = finalizedBlockType_IsFinalized d && (Num (Header b0) <=? lf).
Proof.
  unfold reportBlocks. intros H. apply in_map_iff in H.
  destruct H as (b0 & Hb & Hin). exists b0. subst b. repeat split. exact Hin.
Qed.

(** Whatever one pass sends was flagged against the last finalized block of
    that pass. *)
Lemma pass_sent (d : EVMDownloader) (env : EVMDownloaderInterface) (st : LoopState)
  (b : EVMBlock) :
  In b (snd (pass d env st)) ->
  exists sc fin,
    scan d env st = Some sc /\ GetLastFinalizedBlock env = Ok fin /\
    lastFinalizedBlockNumber sc = Z.min (scan_lastBlock sc) fin /\
    IsFinalizedBlock b
    = finalizedBlockType_IsFinalized d && (Num (Header b) <=? lastFinalizedBlockNumber sc).
Proof.
  intros Hin. unfold pass in Hin.
  destruct (scan d env st) as [sc|] eqn:Hscan.
  2:{ destruct (refresh d env st). cbn in Hin. contradiction. }
  assert (Hfin : exists fin, GetLastFinalizedBlock env = Ok fin /\
                   lastFinalizedBlockNumber sc = Z.min (scan_lastBlock sc) fin).
  { unfold scan in Hscan. destruct (refresh d env st) as [lb tb].
    destruct (GetLastFinalizedBlock env) as [fin| |]; try discriminate Hscan.
    exists fin. split; [reflexivity|].
    destruct (lb <=? tb); inversion Hscan; reflexivity. }
  destruct Hfin as (fin & Hfin & Hlf).
  exists sc, fin. split; [reflexivity|]. split; [exact Hfin|]. split; [exact Hlf|].
  assert (Hblocks : forall lf, In b (reportBlocks d (blocks sc) lf) ->
            IsFinalizedBlock b = finalizedBlockType_IsFinalized d && (Num (Header b) <=? lf)).
  { intros lf Hb. destruct (reportBlocks_sent d _ lf b Hb) as (b0 & _ & Hh & _ & Hf).
    rewrite Hh. exact Hf. }
  assert (Hempty : forall n lf, In b (reportEmptyBlock d env n lf) ->
            IsFinalizedBlock b = finalizedBlockType_IsFinalized d && (Num (Header b) <=? lf)).
  { intros n lf Hb. destruct (reportEmptyBlock_sent d env n lf b Hb) as (Hh & _ & Hf).
    rewrite Hh. exact Hf. }
  unfold report in Hin.
  destruct (requestToBlock sc <=? lastFinalizedBlockNumber sc).
  - cbn [snd] in Hin. apply in_app_or in Hin. destruct Hin as [Hb|Hb].
    + apply Hblocks. exact Hb.
    + destruct (Nat.eqb (List.length (blocks sc)) 0
                || (lastNum (blocks sc) <? requestToBlock sc)); [|contradiction].
      eapply Hempty. exact Hb.
  - destruct (Nat.eqb (List.length (blocks sc)) 0).
    + destruct (fromBlock st <=? lastFinalizedBlockNumber sc); cbn [snd] in Hin.
      * eapply Hempty. exact Hb || exact Hin.
      * contradiction.
    + cbn [snd] in Hin. apply Hblocks. exact Hin.
Qed.

(** A block is sent as finalized only by a downloader whose finality type
    is the finalized one, and only when its number is at or below the last
    finalized block that some pass has fetched. *)
Theorem finalized_flag_needs_finalized_block (d : EVMDownloader)
  (first : EVMDownloaderInterface) (from : Z) (answers : list EVMDownloaderInterface)
  (b : EVMBlock) :
  In b (Download d first from answers) -> IsFinalizedBlock b = true ->
  finalizedBlockType_IsFinalized d = true /\
  exists env fin, In env answers /\ GetLastFinalizedBlock env = Ok fin /\
    Num (Header b) <= fin.
Proof.
  unfold Download. intros Hin Hflag.
  set (st := {| fromBlock := from; toBlock := u64 (from + syncBlockChunkSize d);
                lastBlock := WaitForNewBlocks first 0; reachTop := false;
                iteration := 0 |}) in Hin.
  clearbody st. revert st Hin.
  induction answers as [|env rest IH]; intros st Hin; [contradiction|].
  cbn [loop] in Hin. destruct (pass d env st) as [st' sent] eqn:Hpass.
  apply in_app_or in Hin. destruct Hin as [Hb|Hb].
  - assert (Hsent : In b (snd (pass d env st))) by (rewrite Hpass; exact Hb).
    destruct (pass_sent d env st b Hsent) as (sc & fin & _ & Hfin & Hlf & Hf).
    rewrite Hflag in Hf. symmetry in Hf. apply andb_true_iff in Hf.
    destruct Hf as [Hd Hle]. apply Z.leb_le in Hle.
    split; [exact Hd|]. exists env, fin. split; [left; reflexivity|].
    split; [exact Hfin|]. lia.
  - destruct (IH st' Hb) as (Hd & env' & fin & Henv & Hfin & Hle).
    split; [exact Hd|]. exists env', fin. split; [right; exact Henv|]. split; assumption.
Qed.

Lemma blockNums_reportBlocks (d : EVMDownloader) (bs : list EVMBlock) (lf : Z) :
  blockNums (reportBlocks d bs lf) = blockNums bs.
Proof.
  unfold blockNums, reportBlocks. rewrite map_map. reflexivity.
Qed.

Lemma last_cons {A : Type} (l : list A) : forall x d, last (x :: l) d = last l x.
Proof.
  induction l as [|y l IH]; intros x d; [reflexivity|].
  change (last (x :: y :: l) d) with (last (y :: l) d).
  rewrite (IH y d), (IH y x). reflexivity.
Qed.

Lemma last_in {A : Type} (l : list A) : forall x d, In (last (x :: l) d) (x :: l).
Proof.
  induction l as [|y l IH]; intros x d; [left; reflexivity|].
  change (last (x :: y :: l) d) with (last (y :: l) d). right. apply IH.
Qed.

Lemma last_mapped {A B : Type} (f : A -> B) (l : list A) :
  forall d, last (map f l) (f d) = f (last l d).
Proof.
  induction l as [|y l IH]; intros d; [reflexivity|].
  cbn [map]. rewrite !last_cons. apply IH.
Qed.

Lemma lastNum_blockNums (bs : list EVMBlock) : lastNum bs = last (blockNums bs) 0.
Proof.
  destruct bs as [|b rest]; [reflexivity|].
  unfold lastNum, blockNums. cbn [map]. rewrite last_cons.
  symmetry. apply (last_mapped (fun b => Num (Header b))).
Qed.

Lemma ascendingFrom_weaken (lo lo' : Z) (ns : list Z) :
  lo' <= lo -> ascendingFrom lo ns -> ascendingFrom lo' ns.
Proof. destruct ns as [|n rest]; [trivial|]. cbn. intros H [Hn Hr]. split; [lia|exact Hr]. Qed.

Lemma ascendingFrom_app (lo m : Z) (xs ys : list Z) :
  ascendingFrom lo xs -> Forall (fun x => x < m) xs -> lo <= m ->
  ascendingFrom m ys -> ascendingFrom lo (xs ++ ys).
Proof.
  revert lo. induction xs as [|x xs IH]; intros lo Hx Hall Hle Hy.
  - cbn. apply (ascendingFrom_weaken m); assumption.
  - cbn in Hx |- *. destruct Hx as [Hlo Hx]. inversion Hall as [|? ? Hxm Hall']; subst.
    split; [exact Hlo|]. apply IH; try assumption. lia.
Qed.

Lemma ascendingFrom_bounds (ns : list Z) :
  forall lo n, ascendingFrom lo ns -> In n ns -> lo <= n <= last ns 0.
Proof.
  induction ns as [|x rest IH]; intros lo n Hasc Hin; [contradiction|].
  cbn [ascendingFrom] in Hasc. destruct Hasc as [Hlo Hrest].
  destruct rest as [|y rest'].
  - destruct Hin as [<-|[]]. cbn. lia.
  - assert (Hy : x + 1 <= y <= last (y :: rest') 0).
    { apply (IH (x + 1) y Hrest). left. reflexivity. }
    change (last (x :: y :: rest') 0) with (last (y :: rest') 0).
    destruct Hin as [<-|Hin]; [lia|].
    pose proof (IH (x + 1) n Hrest Hin). lia.
Qed.

Lemma reportEmptyBlock_nums (d : EVMDownloader) (env : EVMDownloaderInterface) (n lf : Z) :
  (forall k, Num (fst (GetBlockHeader env k)) = k) ->
  blockNums (reportEmptyBlock d env n lf) = [] \/
  blockNums (reportEmptyBlock d env n lf) = [n].
Proof.
  intros Hhdr. unfold reportEmptyBlock. specialize (Hhdr n).
  destruct (GetBlockHeader env n) as [header cancelled]. cbn in Hhdr.
  destruct cancelled; [left; reflexivity|right]. cbn. rewrite Hhdr. reflexivity.
Qed.

(** One pass on a chain that behaves: what it sends is ascending from
    [fromBlock], the next [fromBlock] is above everything sent and not below
    the old one, and the loop variables stay in step. *)
Lemma pass_in_step (d : EVMDownloader) (env : EVMDownloaderInterface) (top limit n : Z)
  (st : LoopState) :
  0 <= syncBlockChunkSize d -> 0 <= n ->
  honestChain top env -> inStep d top limit (n + 1) st ->
  ascendingFrom (fromBlock st) (blockNums (snd (pass d env st))) /\
  Forall (fun k => k < fromBlock (fst (pass d env st))) (blockNums (snd (pass d env st))) /\
  fromBlock st <= fromBlock (fst (pass d env st)) /\
  inStep d top limit n (fst (pass d env st)).
Proof.
  intros Hchunk Hn (Hwait & Hevents & Hhdr)
    (_ & Hfrom & Hto & Hlast & Hlimit & Htop & Hroom & Hroom').
  assert (Hcn : 0 <= syncBlockChunkSize d * n) by (apply Z.mul_nonneg_nonneg; assumption).
  destruct (refresh d env st) as [lb tb] eqn:Er.
  assert (Href : lastBlock st <= lb /\ fromBlock st <= lb /\ lb + n <= limit /\
                 fromBlock st <= tb /\ tb + syncBlockChunkSize d * (n + 1) < 2 ^ 64).
  { unfold refresh in Er.
    destruct ((lastBlock st <? fromBlock st)
              || (reachTop st && (lastBlock st <=? toBlock st))) eqn:Ec.
    - inversion Er as [[Elb Etb]]. clear Er.
      pose proof (Hwait (lastBlock st) Hlast) as Hw.
      rewrite (u64_small (fromBlock st + syncBlockChunkSize d)) by lia.
      destruct (u64 (fromBlock st - toBlock st) <? syncBlockChunkSize d); lia.
    - inversion Er; subst lb tb. apply orb_false_iff in Ec. destruct Ec as [Ec _].
      apply Z.ltb_ge in Ec. lia. }
  destruct Href as (Hlb & Hflb & Hlbn & Hftb & Htb).
  unfold pass, scan. rewrite Er.
  destruct (GetLastFinalizedBlock env) as [fin|e|].
  2,3: cbn [fst snd blockNums map ascendingFrom fromBlock];
       (split; [exact I|]); (split; [constructor|]); (split; [lia|]);
       unfold inStep; cbn [fromBlock toBlock lastBlock]; lia.
  set (lf := Z.min lb fin).
  assert (Hreq : exists request top',
            (if lb <=? tb then (lb, true) else (tb, false)) = (request, top') /\
            fromBlock st <= request <= lb).
  { destruct (lb <=? tb) eqn:E.
    - exists lb, true. split; [reflexivity|lia].
    - apply Z.leb_gt in E. exists tb, false. split; [reflexivity|lia]. }
  destruct Hreq as (request & top' & -> & Hrequest).
  destruct (Hevents (fromBlock st) request) as [Hasc Hupper].
  set (bs := GetEventsByBlockRange env (fromBlock st) request) in *.
  unfold report.
  cbn [requestToBlock lastFinalizedBlockNumber blocks scan_lastBlock scan_toBlock scan_reachTop].
  fold lf.
  assert (Hbounds : forall k, In k (blockNums bs) -> fromBlock st <= k <= request).
  { intros k Hk. split.
    - apply (ascendingFrom_bounds _ _ _ Hasc Hk).
    - rewrite Forall_forall in Hupper. apply Hupper. exact Hk. }
  assert (Hlastnum : bs <> [] -> fromBlock st <= lastNum bs <= request /\
                       forall k, In k (blockNums bs) -> k <= lastNum bs).
  { intros Hne. rewrite lastNum_blockNums.
    destruct bs as [|b0 rest] eqn:Ebs; [contradiction|].
    assert (Hin : In (last (blockNums (b0 :: rest)) 0) (blockNums (b0 :: rest))).
    { unfold blockNums. cbn [map]. apply last_in. }
    split; [apply Hbounds; exact Hin|].
    intros k Hk. apply (ascendingFrom_bounds _ _ _ Hasc Hk). }
  destruct (request <=? lf) eqn:Esafe.
  - (* the safe zone *)
    cbn [fst snd fromBlock].
    rewrite (u64_small (request + 1)) by lia.
    unfold blockNums. rewrite map_app. fold (blockNums (reportBlocks d bs lf)).
    rewrite blockNums_reportBlocks.
    assert (Hempty : exists tail,
              map (fun b => Num (Header b))
                (if Nat.eqb (List.length bs) 0 || (lastNum bs <? request)
                 then reportEmptyBlock d env request lf else []) = tail /\
              (tail = [] \/ (tail = [request] /\ (bs = [] \/ lastNum bs < request)))).
    { eexists. split; [reflexivity|].
      destruct (Nat.eqb (List.length bs) 0 || (lastNum bs <? request)) eqn:Ec;
        [|left; reflexivity].
      destruct (reportEmptyBlock_nums d env request lf Hhdr) as [E|E];
        unfold blockNums in E; rewrite E; [left; reflexivity|right].
      split; [reflexivity|].
      apply orb_true_iff in Ec. destruct Ec as [Ec|Ec].
      - left. destruct bs; [reflexivity|discriminate Ec].
      - right. apply Z.ltb_lt. exact Ec. }
    destruct Hempty as (tail & -> & Htail).
    split; [|split; [|split]].
    + destruct Htail as [->|[-> Hshort]].
      * rewrite app_nil_r. exact Hasc.
      * assert (Hcases : bs = [] \/ (bs <> [] /\ lastNum bs < request)).
        { destruct Hshort as [Hnil|Hlt]; [left; exact Hnil|].
          destruct bs; [left; reflexivity|right; split; [discriminate|exact Hlt]]. }
        destruct Hcases as [Hnil|[Hne Hlt]].
        -- rewrite Hnil. cbn. split; [lia|exact I].
        -- destruct (Hlastnum Hne) as [_ Hmax].
           apply (ascendingFrom_app _ request); [exact Hasc| |lia|cbn; split; [lia|exact I]].
           apply Forall_forall. intros k Hk. specialize (Hmax k Hk). lia.
    + apply Forall_app. split.
      * apply Forall_forall. intros k Hk. specialize (Hbounds k Hk). lia.
      * destruct Htail as [->|[-> _]]; [constructor|].
        constructor; [lia|constructor].
    + lia.
    + unfold inStep. cbn [fromBlock toBlock lastBlock].
      rewrite (u64_small (request + 1 + syncBlockChunkSize d)) by lia. lia.
  - (* above the last finalized block *)
    destruct (Nat.eqb (List.length bs) 0) eqn:Elen.
    + destruct (fromBlock st <=? lf) eqn:Efl.
      * apply Z.leb_le in Efl.
        assert (Hlf : lf <= lb) by (unfold lf; lia).
        cbn [fst snd fromBlock].
        rewrite (u64_small (lf + 1)) by lia.
        destruct (reportEmptyBlock_nums d env lf lf Hhdr) as [E|E]; rewrite E.
        -- split; [exact I|]. split; [constructor|]. split; [lia|].
           unfold inStep. cbn [fromBlock toBlock lastBlock].
           rewrite (u64_small (lf + 1 + syncBlockChunkSize d)) by lia. lia.
        -- split; [cbn; split; [lia|exact I]|].
           split; [constructor; [lia|constructor]|]. split; [lia|].
           unfold inStep. cbn [fromBlock toBlock lastBlock].
           rewrite (u64_small (lf + 1 + syncBlockChunkSize d)) by lia. lia.
      * cbn [fst snd fromBlock blockNums map ascendingFrom].
        split; [exact I|]. split; [constructor|]. split; [lia|].
        unfold inStep. cbn [fromBlock toBlock lastBlock].
        rewrite (u64_small (tb + syncBlockChunkSize d)) by lia. lia.
    + assert (Hne : bs <> []).
      { intros E. rewrite E in Elen. discriminate Elen. }
      destruct (Hlastnum Hne) as [Hln Hmax].
      cbn [fst snd fromBlock].
      rewrite (u64_small (lastNum bs + 1)) by lia.
      rewrite blockNums_reportBlocks.
      split; [exact Hasc|].
      split; [apply Forall_forall; intros k Hk; specialize (Hmax k Hk); lia|].
      split; [lia|].
      unfold inStep. cbn [fromBlock toBlock lastBlock].
      rewrite (u64_small (lastNum bs + 1 + syncBlockChunkSize d)) by lia. lia.
Qed.

Lemma loop_ascending (d : EVMDownloader) (top limit : Z)
  (answers : list EVMDownloaderInterface) :
  0 <= syncBlockChunkSize d ->
  (forall env, In env answers -> honestChain top env) ->
  forall st, inStep d top limit (Z.of_nat (List.length answers)) st ->
    ascendingFrom (fromBlock st) (blockNums (loop d st answers)).
Proof.
  intros Hchunk. induction answers as [|env rest IH]; intros Hhonest st Hst; [exact I|].
  cbn [loop].
  assert (Hlen : Z.of_nat (List.length (env :: rest)) = Z.of_nat (List.length rest) + 1).
  { cbn [List.length]. lia. }
  rewrite Hlen in Hst.
  destruct (pass_in_step d env top limit (Z.of_nat (List.length rest)) st Hchunk
              (Nat2Z.is_nonneg _) (Hhonest env (or_introl eq_refl)) Hst)
    as (Hasc & Hbelow & Hmono & Hnext).
  destruct (pass d env st) as [st' sent]. cbn [fst snd] in *.
  unfold blockNums. rewrite map_app.
  apply (ascendingFrom_app _ (fromBlock st')); [exact Hasc|exact Hbelow|exact Hmono|].
  apply IH; [|exact Hnext].
  intros env' Hin. apply Hhonest. right. exact Hin.
Qed.

(** On a chain that behaves, and started at most one block after the head,
    [Download] sends blocks in strictly ascending order of their numbers,
    none below the block it was started from: no block is sent twice and the
    downloader never steps back. *)
Theorem download_sends_ascending_blocks (d : EVMDownloader) (first : EVMDownloaderInterface)
  (from top : Z) (answers : list EVMDownloaderInterface) :
  0 <= syncBlockChunkSize d -> 1 <= top ->
  (forall env, In env (first :: answers) -> honestChain top env) ->
  0 <= from <= WaitForNewBlocks first 0 + 1 ->
  top + Z.of_nat (List.length answers) + 1
    + syncBlockChunkSize d * (Z.of_nat (List.length answers) + 1) < 2 ^ 64 ->
  ascendingFrom from (blockNums (Download d first from answers)).
Proof.
  intros Hchunk Htop Hhonest Hfrom Hroom. unfold Download.
  destruct (Hhonest first (or_introl eq_refl)) as (Hwait & _ & _).
  pose proof (Hwait 0 (Z.le_refl 0)) as Hw.
  set (N := Z.of_nat (List.length answers)) in *.
  assert (HN : 0 <= N) by apply Nat2Z.is_nonneg.
  assert (HcN : 0 <= syncBlockChunkSize d * N) by (apply Z.mul_nonneg_nonneg; assumption).
  apply (loop_ascending d top (top + N) answers Hchunk
           (fun env Hin => Hhonest env (or_intror Hin))
           {| fromBlock := from; toBlock := u64 (from + syncBlockChunkSize d);
              lastBlock := WaitForNewBlocks first 0; reachTop := false; iteration := 0 |}).
  fold N. unfold inStep. cbn [fromBlock toBlock lastBlock].
  rewrite (u64_small (from + syncBlockChunkSize d)) by lia. lia.
Qed.

(** [Download] from block 10 on that chain starts in [scanningFromTen]. *)
Example quiet_download_sends_nothing :
  Download chunkOfTen quietChain 10 [quietChain] = [] /\
  fst (pass chunkOfTen quietChain scanningFromTen)
  = {| fromBlock := 10; toBlock := 30; lastBlock := 20; reachTop := true; iteration := 1 |}.
Proof. split; vm_compute; reflexivity. Qed.

Lemma checkpoint_rule_witness :
  exists sc, scan chunkOfTen quietChain scanningFromZero = Some sc /\
    requestToBlock sc = 4 /\ lastFinalizedBlockNumber sc = 5 /\
    exists b,
      snd (pass chunkOfTen quietChain scanningFromZero)
        = reportBlocks chunkOfTen (blocks sc) (lastFinalizedBlockNumber sc) ++ [b] /\
      isCheckpointFor (fst (GetBlockHeader quietChain (requestToBlock sc))) b.
Proof.
  eexists. split; [reflexivity|]. split; [reflexivity|]. split; [reflexivity|].
  refine (proj1 (checkpoint_rule chunkOfTen quietChain scanningFromZero _ eq_refl _ _) _).
  - left. reflexivity.
  - intros n. reflexivity.
  - cbn. lia.
Defined.

(** C6 (as stated) fails: with the chain at block 20, the finalized block at
    5 and no matching log in [10, 20], the pass sends nothing at all. *)
Lemma no_checkpoint_above_finality :
  ~ checkpointAlwaysEmitted chunkOfTen quietChain scanningFromTen.
Proof.
  intros H.
  destruct (H _ eq_refl) as (b & Hin & _).
  - left. reflexivity.
  - vm_compute in Hin. exact Hin.
Qed.

Lemma growingChain_honest : honestChain 20 growingChain.
Proof.
  split; [|split].
  - intros l Hl. cbn. lia.
  - intros f t. cbn [growingChain GetEventsByBlockRange].
    destruct ((f <=? 12) && (12 <=? t)) eqn:E.
    + apply andb_true_iff in E. destruct E as [Ef Et].
      apply Z.leb_le in Ef. apply Z.leb_le in Et.
      cbn. split; [split; [lia|exact I]|]. constructor; [lia|constructor].
    + cbn. split; [exact I|constructor].
  - intros n. reflexivity.
Qed.

Lemma finalized_flag_needs_finalized_block_witness :
  finalizedBlockType_IsFinalized chunkOfTen = true /\
  exists env fin, In env [growingChain] /\ GetLastFinalizedBlock env = Ok fin /\
    Num (Header {| Header := headerOf 12; IsFinalizedBlock := true; Events := [7] |}) <= fin.
Proof.
  apply (finalized_flag_needs_finalized_block chunkOfTen growingChain 10 [growingChain]).
  - vm_compute. left. reflexivity.
  - reflexivity.
Defined.

Lemma download_sends_ascending_blocks_witness :
  ascendingFrom 10
    (blockNums (Download chunkOfTen growingChain 10
                  [growingChain; growingChain; growingChain])).
Proof.
  apply (download_sends_ascending_blocks chunkOfTen growingChain 10 20).
  - cbn. lia.
  - lia.
  - intros env [<-|[<-|[<-|[<-|[]]]]]; exact growingChain_honest.
  - cbn. lia.
  - cbn. lia.
Defined.

End SyncFacts.

Module SyncImplementationFacts.
Import Machine MachineFacts GoError Sync SyncFacts SyncImplementation.

Section Logs.
Variable d : EVMDownloaderImplementation.

Lemma filterLogs_kept (unfilteredLogs : list Log) :
  forall logs, filterLogs d unfilteredLogs = Ok logs ->
    logs = filter (wanted d) unfilteredLogs.
Proof.
  induction unfilteredLogs as [|l rest IH]; intros logs H; cbn [filterLogs] in H.
  - inversion H. reflexivity.
  - cbn [filter]. unfold wanted at 1.
    destruct (Removed l); cbn [negb andb]; [apply IH; exact H|].
    destruct (Topics l) as [|topic more]; [discriminate H|].
    destruct (filterLogs d rest) as [logs'| |]; try discriminate H.
    rewrite <- (IH logs' eq_refl).
    destruct (existsb (Z.eqb topic) (topicsToQuery d)); inversion H; reflexivity.
Qed.

Lemma filterLogs_total (unfilteredLogs : list Log) :
  (forall l, In l unfilteredLogs -> Removed l = false -> Topics l <> []) ->
  exists logs, filterLogs d unfilteredLogs = Ok logs.
Proof.
  induction unfilteredLogs as [|l rest IH]; intros Htopics; cbn [filterLogs].
  - eexists. reflexivity.
  - destruct IH as (logs & Hlogs).
    { intros l' Hin. apply Htopics. right. exact Hin. }
    destruct (Removed l) eqn:Er; [exists logs; exact Hlogs|].
    destruct (Topics l) as [|topic more] eqn:Et.
    + exfalso. apply (Htopics l (or_introl eq_refl) Er). exact Et.
    + rewrite Hlogs. eexists. reflexivity.
Qed.

Lemma filterLogs_crash (unfilteredLogs : list Log) (l : Log) :
  In l unfilteredLogs -> Removed l = false -> Topics l = [] ->
  filterLogs d unfilteredLogs = Panic.
Proof.
  induction unfilteredLogs as [|l' rest IH]; intros Hin Hr Ht; [contradiction|].
  cbn [filterLogs]. destruct Hin as [->|Hin].
  - rewrite Hr, Ht. reflexivity.
  - rewrite (IH Hin Hr Ht).
    destruct (Removed l'); [reflexivity|]. destruct (Topics l'); reflexivity.
Qed.

(** The loop over the logs stops short only on a log that is not removed
    and has no topic. *)
Lemma filterLogs_stops (unfilteredLogs : list Log) :
  (exists logs, filterLogs d unfilteredLogs = Ok logs) \/
  (exists l, In l unfilteredLogs /\ Removed l = false /\ Topics l = []).
Proof.
  induction unfilteredLogs as [|l rest IH]; cbn [filterLogs].
  - left. eexists. reflexivity.
  - destruct IH as [(logs & Hlogs)|(l' & Hin & Hr & Ht)].
    + destruct (Removed l) eqn:Er; [left; exists logs; exact Hlogs|].
      destruct (Topics l) as [|topic more] eqn:Et.
      * right. exists l. split; [left; reflexivity|]. split; assumption.
      * left. rewrite Hlogs. eexists. reflexivity.
    + right. exists l'. split; [right; exact Hin|]. split; assumption.
Qed.

(** Failed calls that the retry handler lets pass cost one turn each. *)
Lemma getLogsLoop_failures (ethClient : EthClient) (fromBlock toBlock : Z) (failures : nat) :
  forall fuel attempts,
    (forall i, (i < failures)%nat ->
       exists err,
         FilterLogs ethClient fromBlock toBlock (attempts + i) = inr err /\
         errors_Is err context_Canceled = false /\
         rh_Handle d (Z.of_nat (S (attempts + i))) = true) ->
    getLogsLoop d (failures + fuel) ethClient fromBlock toBlock attempts
    = getLogsLoop d fuel ethClient fromBlock toBlock (attempts + failures).
Proof.
  induction failures as [|failures IH]; intros fuel attempts Hfail.
  - rewrite Nat.add_0_r. reflexivity.
  - cbn [Nat.add getLogsLoop].
    destruct (Hfail 0%nat ltac:(lia)) as (err & Hcall & Hcancel & Hhandle).
    rewrite Nat.add_0_r in Hcall, Hhandle. rewrite Hcall, Hcancel, Hhandle.
    rewrite IH.
    + f_equal. lia.
    + intros i Hi. destruct (Hfail (S i) ltac:(lia)) as (err' & Hc' & Hn' & Hh').
      exists err'. replace (S attempts + i)%nat with (attempts + S i)%nat by lia.
      repeat split; assumption.
Qed.

(** GetLogs calls the node until it answers.  After failed calls that the
    retry handler lets pass, an answer is handed back as the logs that are
    not removed and whose first topic is queried, in the order of the node;
    a log that is not removed and has no topic at all makes it panic; a
    cancelled context yields no log; another error at which the retry
    handler gives up ends the process.  As long as the calls fail and the
    retry handler lets them pass, GetLogs has not returned. *)
Theorem GetLogs_keeps_wanted_logs (ethClient : EthClient) (fromBlock toBlock : Z)
  (failures extra : nat) :
  failsFirst d ethClient fromBlock toBlock failures ->
  let run := GetLogs d (S failures + extra) ethClient fromBlock toBlock in
  (forall unfilteredLogs,
     FilterLogs ethClient fromBlock toBlock failures = inl unfilteredLogs ->
     (forall l, In l unfilteredLogs -> Removed l = false -> Topics l <> []) ->
     run = Returns (filter (wanted d) unfilteredLogs)) /\
  (forall unfilteredLogs l,
     FilterLogs ethClient fromBlock toBlock failures = inl unfilteredLogs ->
     In l unfilteredLogs -> Removed l = false -> Topics l = [] ->
     run = Panics) /\
  (forall err, FilterLogs ethClient fromBlock toBlock failures = inr err ->
     errors_Is err context_Canceled = true -> run = Returns []) /\
  (forall err, FilterLogs ethClient fromBlock toBlock failures = inr err ->
     errors_Is err context_Canceled = false ->
     rh_Handle d (Z.of_nat (S failures)) = false -> run = Exits) /\
  GetLogs d failures ethClient fromBlock toBlock = Spins.
Proof.
  intros Hfail run. subst run. unfold GetLogs.
  assert (Hskip : forall fuel,
            getLogsLoop d (failures + fuel) ethClient fromBlock toBlock 0
            = getLogsLoop d fuel ethClient fromBlock toBlock failures).
  { intros fuel. apply (getLogsLoop_failures ethClient fromBlock toBlock failures fuel 0).
    exact Hfail. }
  replace (S failures + extra)%nat with (failures + S extra)%nat by lia.
  rewrite Hskip. cbn [getLogsLoop].
  split; [|split; [|split; [|split]]].
  - intros unfilteredLogs -> Htopics.
    destruct (filterLogs_total unfilteredLogs Htopics) as (logs & Hlogs).
    rewrite Hlogs. rewrite (filterLogs_kept unfilteredLogs logs Hlogs). reflexivity.
  - intros unfilteredLogs l -> Hin Hr Ht.
    rewrite (filterLogs_crash unfilteredLogs l Hin Hr Ht). reflexivity.
  - intros err -> ->. reflexivity.
  - intros err -> -> ->. reflexivity.
  - rewrite <- (Nat.add_0_r failures) at 1. rewrite Hskip. reflexivity.
Qed.

Lemma getLogsLoop_from_node (ethClient : EthClient) (fromBlock toBlock : Z) (fuel : nat) :
  forall attempts logs,
    getLogsLoop d fuel ethClient fromBlock toBlock attempts = Returns logs ->
    honoursRange ethClient fromBlock toBlock ->
    forall l, In l logs -> wanted d l = true /\ fromBlock <= Log_BlockNumber l <= toBlock.
Proof.
  induction fuel as [|fuel IH]; intros attempts logs H Hrange l Hin; [discriminate H|].
  cbn [getLogsLoop] in H.
  destruct (FilterLogs ethClient fromBlock toBlock attempts) as [unfilteredLogs|err] eqn:Ef.
  - destruct (filterLogs d unfilteredLogs) as [logs'| |] eqn:El; try discriminate H.
    inversion H; subst logs'.
    rewrite (filterLogs_kept unfilteredLogs logs El) in Hin.
    apply filter_In in Hin. destruct Hin as [Hin Hw].
    split; [exact Hw|]. exact (Hrange attempts unfilteredLogs l Ef Hin).
  - destruct (errors_Is err context_Canceled).
    + inversion H; subst logs. contradiction.
    + destruct (rh_Handle d (Z.of_nat (S attempts))); [|discriminate H].
      exact (IH (S attempts) logs H Hrange l Hin).
Qed.

(** How the loop around the node's logs may end. *)
Lemma getLogsLoop_ends (ethClient : EthClient) (fromBlock toBlock : Z) (fuel : nat) :
  forall attempts,
    match getLogsLoop d fuel ethClient fromBlock toBlock attempts with
    | Returns logs => forall l, In l logs -> wanted d l = true
    | Panics =>
        exists calls unfilteredLogs l,
          FilterLogs ethClient fromBlock toBlock calls = inl unfilteredLogs /\
          In l unfilteredLogs /\ Removed l = false /\ Topics l = []
    | Exits => exists n, rh_Handle d n = false
    | Spins => True
    end.
Proof.
  induction fuel as [|fuel IH]; intros attempts; cbn [getLogsLoop]; [exact I|].
  destruct (FilterLogs ethClient fromBlock toBlock attempts) as [unfilteredLogs|err] eqn:Ef.
  - destruct (filterLogs_stops unfilteredLogs) as [(logs & Hlogs)|(l & Hin & Hr & Ht)].
    + rewrite Hlogs. rewrite (filterLogs_kept _ _ Hlogs). intros l Hin.
      apply filter_In in Hin. apply Hin.
    + rewrite (filterLogs_crash unfilteredLogs l Hin Hr Ht).
      exists attempts, unfilteredLogs, l. repeat split; assumption.
  - destruct (errors_Is err context_Canceled); [intros l []|].
    destruct (rh_Handle d (Z.of_nat (S attempts))) eqn:Eh; [apply IH|].
    eexists. exact Eh.
Qed.

(** A header that comes back without cancellation was served by the node. *)
Lemma getBlockHeaderLoop_served (ethClient : EthClient) (blockNum : Z) (fuel : nat) :
  forall calls attempts header,
    getBlockHeaderLoop d fuel ethClient blockNum calls attempts = Returns (header, false) ->
    exists served, HeaderByNumber ethClient blockNum served = inl header.
Proof.
  induction fuel as [|fuel IH]; intros calls attempts header H; [discriminate H|].
  cbn [getBlockHeaderLoop] in H.
  destruct (HeaderByNumber ethClient blockNum calls) as [h|err] eqn:Eh.
  - inversion H; subst h. exists calls. exact Eh.
  - destruct (errors_Is err context_Canceled); [discriminate H|].
    destruct (errors_Is err ethereum_NotFound); [exact (IH _ _ _ H)|].
    destruct (rh_Handle d (Z.of_nat (S attempts))); [exact (IH _ _ _ H)|discriminate H].
Qed.

Lemma getBlockHeaderLoop_ends (ethClient : EthClient) (blockNum : Z) (fuel : nat) :
  forall calls attempts,
    match getBlockHeaderLoop d fuel ethClient blockNum calls attempts with
    | Panics => False
    | Exits => exists n, rh_Handle d n = false
    | _ => True
    end.
Proof.
  induction fuel as [|fuel IH]; intros calls attempts; cbn [getBlockHeaderLoop]; [exact I|].
  destruct (HeaderByNumber ethClient blockNum calls) as [h|err]; [exact I|].
  destruct (errors_Is err context_Canceled); [exact I|].
  destruct (errors_Is err ethereum_NotFound); [apply IH|].
  destruct (rh_Handle d (Z.of_nat (S attempts))) eqn:Eh; [apply IH|].
  eexists. exact Eh.
Qed.

Lemma appendLog_ends (appenderFn : EVMBlock -> Log -> EVMBlock * option error) (l : Log)
  (fuel : nat) :
  forall latestBlock,
    match appendLog d fuel appenderFn latestBlock l with
    | Panics => False
    | Exits => rh_Handle d 1 = false
    | _ => True
    end.
Proof.
  induction fuel as [|fuel IH]; intros latestBlock; cbn [appendLog]; [exact I|].
  destruct (appenderFn latestBlock l) as [b [err|]]; [|exact I].
  destruct (rh_Handle d 1) eqn:Eh; [apply IH|reflexivity].
Qed.

Lemma appendLog_header (appenderFn : EVMBlock -> Log -> EVMBlock * option error) (l : Log)
  (fuel : nat) :
  (forall b, Header (fst (appenderFn b l)) = Header b) ->
  forall latestBlock b,
    appendLog d fuel appenderFn latestBlock l = Returns b -> Header b = Header latestBlock.
Proof.
  intros Hkeeps. induction fuel as [|fuel IH]; intros latestBlock b H; [discriminate H|].
  cbn [appendLog] in H. pose proof (Hkeeps latestBlock) as Hh.
  destruct (appenderFn latestBlock l) as [b' [err|]]; cbn [fst] in Hh.
  - destruct (rh_Handle d 1); [|discriminate H].
    rewrite (IH b' b H). exact Hh.
  - inversion H; subst b'. exact Hh.
Qed.

(** An appender that fails and leaves the block as it was is called again
    without end: the retry handler is told of one attempt each time. *)
Lemma appendLog_spins (appenderFn : EVMBlock -> Log -> EVMBlock * option error) (l : Log)
  (latestBlock : EVMBlock) (err : error) :
  rh_Handle d 1 = true -> appenderFn latestBlock l = (latestBlock, Some err) ->
  forall fuel, appendLog d fuel appenderFn latestBlock l = Spins.
Proof.
  intros Hhandle Hfails fuel. induction fuel as [|fuel IH]; [reflexivity|].
  cbn [appendLog]. rewrite Hfails, Hhandle. exact IH.
Qed.

End Logs.

Section Assembling.
Variable d : EVMDownloaderImplementation.
Variable ethClient : EthClient.
Variables fromBlock toBlock : Z.
Hypothesis Hkeeps : keepsHeader (appender d).

Lemma lookupAppender_in (m : LogAppenderMap) (topic : Z) appenderFn :
  lookupAppender m topic = Some appenderFn -> In (topic, appenderFn) m.
Proof.
  unfold lookupAppender. intros H.
  destruct (find (fun p => fst p =? topic) m) as [[t f]|] eqn:Ef; [|discriminate H].
  apply find_some in Ef. destruct Ef as [Hin Ht]. cbn in Ht, H.
  apply Z.eqb_eq in Ht. inversion H; subst. exact Hin.
Qed.

Lemma opened_head (latestBlock b : EVMBlock) (closed : list EVMBlock) :
  Header b = Header latestBlock ->
  opened ethClient fromBlock toBlock (latestBlock :: closed) ->
  opened ethClient fromBlock toBlock (b :: closed).
Proof.
  intros Hh (Hasc & Hto & Hnode). unfold opened, blockNums in *.
  cbn [rev map] in *. rewrite map_app in *. cbn [map] in *. rewrite Hh.
  split; [exact Hasc|]. split.
  - inversion Hto; subst. constructor; assumption.
  - inversion Hnode as [|? ? Hb Hrest]; subst. constructor; [|exact Hrest].
    unfold fromNode in *. rewrite Hh. exact Hb.
Qed.

Lemma opened_next (b : EVMBlock) (blocks : list EVMBlock) :
  opened ethClient fromBlock toBlock blocks ->
  match blocks with
  | [] => True
  | latestBlock :: _ => Num (Header latestBlock) < Num (Header b)
  end ->
  fromBlock <= Num (Header b) <= toBlock -> fromNode ethClient b ->
  opened ethClient fromBlock toBlock (b :: blocks).
Proof.
  intros (Hasc & Hto & Hnode) Habove Hrange Hb. unfold opened.
  split; [|split].
  - cbn [rev]. unfold blockNums. rewrite map_app. cbn [map].
    apply (ascendingFrom_app _ (Num (Header b))).
    + exact Hasc.
    + apply Forall_forall. intros n Hn.
      destruct blocks as [|latestBlock closed]; [contradiction|].
      pose proof (ascendingFrom_bounds _ _ _ Hasc Hn) as Hbound.
      cbn [rev] in Hbound. unfold blockNums in Hbound.
      rewrite map_app in Hbound. cbn [map] in Hbound. rewrite last_last in Hbound. lia.
    + lia.
    + cbn. split; [lia|exact I].
  - unfold blockNums. cbn [map]. constructor; [lia|exact Hto].
  - constructor; assumption.
Qed.

Lemma assemble_opened (patience : nat) (logs : list Log) :
  forall blocks result,
    (forall l, In l logs -> fromBlock <= Log_BlockNumber l <= toBlock) ->
    opened ethClient fromBlock toBlock blocks ->
    assemble d patience ethClient logs blocks = Assembled result ->
    ascendingFrom fromBlock (blockNums result) /\
    Forall (fun n => n <= toBlock) (blockNums result) /\
    Forall (fromNode ethClient) result.
Proof using Hkeeps.
  induction logs as [|l rest IH]; intros blocks result Hrange Hopened Hrun;
    cbn [assemble] in Hrun.
  - inversion Hrun; subst result. destruct Hopened as (Hasc & Hto & Hnode).
    split; [exact Hasc|]. split.
    + unfold blockNums in *. rewrite map_rev. apply Forall_rev. exact Hto.
    + apply Forall_rev. exact Hnode.
  - assert (Hrest : forall l', In l' rest -> fromBlock <= Log_BlockNumber l' <= toBlock).
    { intros l' Hin. apply Hrange. right. exact Hin. }
    pose proof (Hrange l (or_introl eq_refl)) as Hl.
    assert (Hstep : forall latestBlock closed,
              opened ethClient fromBlock toBlock (latestBlock :: closed) ->
              match Topics l with
              | [] => Crashed
              | topic :: _ =>
                  match lookupAppender (appender d) topic with
                  | Some appenderFn =>
                      match appendLog d patience appenderFn latestBlock l with
                      | Returns b => assemble d patience ethClient rest (b :: closed)
                      | Panics => Crashed
                      | Exits => Exited
                      | Spins => Spinning
                      end
                  | None => Crashed
                  end
              end = Assembled result ->
              ascendingFrom fromBlock (blockNums result) /\
              Forall (fun n => n <= toBlock) (blockNums result) /\
              Forall (fromNode ethClient) result).
    { intros latestBlock closed Hop Hr.
      destruct (Topics l) as [|topic more]; [discriminate Hr|].
      destruct (lookupAppender (appender d) topic) as [appenderFn|] eqn:Ea;
        [|discriminate Hr].
      destruct (appendLog d patience appenderFn latestBlock l) as [b| | |] eqn:Eb;
        try discriminate Hr.
      apply (IH (b :: closed) result Hrest); [|exact Hr].
      apply (opened_head latestBlock); [|exact Hop].
      apply (appendLog_header d appenderFn l patience); [|exact Eb].
      intros b0. apply (Hkeeps topic). apply lookupAppender_in. exact Ea. }
    destruct (match blocks with
              | [] => true
              | latestBlock :: _ => Num (Header latestBlock) <? Log_BlockNumber l
              end) eqn:Enew.
    + destruct (GetBlockHeader d patience ethClient (Log_BlockNumber l))
        as [[header canceled]| | |] eqn:Eh; try discriminate Hrun.
      destruct canceled; [discriminate Hrun|].
      destruct (BlockHash header =? Log_BlockHash l) eqn:Ehash; cbn [negb] in Hrun;
        [|discriminate Hrun].
      apply Z.eqb_eq in Ehash.
      destruct (getBlockHeaderLoop_served d ethClient _ patience _ _ _ Eh) as (served & Hs).
      refine (Hstep _ blocks _ Hrun).
      apply opened_next; [exact Hopened| |exact Hl|].
      * destruct blocks as [|latestBlock closed]; [exact I|].
        apply Z.ltb_lt in Enew. exact Enew.
      * exists served, header. cbn. split; [exact Hs|]. split; [symmetry; exact Ehash|].
        split; reflexivity.
    + destruct blocks as [|latestBlock closed]; [discriminate Enew|].
      apply (Hstep latestBlock closed Hopened Hrun).
Qed.

End Assembling.

Section Retrying.
Variable d : EVMDownloaderImplementation.
Variable node : Z -> EthClient.
Variables fromBlock toBlock : Z.

Lemma retry_result (patience fuel : nat) :
  forall retryCount blocks,
    0 <= retryCount <= MaxRetryCountBlockHashMismatch ->
    getEventsByBlockRangeWithRetry d patience fuel node fromBlock toBlock retryCount
      = Returns blocks ->
    exists attempt,
      retryCount <= attempt <= MaxRetryCountBlockHashMismatch /\
      (blocks = [] \/
       exists logs,
         GetLogs d patience (node attempt) fromBlock toBlock = Returns logs /\
         assemble d patience (node attempt) logs [] = Assembled blocks).
Proof.
  unfold MaxRetryCountBlockHashMismatch.
  induction fuel as [|fuel IH]; intros retryCount blocks Hcount Hrun; [discriminate Hrun|].
  cbn [getEventsByBlockRangeWithRetry] in Hrun.
  destruct (ctx_Done (node retryCount)).
  { inversion Hrun. exists retryCount. split; [lia|]. left. reflexivity. }
  destruct (GetLogs d patience (node retryCount) fromBlock toBlock) as [logs| | |] eqn:Elogs;
    try discriminate Hrun.
  destruct (assemble d patience (node retryCount) logs []) as [result| | | | |] eqn:Easm;
    try discriminate Hrun.
  - inversion Hrun; subst result. exists retryCount. split; [lia|].
    right. exists logs. split; [exact Elogs|exact Easm].
  - inversion Hrun. exists retryCount. split; [lia|]. left. reflexivity.
  - unfold MaxRetryCountBlockHashMismatch in Hrun.
    destruct (5 <=? retryCount) eqn:Emax.
    + inversion Hrun. exists retryCount. split; [lia|]. left. reflexivity.
    + apply Z.leb_gt in Emax. rewrite int64_small in Hrun by lia.
      destruct (IH (retryCount + 1) blocks ltac:(lia) Hrun) as (attempt & Ha & Hres).
      exists attempt. split; [lia|exact Hres].
Qed.

(** Whatever the order in which the node lists the logs, the blocks handed
    back by [GetEventsByBlockRange] come in strictly ascending order of
    their numbers, inside the range when the node honours it, and the hash,
    parent hash and timestamp of each are those of a header of that number
    that the node served in one and the same attempt, one of the first
    six. *)
Theorem GetEventsByBlockRange_blocks_ascend (patience fuel : nat) (blocks : list EVMBlock) :
  keepsHeader (appender d) ->
  (forall attempt, honoursRange (node attempt) fromBlock toBlock) ->
  GetEventsByBlockRange d patience fuel node fromBlock toBlock = Returns blocks ->
  ascendingFrom fromBlock (blockNums blocks) /\
  Forall (fun n => n <= toBlock) (blockNums blocks) /\
  exists attempt, 0 <= attempt <= MaxRetryCountBlockHashMismatch /\
    Forall (fromNode (node attempt)) blocks.
Proof.
  intros Hkeeps Hrange Hrun. unfold GetEventsByBlockRange in Hrun.
  destruct (retry_result patience fuel 0 blocks
              ltac:(unfold MaxRetryCountBlockHashMismatch; lia) Hrun)
    as (attempt & Hattempt & Hres).
  destruct Hres as [->|(logs & Hlogs & Hasm)].
  - split; [exact I|]. split; [constructor|]. exists attempt. split; [exact Hattempt|constructor].
  - destruct (assemble_opened d (node attempt) fromBlock toBlock Hkeeps patience logs [] blocks)
      as (Hasc & Hto & Hnode).
    + intros l Hin.
      apply (getLogsLoop_from_node d (node attempt) fromBlock toBlock patience 0 logs Hlogs
               (Hrange attempt) l Hin).
    + split; [exact I|]. split; constructor.
    + exact Hasm.
    + split; [exact Hasc|]. split; [exact Hto|]. exists attempt. split; assumption.
Qed.

End Retrying.

Section Constructed.
Variable m : LogAppenderMap.
Variable rh : Z -> bool.
Variable node : Z -> EthClient.
Variables fromBlock toBlock : Z.

Lemma lookupAppender_queried (topic : Z) :
  existsb (Z.eqb topic) (GetTopics m) = true ->
  exists appenderFn, lookupAppender m topic = Some appenderFn.
Proof.
  unfold GetTopics, lookupAppender. intros H.
  apply existsb_exists in H. destruct H as (t & Hin & Heq).
  apply Z.eqb_eq in Heq. subst t. apply in_map_iff in Hin.
  destruct Hin as ([t f] & Ht & Hin). cbn in Ht. subst t.
  destruct (find (fun p => fst p =? topic) m) as [p|] eqn:Ef.
  - exists (snd p). reflexivity.
  - exfalso. apply (find_none _ _ Ef (topic, f)) in Hin. cbn in Hin.
    rewrite Z.eqb_refl in Hin. discriminate Hin.
Qed.

(** Over logs that [GetLogs] kept, the loop of a constructed downloader
    asks for no appender that is missing; it stops early only when the
    retry handler ends the process or a loop inside it is still turning. *)
Lemma assemble_ends (patience : nat) (ethClient : EthClient) (logs : list Log) :
  (forall blockNum, GetBlockHeader (NewEVMDownloaderImplementation m rh) patience ethClient
                      blockNum <> Spins) ->
  (forall topic appenderFn b l, In (topic, appenderFn) m ->
     appendLog (NewEVMDownloaderImplementation m rh) patience appenderFn b l <> Spins) ->
  forall blocks,
    (forall l, In l logs -> wanted (NewEVMDownloaderImplementation m rh) l = true) ->
    match assemble (NewEVMDownloaderImplementation m rh) patience ethClient logs blocks with
    | Crashed | Spinning => False
    | Exited => exists n, rh n = false
    | _ => True
    end.
Proof.
  intros Hheader Happend.
  induction logs as [|l rest IH]; intros blocks Hwanted; cbn [assemble]; [exact I|].
  assert (Hrest : forall l', In l' rest ->
            wanted (NewEVMDownloaderImplementation m rh) l' = true).
  { intros l' Hin. apply Hwanted. right. exact Hin. }
  pose proof (Hwanted l (or_introl eq_refl)) as Hl. unfold wanted in Hl.
  apply andb_true_iff in Hl. destruct Hl as [_ Hl].
  destruct (Topics l) as [|topic more]; [discriminate Hl|].
  cbn [NewEVMDownloaderImplementation topicsToQuery appender] in Hl |- *.
  destruct (lookupAppender_queried topic Hl) as (appenderFn & Hfound). rewrite Hfound.
  assert (Hstep : forall latestBlock closed,
            match
              match appendLog (NewEVMDownloaderImplementation m rh) patience appenderFn
                      latestBlock l with
              | Returns b =>
                  assemble (NewEVMDownloaderImplementation m rh) patience ethClient rest
                    (b :: closed)
              | Panics => Crashed
              | Exits => Exited
              | Spins => Spinning
              end
            with
            | Crashed | Spinning => False
            | Exited => exists n, rh n = false
            | _ => True
            end).
  { intros latestBlock closed.
    pose proof (appendLog_ends (NewEVMDownloaderImplementation m rh) appenderFn l patience
                  latestBlock) as Hends.
    pose proof (Happend topic appenderFn latestBlock l
                  (lookupAppender_in m topic appenderFn Hfound)) as Hturns.
    destruct (appendLog (NewEVMDownloaderImplementation m rh) patience appenderFn
                latestBlock l) as [b| | |].
    - apply IH. exact Hrest.
    - contradiction.
    - exists 1. exact Hends.
    - contradiction. }
  destruct (match blocks with
            | [] => true
            | latestBlock :: _ => Num (Header latestBlock) <? Log_BlockNumber l
            end) eqn:Enew.
  - pose proof (getBlockHeaderLoop_ends (NewEVMDownloaderImplementation m rh) ethClient
                  (Log_BlockNumber l) patience 0 0) as Hends.
    pose proof (Hheader (Log_BlockNumber l)) as Hturns.
    unfold GetBlockHeader in *.
    destruct (getBlockHeaderLoop (NewEVMDownloaderImplementation m rh) patience ethClient
                (Log_BlockNumber l) 0 0) as [[b canceled]| | |].
    + destruct canceled; [exact I|].
      destruct (negb (BlockHash b =? Log_BlockHash l)); [exact I|].
      apply Hstep.
    + contradiction.
    + exact Hends.
    + contradiction.
  - destruct blocks as [|latestBlock closed]; [discriminate Enew|].
    apply Hstep.
Qed.

Lemma retry_ends (patience left : nat) :
  (forall attempt, GetLogs (NewEVMDownloaderImplementation m rh) patience (node attempt)
                     fromBlock toBlock <> Spins) ->
  (forall attempt blockNum,
     GetBlockHeader (NewEVMDownloaderImplementation m rh) patience (node attempt) blockNum
     <> Spins) ->
  (forall topic appenderFn b l, In (topic, appenderFn) m ->
     appendLog (NewEVMDownloaderImplementation m rh) patience appenderFn b l <> Spins) ->
  forall retryCount,
    0 <= retryCount -> retryCount + Z.of_nat left = MaxRetryCountBlockHashMismatch ->
    endsWell (NewEVMDownloaderImplementation m rh) node fromBlock toBlock
      (getEventsByBlockRangeWithRetry (NewEVMDownloaderImplementation m rh) patience (S left)
         node fromBlock toBlock retryCount).
Proof.
  unfold MaxRetryCountBlockHashMismatch. intros Hlogs Hheader Happend.
  induction left as [|left IH]; intros retryCount Hcount Hleft;
    cbn [getEventsByBlockRangeWithRetry];
    (destruct (ctx_Done (node retryCount)); [exact I|]);
    pose proof (getLogsLoop_ends (NewEVMDownloaderImplementation m rh) (node retryCount)
                  fromBlock toBlock patience 0) as Hends;
    pose proof (Hlogs retryCount) as Hturns; unfold GetLogs in *;
    (destruct (getLogsLoop (NewEVMDownloaderImplementation m rh) patience (node retryCount)
                 fromBlock toBlock 0) as [logs| | |];
       [|destruct Hends as (calls & unfilteredLogs & l & Hpanic);
         exists retryCount, calls, unfilteredLogs, l; exact Hpanic
        |exact Hends|contradiction]);
    pose proof (assemble_ends patience (node retryCount) logs (Hheader retryCount) Happend
                  [] Hends) as Hasm;
    (destruct (assemble (NewEVMDownloaderImplementation m rh) patience (node retryCount)
                 logs []); try exact I; try contradiction; try exact Hasm);
    unfold MaxRetryCountBlockHashMismatch;
    (destruct (5 <=? retryCount) eqn:E; [exact I|]);
    apply Z.leb_gt in E.
  - lia.
  - rewrite int64_small by lia. apply IH; lia.
Qed.

(** A downloader built by its constructor makes at most six attempts, the
    first and five retries after a block hash mismatch, provided the loops
    inside an attempt come to an end: the loop that asks the node for the
    logs, the one that asks it for a header, and the one around each
    appender.  The call then returns, unless the retry handler ends the
    process, or the node sends a log that is not removed and has no topic,
    which is the one way to panic: no appender that is missing is asked
    for. *)
Theorem GetEventsByBlockRange_ends_within_six_attempts (patience : nat) :
  (forall attempt, GetLogs (NewEVMDownloaderImplementation m rh) patience (node attempt)
                     fromBlock toBlock <> Spins) ->
  (forall attempt blockNum,
     GetBlockHeader (NewEVMDownloaderImplementation m rh) patience (node attempt) blockNum
     <> Spins) ->
  (forall topic appenderFn b l, In (topic, appenderFn) m ->
     appendLog (NewEVMDownloaderImplementation m rh) patience appenderFn b l <> Spins) ->
  endsWell (NewEVMDownloaderImplementation m rh) node fromBlock toBlock
    (GetEventsByBlockRange (NewEVMDownloaderImplementation m rh) patience 6 node
       fromBlock toBlock).
Proof.
  intros Hlogs Hheader Happend. unfold GetEventsByBlockRange.
  apply (retry_ends patience 5 Hlogs Hheader Happend 0); [lia|reflexivity].
Qed.

End Constructed.

Section Spinning.
Variable d : EVMDownloaderImplementation.
Variable node : Z -> EthClient.
Variables fromBlock toBlock : Z.

(** An appender that fails is called again without end.  The number of
    attempts starts at 0 in every turn of the loop around the appender, so
    the retry handler is told of one attempt whatever the number of
    failures: when it lets one attempt pass, and the appender of the first
    log that is kept fails leaving the block as it was, no amount of fuel
    makes [GetEventsByBlockRange] return. *)
Theorem failing_appender_is_retried_for_ever (patience fuel : nat) (l : Log)
  (rest : list Log) (topic : Z) (more : list Z) (header : EVMBlockHeader)
  (appenderFn : EVMBlock -> Log -> EVMBlock * option error) (err : error) :
  rh_Handle d 1 = true ->
  ctx_Done (node 0) = false ->
  FilterLogs (node 0) fromBlock toBlock 0 = inl (l :: rest) ->
  (forall l', In l' rest -> Removed l' = false -> Topics l' <> []) ->
  Removed l = false -> Topics l = topic :: more ->
  existsb (Z.eqb topic) (topicsToQuery d) = true ->
  lookupAppender (appender d) topic = Some appenderFn ->
  HeaderByNumber (node 0) (Log_BlockNumber l) 0 = inl header ->
  BlockHash header = Log_BlockHash l ->
  (forall b, appenderFn b l = (b, Some err)) ->
  GetEventsByBlockRange d patience fuel node fromBlock toBlock = Spins.
Proof.
  intros Hhandle Hctx Hlogs Hrest Hremoved Htopics Hquery Hfound Hheader Hhash Hfails.
  unfold GetEventsByBlockRange.
  destruct fuel as [|fuel]; [reflexivity|].
  cbn [getEventsByBlockRangeWithRetry]. rewrite Hctx.
  destruct patience as [|patience]; [reflexivity|].
  unfold GetLogs. cbn [getLogsLoop]. rewrite Hlogs.
  cbn [filterLogs]. rewrite Hremoved, Htopics.
  destruct (filterLogs_total d rest Hrest) as (logs & ->). rewrite Hquery.
  cbn [assemble]. unfold GetBlockHeader. cbn [getBlockHeaderLoop].
  rewrite Hheader, Hhash, Z.eqb_refl. cbn [negb]. rewrite Htopics, Hfound.
  rewrite (appendLog_spins d appenderFn l _ err Hhandle (Hfails _)). reflexivity.
Qed.

End Spinning.


Lemma reorgNode_honoursRange (attempt : Z) : honoursRange (reorgNode attempt) 10 20.
Proof.
  intros calls logs l H Hin. cbn in H. destruct calls as [|calls]; [discriminate H|].
  inversion H; subst logs.
  cbn in Hin. destruct Hin as [<-|[<-|[<-|[<-|[]]]]]; cbn; lia.
Qed.

Lemma dataDownloader_keepsHeader : keepsHeader (appender dataDownloader).
Proof.
  intros topic appenderFn b l Hin. cbn in Hin.
  destruct Hin as [Heq|[]]. inversion Heq; subst. reflexivity.
Qed.

(** The first answer of the node is an error that the retry handler lets
    pass; the second holds the four logs. *)
Lemma GetLogs_keeps_wanted_logs_witness :
  GetLogs dataDownloader 2 (reorgNode 0) 10 20
  = Returns (filter (wanted dataDownloader)
               [logAt 12 1012 1 70; logAt 12 1012 9 71; logAt 14 1014 1 72;
                logAt 13 1013 1 73]).
Proof.
  refine (proj1 (GetLogs_keeps_wanted_logs dataDownloader (reorgNode 0) 10 20 1 0 _)
            _ eq_refl _).
  - intros i Hi. exists (Sentinel "foo").
    assert (i = 0%nat) as -> by lia. repeat split.
  - intros l Hin _. cbn in Hin.
    destruct Hin as [<-|[<-|[<-|[<-|[]]]]]; discriminate.
Defined.

Lemma GetEventsByBlockRange_blocks_ascend_witness :
  ascendingFrom 10
    (blockNums [{| Header := headerOf 12; IsFinalizedBlock := false; Events := [70] |};
                {| Header := headerOf 14; IsFinalizedBlock := false; Events := [72; 73] |}]) /\
  Forall (fun n => n <= 20)
    (blockNums [{| Header := headerOf 12; IsFinalizedBlock := false; Events := [70] |};
                {| Header := headerOf 14; IsFinalizedBlock := false; Events := [72; 73] |}]) /\
  exists attempt, 0 <= attempt <= MaxRetryCountBlockHashMismatch /\
    Forall (fromNode (reorgNode attempt))
      [{| Header := headerOf 12; IsFinalizedBlock := false; Events := [70] |};
       {| Header := headerOf 14; IsFinalizedBlock := false; Events := [72; 73] |}].
Proof.
  apply (GetEventsByBlockRange_blocks_ascend dataDownloader reorgNode 10 20 2 6).
  - exact dataDownloader_keepsHeader.
  - exact reorgNode_honoursRange.
  - vm_compute. reflexivity.
Defined.

Lemma reorgNode_header_served (attempt blockNum : Z) :
  GetBlockHeader dataDownloader 2 (reorgNode attempt) blockNum <> Spins.
Proof.
  unfold GetBlockHeader. cbn [getBlockHeaderLoop reorgNode HeaderByNumber].
  destruct ((blockNum =? 12) && (attempt <? 2)); [discriminate|].
  destruct (blockNum =? 14); [|discriminate].
  cbn. discriminate.
Qed.

Lemma GetEventsByBlockRange_ends_within_six_attempts_witness :
  endsWell dataDownloader reorgNode 10 20
    (GetEventsByBlockRange dataDownloader 2 6 reorgNode 10 20).
Proof.
  apply (GetEventsByBlockRange_ends_within_six_attempts [(1, recordData)] fiveAttempts
           reorgNode 10 20 2).
  - intros attempt. vm_compute. discriminate.
  - exact reorgNode_header_served.
  - intros topic appenderFn b l Hin. cbn in Hin. destruct Hin as [Heq|[]].
    inversion Heq; subst. cbn. discriminate.
Defined.

(** The downloader whose appender rejects the logs, over the node of the
    scenario at the attempt numbered 2, where the hashes agree. *)
Lemma failing_appender_is_retried_for_ever_witness :
  GetEventsByBlockRange rejectingDownloader 1000 6
    (fun _ => {| ctx_Done := false;
                 FilterLogs := fun _ _ _ => inl [logAt 12 1012 1 70];
                 HeaderByNumber := fun n _ => inl (headerOf n) |}) 10 20 = Spins.
Proof.
  apply (failing_appender_is_retried_for_ever rejectingDownloader _ 10 20 1000 6
           (logAt 12 1012 1 70) [] 1 [] (headerOf 12) rejectLog
           (Sentinel "cannot decode the log")).
  - reflexivity.
  - reflexivity.
  - reflexivity.
  - intros l' [].
  - reflexivity.
  - reflexivity.
  - reflexivity.
  - reflexivity.
  - reflexivity.
  - reflexivity.
  - intros b. reflexivity.
Defined.

End SyncImplementationFacts.

Module L1InfoTreeSyncFacts.
Import Machine MachineFacts GoError L1InfoTreeSync.

Section Readers.
Variable EmptyProof : Proof.
Variable s : processor.

(** C7: while the processor is halted, every public reader of L1InfoTreeSync
    returns ErrInconsistentState, whatever its arguments. *)
Theorem halted_readers_fail :
  isHalted s = true ->
  (forall index, GetL1InfoTreeMerkleProof s index = Fail ErrInconsistentState) /\
  (forall networkID root,
     GetRollupExitTreeMerkleProof EmptyProof s networkID root = Fail ErrInconsistentState) /\
  (forall blockNum, GetLatestInfoUntilBlock s blockNum = Fail ErrInconsistentState) /\
  (forall index, GetInfoByIndex s index = Fail ErrInconsistentState) /\
  (forall index, GetL1InfoTreeRootByIndex s index = Fail ErrInconsistentState) /\
  GetLastRollupExitRoot s = Fail ErrInconsistentState /\
  GetLastL1InfoTreeRoot s = Fail ErrInconsistentState /\
  GetLastProcessedBlock s = Fail ErrInconsistentState /\
  (forall networkID rollupExitRoot,
     GetLocalExitRoot s networkID rollupExitRoot = Fail ErrInconsistentState) /\
  (forall rollupID, GetLastVerifiedBatches s rollupID = Fail ErrInconsistentState) /\
  (forall rollupID, GetFirstVerifiedBatches s rollupID = Fail ErrInconsistentState) /\
  (forall rollupID blockNum,
     GetFirstVerifiedBatchesAfterBlock s rollupID blockNum = Fail ErrInconsistentState) /\
  (forall rollupExitRoot,
     GetFirstL1InfoWithRollupExitRoot s rollupExitRoot = Fail ErrInconsistentState) /\
  GetLastInfo s = Fail ErrInconsistentState /\
  GetFirstInfo s = Fail ErrInconsistentState /\
  (forall blockNum, GetFirstInfoAfterBlock s blockNum = Fail ErrInconsistentState) /\
  (forall ger, GetInfoByGlobalExitRoot s ger = Fail ErrInconsistentState) /\
  (forall index root,
     GetL1InfoTreeMerkleProofFromIndexToRoot s index root = Fail ErrInconsistentState) /\
  GetInitL1InfoRootMap s = Fail ErrInconsistentState /\
  (forall blockNum, GetProcessedBlockUntil s blockNum = Fail ErrInconsistentState).
Proof.
  intros Hhalted.
  unfold GetL1InfoTreeMerkleProof, GetRollupExitTreeMerkleProof, GetLatestInfoUntilBlock,
    GetInfoByIndex, GetL1InfoTreeRootByIndex, GetLastRollupExitRoot, GetLastL1InfoTreeRoot,
    GetLastProcessedBlock, GetLocalExitRoot, GetLastVerifiedBatches, GetFirstVerifiedBatches,
    GetFirstVerifiedBatchesAfterBlock, GetFirstL1InfoWithRollupExitRoot, GetLastInfo,
    GetFirstInfo, GetFirstInfoAfterBlock, GetInfoByGlobalExitRoot,
    GetL1InfoTreeMerkleProofFromIndexToRoot, GetInitL1InfoRootMap, GetProcessedBlockUntil.
  rewrite Hhalted. repeat split.
Qed.

(** C9: with the processor not halted, network 0 gets [tree.EmptyProof] and
    no error whatever rollup exit tree stands behind the processor, and a
    network id from 1 on is looked up as leaf networkID - 1 of that tree. *)
Theorem rollup_proof_of_network_zero :
  isHalted s = false ->
  (forall root lastRoot getLeaf getProof,
     GetRollupExitTreeMerkleProof EmptyProof
       (withRollupExitTree s lastRoot getLeaf getProof) 0 root = Ok EmptyProof) /\
  (forall networkID root, 1 <= networkID < 2 ^ 32 ->
     GetRollupExitTreeMerkleProof EmptyProof s networkID root
     = rollupExitTree_GetProof s (networkID - 1) root).
Proof.
  intros Hrun. split.
  - intros root lastRoot getLeaf getProof.
    unfold GetRollupExitTreeMerkleProof, isHalted, withRollupExitTree. cbn [halted].
    unfold isHalted in Hrun. rewrite Hrun. reflexivity.
  - intros networkID root Hid. unfold GetRollupExitTreeMerkleProof. rewrite Hrun.
    destruct (networkID =? 0) eqn:E; [apply Z.eqb_eq in E; lia|].
    rewrite u32_small by lia. reflexivity.
Qed.

End Readers.

Section Translation.
Variable s : processor.

(** An error of GetLatestInfoUntilBlock never matches the not-found error of
    the database: it is ErrInconsistentState, or the package's ErrNotFound
    standing for a database not-found (its wrapping is dropped), or the
    processor's error unchanged. *)
Theorem latest_info_never_surfaces_db_not_found (blockNum : Z) (e : error) :
  GetLatestInfoUntilBlock s blockNum = Fail e ->
  errors_Is e db_ErrNotFound = false /\
  ((isHalted s = true /\ e = ErrInconsistentState) \/
   exists err, isHalted s = false /\ p_GetLatestInfoUntilBlock s blockNum = Fail err /\
     ((errors_Is err db_ErrNotFound = true /\ e = ErrNotFound) \/
      (errors_Is err db_ErrNotFound = false /\ e = err))).
Proof.
  unfold GetLatestInfoUntilBlock. intros H.
  destruct (isHalted s) eqn:Eh.
  - inversion H; subst e. split; [reflexivity|]. left. split; reflexivity.
  - destruct (p_GetLatestInfoUntilBlock s blockNum) as [leaf|err|] eqn:Ep;
      try discriminate H.
    inversion H as [He]. clear H. subst e. unfold translateError.
    destruct (errors_Is err db_ErrNotFound) eqn:Eis.
    + split; [reflexivity|]. right. exists err. split; [reflexivity|].
      split; [reflexivity|]. left. split; [exact Eis|reflexivity].
    + split; [exact Eis|]. right. exists err. split; [reflexivity|].
      split; [reflexivity|]. right. split; [exact Eis|reflexivity].
Qed.

End Translation.

Lemma latest_info_never_surfaces_db_not_found_witness :
  errors_Is ErrNotFound db_ErrNotFound = false /\
  ((isHalted (emptyProcessor false) = true /\ ErrNotFound = ErrInconsistentState) \/
   exists err, isHalted (emptyProcessor false) = false /\
     p_GetLatestInfoUntilBlock (emptyProcessor false) 7 = Fail err /\
     ((errors_Is err db_ErrNotFound = true /\ ErrNotFound = ErrNotFound) \/
      (errors_Is err db_ErrNotFound = false /\ ErrNotFound = err))).
Proof.
  apply (latest_info_never_surfaces_db_not_found (emptyProcessor false) 7 ErrNotFound).
  reflexivity.
Defined.

Lemma halted_readers_fail_witness :
  GetLastProcessedBlock (emptyProcessor true) = Fail ErrInconsistentState.
Proof.
  apply (halted_readers_fail [] (emptyProcessor true)). reflexivity.
Defined.

Lemma rollup_proof_of_network_zero_witness :
  GetRollupExitTreeMerkleProof [0; 0; 0]
    (withRollupExitTree (emptyProcessor false) (Fail db_ErrNotFound)
       (fun _ _ => Fail db_ErrNotFound) (fun _ _ => Ok [7])) 0 5 = Ok [0; 0; 0].
Proof.
  apply (rollup_proof_of_network_zero [0; 0; 0] (emptyProcessor false)). reflexivity.
Defined.

End L1InfoTreeSyncFacts.

Module BridgeServiceFacts.
Import Machine MachineFacts GoError L1InfoTreeSync BridgeService.

Section Covering.
Variable b : BridgeService.

(** What the searches do guarantee: the leaf, or the verified batch, they end
    with has a deposit count at or above the one asked for. *)
Lemma searchL1_covers (depositCount : Z) (fuel : nat) :
  forall best lower upper r,
    (exists root, bridgeL1_GetRootByLER b (MainnetExitRoot best) = Ok root /\
                  depositCount <= Root_Index root) ->
    searchL1 b fuel depositCount best lower upper = Some (Ok r) ->
    exists root, bridgeL1_GetRootByLER b (MainnetExitRoot r) = Ok root /\
                 depositCount <= Root_Index root.
Proof.
  induction fuel as [|fuel IH]; intros best lower upper r Hbest Hrun; [discriminate Hrun|].
  cbn [searchL1] in Hrun.
  destruct (lower <=? upper).
  2:{ inversion Hrun; subst. exact Hbest. }
  destruct (l1InfoTree_GetFirstInfoAfterBlock b _) as [targetInfo|e|]; try discriminate Hrun.
  destruct (bridgeL1_GetRootByLER b (MainnetExitRoot targetInfo)) as [root|e|] eqn:Eroot;
    try discriminate Hrun.
  destruct (Root_Index root <? depositCount) eqn:Elt.
  - eapply IH; eassumption.
  - apply Z.ltb_ge in Elt.
    destruct (Root_Index root =? depositCount).
    + inversion Hrun; subst. exists root. split; assumption.
    + eapply IH; [|exact Hrun]. exists root. split; assumption.
Qed.

Lemma lookupL1_covers (depositCount : Z) (fuel : nat) (index : Z) :
  getFirstL1InfoTreeIndexForL1Bridge b fuel depositCount = Some (Ok index) ->
  exists leaf root, L1InfoTreeIndex leaf = index /\
    bridgeL1_GetRootByLER b (MainnetExitRoot leaf) = Ok root /\
    depositCount <= Root_Index root.
Proof.
  unfold getFirstL1InfoTreeIndexForL1Bridge. intros Hrun.
  destruct (l1InfoTree_GetLastInfo b) as [lastInfo|e|]; try discriminate Hrun.
  destruct (bridgeL1_GetRootByLER b (MainnetExitRoot lastInfo)) as [root|e|] eqn:Eroot;
    try discriminate Hrun.
  destruct (Root_Index root <? depositCount) eqn:Elt; [discriminate Hrun|].
  apply Z.ltb_ge in Elt.
  destruct (l1InfoTree_GetFirstInfo b) as [firstInfo|e|]; try discriminate Hrun.
  destruct (searchL1 b fuel depositCount lastInfo (BlockNumber firstInfo)
              (BlockNumber lastInfo)) as [[r|e|]|] eqn:Es; try discriminate Hrun.
  inversion Hrun; subst index.
  apply searchL1_covers in Es; [|exists root; split; assumption].
  destruct Es as (root' & Hr & Hc). exists r, root'. repeat split; assumption.
Qed.

Lemma searchL2_covers (depositCount : Z) (fuel : nat) :
  forall best lower upper r,
    (exists root, bridgeL2_GetRootByLER b (ExitRoot best) = Ok root /\
                  depositCount <= Root_Index root) ->
    searchL2 b fuel depositCount best lower upper = Some (Ok r) ->
    exists root, bridgeL2_GetRootByLER b (ExitRoot r) = Ok root /\
                 depositCount <= Root_Index root.
Proof.
  induction fuel as [|fuel IH]; intros best lower upper r Hbest Hrun; [discriminate Hrun|].
  cbn [searchL2] in Hrun.
  destruct (lower <=? upper).
  2:{ inversion Hrun; subst. exact Hbest. }
  destruct (l1InfoTree_GetFirstVerifiedBatchesAfterBlock b (networkID b) _)
    as [targetVerified|e|]; try discriminate Hrun.
  destruct (bridgeL2_GetRootByLER b (ExitRoot targetVerified)) as [root|e|] eqn:Eroot;
    try discriminate Hrun.
  destruct (Root_Index root <? depositCount) eqn:Elt.
  - eapply IH; eassumption.
  - apply Z.ltb_ge in Elt.
    destruct (Root_Index root =? depositCount).
    + inversion Hrun; subst. exists root. split; assumption.
    + eapply IH; [|exact Hrun]. exists root. split; assumption.
Qed.

Lemma lookupL2_covers (depositCount : Z) (fuel : nat) (index : Z) :
  getFirstL1InfoTreeIndexForL2Bridge b fuel depositCount = Some (Ok index) ->
  exists verified root leaf,
    l1InfoTree_GetFirstL1InfoWithRollupExitRoot b (VB_RollupExitRoot verified) = Ok leaf /\
    L1InfoTreeIndex leaf = index /\
    bridgeL2_GetRootByLER b (ExitRoot verified) = Ok root /\
    depositCount <= Root_Index root.
Proof.
  unfold getFirstL1InfoTreeIndexForL2Bridge. intros Hrun.
  destruct (l1InfoTree_GetLastVerifiedBatches b (networkID b)) as [lastVerified|e|];
    try discriminate Hrun.
  destruct (bridgeL2_GetRootByLER b (ExitRoot lastVerified)) as [root|e|] eqn:Eroot;
    try discriminate Hrun.
  destruct (Root_Index root <? depositCount) eqn:Elt; [discriminate Hrun|].
  apply Z.ltb_ge in Elt.
  destruct (l1InfoTree_GetFirstVerifiedBatches b (networkID b)) as [firstVerified|e|];
    try discriminate Hrun.
  destruct (searchL2 b fuel depositCount lastVerified (VB_BlockNumber firstVerified)
              (VB_BlockNumber lastVerified)) as [[r|e|]|] eqn:Es; try discriminate Hrun.
  destruct (l1InfoTree_GetFirstL1InfoWithRollupExitRoot b (VB_RollupExitRoot r))
    as [leaf|e|] eqn:Eleaf; try discriminate Hrun.
  inversion Hrun; subst index.
  apply searchL2_covers in Es; [|exists root; split; assumption].
  destruct Es as (root' & Hr & Hc). exists r, root', leaf. repeat split; assumption.
Qed.

(** What an answer of the endpoint means.  A 200 for network 0 names the
    tree index of a leaf whose mainnet exit root covers the deposit count;
    a 200 for the network of the service names the first leaf with the
    rollup exit root of a verified batch whose exit root covers it.  A 400
    is given to every other network, without any lookup.  A 500 carries the
    error of the lookup, and that includes a bridge that is not on the L1
    info tree yet. *)
Theorem l1_info_tree_index_answers (fuel : nat) (network depositCount : Z) :
  (forall response,
     L1InfoTreeIndexForBridgeHandler b fuel (Ok network) (Ok depositCount)
       = Some (Ok response) ->
     match response with
     | StatusOK index =>
         (network = mainnetNetworkID /\
          exists leaf root, L1InfoTreeIndex leaf = index /\
            bridgeL1_GetRootByLER b (MainnetExitRoot leaf) = Ok root /\
            depositCount <= Root_Index root) \/
         (network <> mainnetNetworkID /\ network = networkID b /\
          exists verified root leaf,
            l1InfoTree_GetFirstL1InfoWithRollupExitRoot b (VB_RollupExitRoot verified)
              = Ok leaf /\
            L1InfoTreeIndex leaf = index /\
            bridgeL2_GetRootByLER b (ExitRoot verified) = Ok root /\
            depositCount <= Root_Index root)
     | StatusBadRequest => network <> mainnetNetworkID /\ network <> networkID b
     | StatusInternalServerError err =>
         (network = mainnetNetworkID /\
          getFirstL1InfoTreeIndexForL1Bridge b fuel depositCount = Some (Fail err)) \/
         (network <> mainnetNetworkID /\ network = networkID b /\
          getFirstL1InfoTreeIndexForL2Bridge b fuel depositCount = Some (Fail err))
     end) /\
  (network <> mainnetNetworkID -> network <> networkID b ->
   L1InfoTreeIndexForBridgeHandler b fuel (Ok network) (Ok depositCount)
     = Some (Ok StatusBadRequest)) /\
  (getFirstL1InfoTreeIndexForL1Bridge b fuel depositCount = Some (Fail ErrNotOnL1Info) ->
   L1InfoTreeIndexForBridgeHandler b fuel (Ok mainnetNetworkID) (Ok depositCount)
     = Some (Ok (StatusInternalServerError ErrNotOnL1Info))).
Proof.
  split; [|split].
  - intros response. unfold L1InfoTreeIndexForBridgeHandler.
    destruct (network =? mainnetNetworkID) eqn:E0.
    + apply Z.eqb_eq in E0.
      destruct (getFirstL1InfoTreeIndexForL1Bridge b fuel depositCount) as [[index|e|]|] eqn:El;
        intros H; try discriminate H; inversion H; subst response.
      * left. split; [exact E0|]. exact (lookupL1_covers depositCount fuel index El).
      * left. split; [exact E0|reflexivity].
    + apply Z.eqb_neq in E0.
      destruct (networkID b =? network) eqn:E1.
      * apply Z.eqb_eq in E1.
        destruct (getFirstL1InfoTreeIndexForL2Bridge b fuel depositCount)
          as [[index|e|]|] eqn:El;
          intros H; try discriminate H; inversion H; subst response.
        -- right. split; [exact E0|]. split; [symmetry; exact E1|].
           exact (lookupL2_covers depositCount fuel index El).
        -- right. split; [exact E0|]. split; [symmetry; exact E1|reflexivity].
      * apply Z.eqb_neq in E1. intros H. inversion H; subst response.
        split; [exact E0|]. intros Heq. apply E1. symmetry. exact Heq.
  - intros H0 H1. unfold L1InfoTreeIndexForBridgeHandler.
    apply Z.eqb_neq in H0. rewrite H0.
    assert (E1 : (networkID b =? network) = false).
    { apply Z.eqb_neq. intros Heq. apply H1. symmetry. exact Heq. }
    rewrite E1. reflexivity.
  - intros Hl. unfold L1InfoTreeIndexForBridgeHandler. rewrite Z.eqb_refl, Hl. reflexivity.
Qed.

End Covering.

Section Probes.
Variable b : BridgeService.

Lemma searchL1_step (fuel : nat) (depositCount : Z) (best : L1InfoTreeLeaf) (lower upper : Z) :
  searchL1 b (S fuel) depositCount best lower upper
  = if lower <=? upper then
      let targetBlock := u64 (lower + u64 (upper - lower) / binarySearchDivider) in
      match l1InfoTree_GetFirstInfoAfterBlock b targetBlock with
      | Ok targetInfo =>
          match bridgeL1_GetRootByLER b (MainnetExitRoot targetInfo) with
          | Ok root =>
              if Root_Index root <? depositCount then
                searchL1 b fuel depositCount best (u64 (targetBlock + 1)) upper
              else if Root_Index root =? depositCount then Some (Ok targetInfo)
              else searchL1 b fuel depositCount targetInfo lower (u64 (targetBlock - 1))
          | Fail e => Some (Fail e)
          | Panic => Some Panic
          end
      | Fail e => Some (Fail e)
      | Panic => Some Panic
      end
    else Some (Ok best).
Proof. reflexivity. Qed.

Lemma searchL2_step (fuel : nat) (depositCount : Z) (best : VerifyBatches) (lower upper : Z) :
  searchL2 b (S fuel) depositCount best lower upper
  = if lower <=? upper then
      let targetBlock := u64 (lower + u64 (upper - lower) / binarySearchDivider) in
      match l1InfoTree_GetFirstVerifiedBatchesAfterBlock b (networkID b) targetBlock with
      | Ok targetVerified =>
          match bridgeL2_GetRootByLER b (ExitRoot targetVerified) with
          | Ok root =>
              if Root_Index root <? depositCount then
                searchL2 b fuel depositCount best (u64 (targetBlock + 1)) upper
              else if Root_Index root =? depositCount then Some (Ok targetVerified)
              else searchL2 b fuel depositCount targetVerified lower (u64 (targetBlock - 1))
          | Fail e => Some (Fail e)
          | Panic => Some Panic
          end
      | Fail e => Some (Fail e)
      | Panic => Some Panic
      end
    else Some (Ok best).
Proof. reflexivity. Qed.

(** The probe of a range that does not wrap lies inside the range, and both
    halves left by it are less than half as wide. *)
Lemma probe_halves (lower upper : Z) (fuel : nat) :
  1 <= lower -> upper < 2 ^ 64 - 1 -> lower <= upper ->
  upper - lower + 1 < 2 ^ Z.of_nat (S fuel) ->
  let target := u64 (lower + u64 (upper - lower) / binarySearchDivider) in
  lower <= target <= upper /\
  u64 (target + 1) = target + 1 /\ u64 (target - 1) = target - 1 /\
  upper - (target + 1) + 1 < 2 ^ Z.of_nat fuel /\
  (target - 1) - lower + 1 < 2 ^ Z.of_nat fuel.
Proof.
  intros Hlower Hupper Hle Hwidth. cbv zeta. unfold binarySearchDivider.
  rewrite Nat2Z.inj_succ, Z.pow_succ_r in Hwidth by apply Nat2Z.is_nonneg.
  rewrite (u64_small (upper - lower)) by lia.
  pose proof (Z.div_mod (upper - lower) 2 ltac:(lia)) as Hdm.
  pose proof (Z.mod_pos_bound (upper - lower) 2 ltac:(lia)) as Hmod.
  rewrite (u64_small (lower + (upper - lower) / 2)) by lia.
  rewrite (u64_small (lower + (upper - lower) / 2 + 1)) by lia.
  rewrite (u64_small (lower + (upper - lower) / 2 - 1)) by lia.
  lia.
Qed.

Lemma searchL1_ends (depositCount : Z) (fuel : nat) :
  forall best lower upper,
    1 <= lower -> upper < 2 ^ 64 - 1 -> upper - lower + 1 < 2 ^ Z.of_nat fuel ->
    exists r, searchL1 b (S fuel) depositCount best lower upper = Some r.
Proof.
  induction fuel as [|fuel IH]; intros best lower upper Hlower Hupper Hwidth;
    rewrite searchL1_step.
  - destruct (lower <=? upper) eqn:E; [apply Z.leb_le in E; cbn in Hwidth; lia|].
    eexists. reflexivity.
  - destruct (lower <=? upper) eqn:E; [|eexists; reflexivity].
    apply Z.leb_le in E.
    destruct (probe_halves lower upper fuel Hlower Hupper E Hwidth)
      as (Htarget & Hnext & Hprev & Hright & Hleft).
    cbv zeta. set (target := u64 (lower + u64 (upper - lower) / binarySearchDivider)) in *.
    rewrite Hnext, Hprev.
    destruct (l1InfoTree_GetFirstInfoAfterBlock b target) as [targetInfo|e|];
      [|eexists; reflexivity..].
    destruct (bridgeL1_GetRootByLER b (MainnetExitRoot targetInfo)) as [root|e|];
      [|eexists; reflexivity..].
    destruct (Root_Index root <? depositCount).
    + apply IH; lia.
    + destruct (Root_Index root =? depositCount); [eexists; reflexivity|].
      apply IH; lia.
Qed.

Lemma searchL2_ends (depositCount : Z) (fuel : nat) :
  forall best lower upper,
    1 <= lower -> upper < 2 ^ 64 - 1 -> upper - lower + 1 < 2 ^ Z.of_nat fuel ->
    exists r, searchL2 b (S fuel) depositCount best lower upper = Some r.
Proof.
  induction fuel as [|fuel IH]; intros best lower upper Hlower Hupper Hwidth;
    rewrite searchL2_step.
  - destruct (lower <=? upper) eqn:E; [apply Z.leb_le in E; cbn in Hwidth; lia|].
    eexists. reflexivity.
  - destruct (lower <=? upper) eqn:E; [|eexists; reflexivity].
    apply Z.leb_le in E.
    destruct (probe_halves lower upper fuel Hlower Hupper E Hwidth)
      as (Htarget & Hnext & Hprev & Hright & Hleft).
    cbv zeta. set (target := u64 (lower + u64 (upper - lower) / binarySearchDivider)) in *.
    rewrite Hnext, Hprev.
    destruct (l1InfoTree_GetFirstVerifiedBatchesAfterBlock b (networkID b) target)
      as [targetVerified|e|]; [|eexists; reflexivity..].
    destruct (bridgeL2_GetRootByLER b (ExitRoot targetVerified)) as [root|e|];
      [|eexists; reflexivity..].
    destruct (Root_Index root <? depositCount).
    + apply IH; lia.
    + destruct (Root_Index root =? depositCount); [eexists; reflexivity|].
      apply IH; lia.
Qed.

(** A search that ended gives the same result with more fuel. *)
Lemma searchL1_more_fuel (depositCount : Z) (fuel : nat) :
  forall best lower upper r,
    searchL1 b fuel depositCount best lower upper = Some r ->
    forall extra, searchL1 b (fuel + extra) depositCount best lower upper = Some r.
Proof.
  induction fuel as [|fuel IH]; intros best lower upper r Hrun extra; [discriminate Hrun|].
  change (S fuel + extra)%nat with (S (fuel + extra)).
  rewrite searchL1_step in Hrun |- *.
  destruct (lower <=? upper); [|exact Hrun].
  cbv zeta in Hrun |- *.
  destruct (l1InfoTree_GetFirstInfoAfterBlock b _) as [targetInfo|e|]; try exact Hrun.
  destruct (bridgeL1_GetRootByLER b (MainnetExitRoot targetInfo)) as [root|e|];
    try exact Hrun.
  destruct (Root_Index root <? depositCount); [apply IH; exact Hrun|].
  destruct (Root_Index root =? depositCount); [exact Hrun|apply IH; exact Hrun].
Qed.

Lemma searchL2_more_fuel (depositCount : Z) (fuel : nat) :
  forall best lower upper r,
    searchL2 b fuel depositCount best lower upper = Some r ->
    forall extra, searchL2 b (fuel + extra) depositCount best lower upper = Some r.
Proof.
  induction fuel as [|fuel IH]; intros best lower upper r Hrun extra; [discriminate Hrun|].
  change (S fuel + extra)%nat with (S (fuel + extra)).
  rewrite searchL2_step in Hrun |- *.
  destruct (lower <=? upper); [|exact Hrun].
  cbv zeta in Hrun |- *.
  destruct (l1InfoTree_GetFirstVerifiedBatchesAfterBlock b (networkID b) _)
    as [targetVerified|e|]; try exact Hrun.
  destruct (bridgeL2_GetRootByLER b (ExitRoot targetVerified)) as [root|e|];
    try exact Hrun.
  destruct (Root_Index root <? depositCount); [apply IH; exact Hrun|].
  destruct (Root_Index root =? depositCount); [exact Hrun|apply IH; exact Hrun].
Qed.

(** Both lookups end: when the first block is not block 0 and the last block
    is below 2^64 - 1, so that no limit of the search wraps around, 65 rounds
    of the loop are enough, and more rounds change nothing. *)
Theorem lookups_end_within_65_probes (depositCount : Z) (fuel : nat) :
  (forall first, l1InfoTree_GetFirstInfo b = Ok first -> 1 <= BlockNumber first) ->
  (forall last, l1InfoTree_GetLastInfo b = Ok last -> BlockNumber last < 2 ^ 64 - 1) ->
  (forall first, l1InfoTree_GetFirstVerifiedBatches b (networkID b) = Ok first ->
     1 <= VB_BlockNumber first) ->
  (forall last, l1InfoTree_GetLastVerifiedBatches b (networkID b) = Ok last ->
     VB_BlockNumber last < 2 ^ 64 - 1) ->
  (65 <= fuel)%nat ->
  (exists r, getFirstL1InfoTreeIndexForL1Bridge b fuel depositCount = Some r /\
             getFirstL1InfoTreeIndexForL1Bridge b 65 depositCount = Some r) /\
  (exists r, getFirstL1InfoTreeIndexForL2Bridge b fuel depositCount = Some r /\
             getFirstL1InfoTreeIndexForL2Bridge b 65 depositCount = Some r).
Proof.
  intros HfirstL1 HlastL1 HfirstL2 HlastL2 Hfuel.
  assert (Hextra : exists extra, fuel = (65 + extra)%nat)
    by (exists (fuel - 65)%nat; lia).
  destruct Hextra as (extra & ->).
  assert (Hpow : 2 ^ Z.of_nat 64 = 2 ^ 64) by reflexivity.
  split.
  - unfold getFirstL1InfoTreeIndexForL1Bridge.
    destruct (l1InfoTree_GetLastInfo b) as [lastInfo|e|] eqn:Elast;
      [|eexists; split; reflexivity..].
    destruct (bridgeL1_GetRootByLER b (MainnetExitRoot lastInfo)) as [root|e|];
      [|eexists; split; reflexivity..].
    destruct (Root_Index root <? depositCount); [eexists; split; reflexivity|].
    destruct (l1InfoTree_GetFirstInfo b) as [firstInfo|e|] eqn:Efirst;
      [|eexists; split; reflexivity..].
    pose proof (HfirstL1 firstInfo eq_refl) as Hlo.
    pose proof (HlastL1 lastInfo eq_refl) as Hhi.
    destruct (searchL1_ends depositCount 64 lastInfo (BlockNumber firstInfo)
                (BlockNumber lastInfo) Hlo Hhi ltac:(rewrite Hpow; lia)) as (r & Hr).
    rewrite (searchL1_more_fuel depositCount 65 _ _ _ r Hr extra), Hr.
    destruct r; eexists; split; reflexivity.
  - unfold getFirstL1InfoTreeIndexForL2Bridge.
    destruct (l1InfoTree_GetLastVerifiedBatches b (networkID b)) as [lastVerified|e|] eqn:Elast;
      [|eexists; split; reflexivity..].
    destruct (bridgeL2_GetRootByLER b (ExitRoot lastVerified)) as [root|e|];
      [|eexists; split; reflexivity..].
    destruct (Root_Index root <? depositCount); [eexists; split; reflexivity|].
    destruct (l1InfoTree_GetFirstVerifiedBatches b (networkID b)) as [firstVerified|e|]
      eqn:Efirst; [|eexists; split; reflexivity..].
    pose proof (HfirstL2 firstVerified eq_refl) as Hlo.
    pose proof (HlastL2 lastVerified eq_refl) as Hhi.
    destruct (searchL2_ends depositCount 64 lastVerified (VB_BlockNumber firstVerified)
                (VB_BlockNumber lastVerified) Hlo Hhi ltac:(rewrite Hpow; lia)) as (r & Hr).
    rewrite (searchL2_more_fuel depositCount 65 _ _ _ r Hr extra), Hr.
    destruct r as [bestResult|e|]; [|eexists; split; reflexivity..].
    destruct (l1InfoTree_GetFirstL1InfoWithRollupExitRoot b (VB_RollupExitRoot bestResult));
      eexists; split; reflexivity.
Qed.

End Probes.

Section MonotoneCounts.
Variable b : BridgeService.
Variable info : Z -> L1InfoTreeLeaf.
Variable count : Z -> Z.
Variables lo hi depositCount : Z.
Variable last : L1InfoTreeLeaf.

Hypothesis Hlo : 1 <= lo.
Hypothesis Hhi : hi < 2 ^ 64 - 1.
Hypothesis Hinfo : forall n, lo <= n <= hi ->
  l1InfoTree_GetFirstInfoAfterBlock b n = Ok (info n).
Hypothesis Hcount : forall n, lo <= n <= hi ->
  exists root, bridgeL1_GetRootByLER b (MainnetExitRoot (info n)) = Ok root /\
               Root_Index root = count n.
Hypothesis Hmono : forall n m, lo <= n -> n <= m -> m <= hi -> count n <= count m.

(** The invariant of the loop: every block below [lower] has too small a
    deposit count, and every block above [upper] has at least the one of the
    best result so far. *)
Lemma searchL1_smallest_count (fuel : nat) :
  forall best lower upper,
    lo <= lower -> upper <= hi -> upper - lower + 1 < 2 ^ Z.of_nat fuel ->
    (forall n, lo <= n < lower -> count n < depositCount) ->
    (exists root, bridgeL1_GetRootByLER b (MainnetExitRoot best) = Ok root /\
       depositCount <= Root_Index root /\
       forall n, lo <= n -> upper < n <= hi -> Root_Index root <= count n) ->
    (best = last \/ exists m, lo <= m <= hi /\ best = info m) ->
    exists r root,
      searchL1 b (S fuel) depositCount best lower upper = Some (Ok r) /\
      (r = last \/ exists m, lo <= m <= hi /\ r = info m) /\
      bridgeL1_GetRootByLER b (MainnetExitRoot r) = Ok root /\
      depositCount <= Root_Index root /\
      forall n, lo <= n <= hi -> depositCount <= count n -> Root_Index root <= count n.
Proof using Hlo Hhi Hinfo Hcount Hmono.
  induction fuel as [|fuel IH]; intros best lower upper Hlower Hupper Hwidth Hbelow Hbest Hfrom;
    rewrite searchL1_step.
  - destruct (lower <=? upper) eqn:E; [apply Z.leb_le in E; cbn in Hwidth; lia|].
    apply Z.leb_gt in E. destruct Hbest as (root & Hroot & Hcovers & Habove).
    exists best, root. split; [reflexivity|]. split; [exact Hfrom|].
    split; [exact Hroot|]. split; [exact Hcovers|].
    intros n Hn Hc. apply Habove; [lia|].
    destruct (Z_lt_le_dec n lower) as [Hlt|Hge]; [|lia].
    pose proof (Hbelow n ltac:(lia)). lia.
  - destruct (lower <=? upper) eqn:E.
    2:{ apply Z.leb_gt in E. destruct Hbest as (root & Hroot & Hcovers & Habove).
        exists best, root. split; [reflexivity|]. split; [exact Hfrom|].
        split; [exact Hroot|]. split; [exact Hcovers|].
        intros n Hn Hc. apply Habove; [lia|].
        destruct (Z_lt_le_dec n lower) as [Hlt|Hge]; [|lia].
        pose proof (Hbelow n ltac:(lia)). lia. }
    apply Z.leb_le in E.
    destruct (probe_halves lower upper fuel ltac:(lia) ltac:(lia) E Hwidth)
      as (Htarget & Hnext & Hprev & Hright & Hleft).
    cbv zeta. set (target := u64 (lower + u64 (upper - lower) / binarySearchDivider)) in *.
    rewrite Hnext, Hprev.
    rewrite (Hinfo target) by lia.
    destruct (Hcount target ltac:(lia)) as (root & Hroot & Hindex).
    rewrite Hroot.
    destruct (Root_Index root <? depositCount) eqn:Elt.
    + apply Z.ltb_lt in Elt.
      apply IH; try lia; try assumption.
      * intros n Hn. pose proof (Hmono n target ltac:(lia) ltac:(lia) ltac:(lia)). lia.
    + apply Z.ltb_ge in Elt.
      destruct (Root_Index root =? depositCount) eqn:Eeq.
      * apply Z.eqb_eq in Eeq.
        exists (info target), root. split; [reflexivity|].
        split; [right; exists target; split; [lia|reflexivity]|].
        split; [exact Hroot|]. split; [lia|]. intros n Hn Hc. lia.
      * apply IH; try lia; try assumption.
        -- exists root. split; [exact Hroot|]. split; [exact Elt|].
           intros n Hn Hc.
           pose proof (Hmono target n ltac:(lia) ltac:(lia) ltac:(lia)). lia.
        -- right. exists target. split; [lia|reflexivity].
Qed.

End MonotoneCounts.

(** When the deposit count grows with the block number, the L1 lookup ends
    and is right up to ties: it reports ErrNotOnL1Info when the last leaf
    does not cover the deposit count asked for; otherwise it answers the
    tree index of a leaf that covers it with the smallest deposit count of
    all the leaves that do.  Which of the leaves with that deposit count is
    answered is left open. *)
Theorem l1_lookup_finds_smallest_covering_count (b : BridgeService)
  (info : Z -> L1InfoTreeLeaf) (count : Z -> Z) (depositCount : Z)
  (first last : L1InfoTreeLeaf) (rootLast : Root) :
  l1InfoTree_GetFirstInfo b = Ok first ->
  l1InfoTree_GetLastInfo b = Ok last ->
  bridgeL1_GetRootByLER b (MainnetExitRoot last) = Ok rootLast ->
  1 <= BlockNumber first -> BlockNumber last < 2 ^ 64 - 1 ->
  (forall n, BlockNumber first <= n <= BlockNumber last ->
     l1InfoTree_GetFirstInfoAfterBlock b n = Ok (info n)) ->
  (forall n, BlockNumber first <= n <= BlockNumber last ->
     exists root, bridgeL1_GetRootByLER b (MainnetExitRoot (info n)) = Ok root /\
                  Root_Index root = count n) ->
  (forall n m, BlockNumber first <= n -> n <= m -> m <= BlockNumber last ->
     count n <= count m) ->
  (Root_Index rootLast < depositCount ->
   getFirstL1InfoTreeIndexForL1Bridge b 65 depositCount = Some (Fail ErrNotOnL1Info)) /\
  (depositCount <= Root_Index rootLast ->
   exists leaf root,
     getFirstL1InfoTreeIndexForL1Bridge b 65 depositCount
       = Some (Ok (L1InfoTreeIndex leaf)) /\
     (leaf = last \/
      exists m, BlockNumber first <= m <= BlockNumber last /\ leaf = info m) /\
     bridgeL1_GetRootByLER b (MainnetExitRoot leaf) = Ok root /\
     depositCount <= Root_Index root /\
     forall n, BlockNumber first <= n <= BlockNumber last ->
       depositCount <= count n -> Root_Index root <= count n).
Proof.
  intros Hfirst Hlast HrootLast Hlo Hhi Hinfo Hcount Hmono.
  unfold getFirstL1InfoTreeIndexForL1Bridge. rewrite Hlast, HrootLast, Hfirst.
  split.
  - intros Hshort. apply Z.ltb_lt in Hshort. rewrite Hshort. reflexivity.
  - intros Hcovers. apply Z.ltb_ge in Hcovers. rewrite Hcovers. apply Z.ltb_ge in Hcovers.
    destruct (searchL1_smallest_count b info count (BlockNumber first) (BlockNumber last)
                depositCount last Hlo Hhi Hinfo Hcount Hmono 64
                last (BlockNumber first) (BlockNumber last))
      as (r & root & Hrun & Hfrom & Hroot & Hc & Hmin).
    + lia.
    + lia.
    + change (2 ^ Z.of_nat 64) with (2 ^ 64). lia.
    + intros n Hn. lia.
    + exists rootLast. split; [exact HrootLast|]. split; [exact Hcovers|].
      intros n Hn Habove. lia.
    + left. reflexivity.
    + rewrite Hrun. exists r, root. split; [reflexivity|].
      split; [exact Hfrom|]. split; [exact Hroot|]. split; [exact Hc|exact Hmin].
Qed.

Section MonotoneCountsL2.
Variable b : BridgeService.
Variable batch : Z -> VerifyBatches.
Variable count : Z -> Z.
Variables lo hi depositCount : Z.
Variable last : VerifyBatches.

Hypothesis Hlo : 1 <= lo.
Hypothesis Hhi : hi < 2 ^ 64 - 1.
Hypothesis Hbatch : forall n, lo <= n <= hi ->
  l1InfoTree_GetFirstVerifiedBatchesAfterBlock b (networkID b) n = Ok (batch n).
Hypothesis Hcount : forall n, lo <= n <= hi ->
  exists root, bridgeL2_GetRootByLER b (ExitRoot (batch n)) = Ok root /\
               Root_Index root = count n.
Hypothesis Hmono : forall n m, lo <= n -> n <= m -> m <= hi -> count n <= count m.

(** The same invariant for the search over the verified batches. *)
Lemma searchL2_smallest_count (fuel : nat) :
  forall best lower upper,
    lo <= lower -> upper <= hi -> upper - lower + 1 < 2 ^ Z.of_nat fuel ->
    (forall n, lo <= n < lower -> count n < depositCount) ->
    (exists root, bridgeL2_GetRootByLER b (ExitRoot best) = Ok root /\
       depositCount <= Root_Index root /\
       forall n, lo <= n -> upper < n <= hi -> Root_Index root <= count n) ->
    (best = last \/ exists m, lo <= m <= hi /\ best = batch m) ->
    exists r root,
      searchL2 b (S fuel) depositCount best lower upper = Some (Ok r) /\
      (r = last \/ exists m, lo <= m <= hi /\ r = batch m) /\
      bridgeL2_GetRootByLER b (ExitRoot r) = Ok root /\
      depositCount <= Root_Index root /\
      forall n, lo <= n <= hi -> depositCount <= count n -> Root_Index root <= count n.
Proof using Hlo Hhi Hbatch Hcount Hmono.
  induction fuel as [|fuel IH]; intros best lower upper Hlower Hupper Hwidth Hbelow Hbest Hfrom;
    rewrite searchL2_step.
  - destruct (lower <=? upper) eqn:E; [apply Z.leb_le in E; cbn in Hwidth; lia|].
    apply Z.leb_gt in E. destruct Hbest as (root & Hroot & Hcovers & Habove).
    exists best, root. split; [reflexivity|]. split; [exact Hfrom|].
    split; [exact Hroot|]. split; [exact Hcovers|].
    intros n Hn Hc. apply Habove; [lia|].
    destruct (Z_lt_le_dec n lower) as [Hlt|Hge]; [|lia].
    pose proof (Hbelow n ltac:(lia)). lia.
  - destruct (lower <=? upper) eqn:E.
    2:{ apply Z.leb_gt in E. destruct Hbest as (root & Hroot & Hcovers & Habove).
        exists best, root. split; [reflexivity|]. split; [exact Hfrom|].
        split; [exact Hroot|]. split; [exact Hcovers|].
        intros n Hn Hc. apply Habove; [lia|].
        destruct (Z_lt_le_dec n lower) as [Hlt|Hge]; [|lia].
        pose proof (Hbelow n ltac:(lia)). lia. }
    apply Z.leb_le in E.
    destruct (probe_halves lower upper fuel ltac:(lia) ltac:(lia) E Hwidth)
      as (Htarget & Hnext & Hprev & Hright & Hleft).
    cbv zeta. set (target := u64 (lower + u64 (upper - lower) / binarySearchDivider)) in *.
    rewrite Hnext, Hprev.
    rewrite (Hbatch target) by lia.
    destruct (Hcount target ltac:(lia)) as (root & Hroot & Hindex).
    rewrite Hroot.
    destruct (Root_Index root <? depositCount) eqn:Elt.
    + apply Z.ltb_lt in Elt.
      apply IH; try lia; try assumption.
      * intros n Hn. pose proof (Hmono n target ltac:(lia) ltac:(lia) ltac:(lia)). lia.
    + apply Z.ltb_ge in Elt.
      destruct (Root_Index root =? depositCount) eqn:Eeq.
      * apply Z.eqb_eq in Eeq.
        exists (batch target), root. split; [reflexivity|].
        split; [right; exists target; split; [lia|reflexivity]|].
        split; [exact Hroot|]. split; [lia|]. intros n Hn Hc. lia.
      * apply IH; try lia; try assumption.
        -- exists root. split; [exact Hroot|]. split; [exact Elt|].
           intros n Hn Hc.
           pose proof (Hmono target n ltac:(lia) ltac:(lia) ltac:(lia)). lia.
        -- right. exists target. split; [lia|reflexivity].
Qed.

End MonotoneCountsL2.

(** The same for a rollup: the L2 lookup ends, reports ErrNotOnL1Info when
    the last verified batch does not cover the deposit count, and otherwise
    answers with the first L1 info leaf that carries the rollup exit root of
    a verified batch covering it with the smallest deposit count. *)
Theorem l2_lookup_finds_smallest_covering_count (b : BridgeService)
  (batch : Z -> VerifyBatches) (count : Z -> Z) (depositCount : Z)
  (first last : VerifyBatches) (rootLast : Root) :
  l1InfoTree_GetFirstVerifiedBatches b (networkID b) = Ok first ->
  l1InfoTree_GetLastVerifiedBatches b (networkID b) = Ok last ->
  bridgeL2_GetRootByLER b (ExitRoot last) = Ok rootLast ->
  1 <= VB_BlockNumber first -> VB_BlockNumber last < 2 ^ 64 - 1 ->
  (forall n, VB_BlockNumber first <= n <= VB_BlockNumber last ->
     l1InfoTree_GetFirstVerifiedBatchesAfterBlock b (networkID b) n = Ok (batch n)) ->
  (forall n, VB_BlockNumber first <= n <= VB_BlockNumber last ->
     exists root, bridgeL2_GetRootByLER b (ExitRoot (batch n)) = Ok root /\
                  Root_Index root = count n) ->
  (forall n m, VB_BlockNumber first <= n -> n <= m -> m <= VB_BlockNumber last ->
     count n <= count m) ->
  (Root_Index rootLast < depositCount ->
   getFirstL1InfoTreeIndexForL2Bridge b 65 depositCount = Some (Fail ErrNotOnL1Info)) /\
  (depositCount <= Root_Index rootLast ->
   exists verified root,
     getFirstL1InfoTreeIndexForL2Bridge b 65 depositCount
       = match l1InfoTree_GetFirstL1InfoWithRollupExitRoot b (VB_RollupExitRoot verified) with
         | Ok leaf => Some (Ok (L1InfoTreeIndex leaf))
         | Fail e => Some (Fail e)
         | Panic => Some Panic
         end /\
     (verified = last \/
      exists m, VB_BlockNumber first <= m <= VB_BlockNumber last /\ verified = batch m) /\
     bridgeL2_GetRootByLER b (ExitRoot verified) = Ok root /\
     depositCount <= Root_Index root /\
     forall n, VB_BlockNumber first <= n <= VB_BlockNumber last ->
       depositCount <= count n -> Root_Index root <= count n).
Proof.
  intros Hfirst Hlast HrootLast Hlo Hhi Hbatch Hcount Hmono.
  unfold getFirstL1InfoTreeIndexForL2Bridge. rewrite Hlast, HrootLast, Hfirst.
  split.
  - intros Hshort. apply Z.ltb_lt in Hshort. rewrite Hshort. reflexivity.
  - intros Hcovers. apply Z.ltb_ge in Hcovers. rewrite Hcovers. apply Z.ltb_ge in Hcovers.
    destruct (searchL2_smallest_count b batch count (VB_BlockNumber first)
                (VB_BlockNumber last) depositCount last Hlo Hhi Hbatch Hcount Hmono 64
                last (VB_BlockNumber first) (VB_BlockNumber last))
      as (r & root & Hrun & Hfrom & Hroot & Hc & Hmin).
    + lia.
    + lia.
    + change (2 ^ Z.of_nat 64) with (2 ^ 64). lia.
    + intros n Hn. lia.
    + exists rootLast. split; [exact HrootLast|]. split; [exact Hcovers|].
      intros n Hn Habove. lia.
    + left. reflexivity.
    + rewrite Hrun. exists r, root. split; [reflexivity|].
      split; [exact Hfrom|]. split; [exact Hroot|]. split; [exact Hc|exact Hmin].
Qed.

(** C8 fails on the code: leaves 1, 2 and 3 all cover deposit count 5, the
    smallest being leaf 1, and the L1 lookup answers 2; for rollup 1 the
    smallest covering leaf is again leaf 1 and the L2 lookup answers 2.  Both
    searches stop at the first probe whose deposit count equals the one
    asked for. *)
Theorem lookup_stops_at_equal_probe :
  getFirstL1InfoTreeIndexForL1Bridge (serviceOver 1 sharedRootStore) 64 5 = Some (Ok 2) /\
  smallestCoveringL1 sharedRootStore 5 = Ok 1 /\
  getFirstL1InfoTreeIndexForL2Bridge (serviceOver 1 sharedRootStore) 64 5 = Some (Ok 2) /\
  smallestCoveringL2 1 sharedRootStore 5 = Ok 1.
Proof. repeat split; vm_compute; reflexivity. Qed.

Lemma l1_info_tree_index_answers_witness :
  L1InfoTreeIndexForBridgeHandler (serviceOver 1 sharedRootStore) 65
    (Ok mainnetNetworkID) (Ok 12)
  = Some (Ok (StatusInternalServerError ErrNotOnL1Info)).
Proof.
  refine (proj2 (proj2 (l1_info_tree_index_answers (serviceOver 1 sharedRootStore) 65
                          mainnetNetworkID 12)) _).
  vm_compute. reflexivity.
Defined.

Lemma lookups_end_within_65_probes_witness :
  (exists r,
     getFirstL1InfoTreeIndexForL1Bridge (serviceOver 1 sharedRootStore) 70 5 = Some r /\
     getFirstL1InfoTreeIndexForL1Bridge (serviceOver 1 sharedRootStore) 65 5 = Some r) /\
  (exists r,
     getFirstL1InfoTreeIndexForL2Bridge (serviceOver 1 sharedRootStore) 70 5 = Some r /\
     getFirstL1InfoTreeIndexForL2Bridge (serviceOver 1 sharedRootStore) 65 5 = Some r).
Proof.
  apply (lookups_end_within_65_probes (serviceOver 1 sharedRootStore) 5 70).
  - intros first H. vm_compute in H. inversion H. cbn. lia.
  - intros l H. vm_compute in H. inversion H. cbn. lia.
  - intros first H. vm_compute in H. inversion H. cbn. lia.
  - intros l H. vm_compute in H. inversion H. cbn. lia.
  - lia.
Defined.

Lemma sharedInfoAfter_found (n : Z) :
  10 <= n <= 50 ->
  l1InfoTree_GetFirstInfoAfterBlock (serviceOver 1 sharedRootStore) n
  = Ok (sharedInfoAfter n).
Proof.
  intros Hn. unfold sharedInfoAfter. cbn.
  repeat match goal with
         | |- context [?x <=? ?y] => destruct (Z.leb_spec x y)
         end; try reflexivity; lia.
Qed.

Lemma sharedCountAt_found (n : Z) :
  10 <= n <= 50 ->
  exists root,
    bridgeL1_GetRootByLER (serviceOver 1 sharedRootStore)
      (MainnetExitRoot (sharedInfoAfter n)) = Ok root /\
    Root_Index root = sharedCountAt n.
Proof.
  intros Hn. unfold sharedInfoAfter, sharedCountAt.
  repeat match goal with
         | |- context [?x <=? ?y] => destruct (Z.leb_spec x y)
         end; try lia; eexists; split; reflexivity.
Qed.

Lemma sharedCountAt_mono (n m : Z) :
  10 <= n -> n <= m -> m <= 50 -> sharedCountAt n <= sharedCountAt m.
Proof.
  intros Hn Hnm Hm. unfold sharedCountAt.
  repeat match goal with
         | |- context [?x <=? ?y] => destruct (Z.leb_spec x y)
         end; lia.
Qed.

Lemma l1_lookup_finds_smallest_covering_count_witness :
  exists leaf root,
    getFirstL1InfoTreeIndexForL1Bridge (serviceOver 1 sharedRootStore) 65 5
      = Some (Ok (L1InfoTreeIndex leaf)) /\
    (leaf = leafAt 50 4 300 903 \/
     exists m, BlockNumber (leafAt 10 0 100 900) <= m <= BlockNumber (leafAt 50 4 300 903) /\
               leaf = sharedInfoAfter m) /\
    bridgeL1_GetRootByLER (serviceOver 1 sharedRootStore) (MainnetExitRoot leaf) = Ok root /\
    5 <= Root_Index root /\
    forall n, BlockNumber (leafAt 10 0 100 900) <= n <= BlockNumber (leafAt 50 4 300 903) ->
      5 <= sharedCountAt n -> Root_Index root <= sharedCountAt n.
Proof.
  refine (proj2 (l1_lookup_finds_smallest_covering_count (serviceOver 1 sharedRootStore)
                   sharedInfoAfter sharedCountAt 5 (leafAt 10 0 100 900)
                   (leafAt 50 4 300 903) {| Root_Hash := 300; Root_Index := 9 |}
                   eq_refl eq_refl eq_refl _ _ _ _ _) _).
  - cbn. lia.
  - cbn. lia.
  - exact sharedInfoAfter_found.
  - exact sharedCountAt_found.
  - exact sharedCountAt_mono.
  - cbn. lia.
Defined.

Lemma sharedBatchAfter_found (n : Z) :
  20 <= n <= 40 ->
  l1InfoTree_GetFirstVerifiedBatchesAfterBlock (serviceOver 1 sharedRootStore)
    (networkID (serviceOver 1 sharedRootStore)) n
  = Ok (sharedBatchAfter n).
Proof.
  intros Hn. unfold sharedBatchAfter. cbn.
  repeat match goal with
         | |- context [?x <=? ?y] => destruct (Z.leb_spec x y)
         end; try reflexivity; lia.
Qed.

Lemma sharedBatchAfter_count (n : Z) :
  20 <= n <= 40 ->
  exists root,
    bridgeL2_GetRootByLER (serviceOver 1 sharedRootStore)
      (ExitRoot (sharedBatchAfter n)) = Ok root /\
    Root_Index root = 5.
Proof.
  intros Hn. unfold sharedBatchAfter.
  repeat match goal with
         | |- context [?x <=? ?y] => destruct (Z.leb_spec x y)
         end; eexists; split; reflexivity.
Qed.

Lemma l2_lookup_finds_smallest_covering_count_witness :
  exists verified root,
    getFirstL1InfoTreeIndexForL2Bridge (serviceOver 1 sharedRootStore) 65 5
      = match l1InfoTree_GetFirstL1InfoWithRollupExitRoot (serviceOver 1 sharedRootStore)
                (VB_RollupExitRoot verified) with
        | Ok leaf => Some (Ok (L1InfoTreeIndex leaf))
        | Fail e => Some (Fail e)
        | Panic => Some Panic
        end /\
    (verified = batchAt 40 700 903 \/
     exists m, VB_BlockNumber (batchAt 20 700 901) <= m <= VB_BlockNumber (batchAt 40 700 903) /\
               verified = sharedBatchAfter m) /\
    bridgeL2_GetRootByLER (serviceOver 1 sharedRootStore) (ExitRoot verified) = Ok root /\
    5 <= Root_Index root /\
    forall n, VB_BlockNumber (batchAt 20 700 901) <= n <= VB_BlockNumber (batchAt 40 700 903) ->
      5 <= 5 -> Root_Index root <= 5.
Proof.
  refine (proj2 (l2_lookup_finds_smallest_covering_count (serviceOver 1 sharedRootStore)
                   sharedBatchAfter (fun _ => 5) 5 (batchAt 20 700 901)
                   (batchAt 40 700 903) {| Root_Hash := 700; Root_Index := 5 |}
                   eq_refl eq_refl eq_refl _ _ _ _ _) _).
  - cbn. lia.
  - cbn. lia.
  - exact sharedBatchAfter_found.
  - exact sharedBatchAfter_count.
  - intros n m _ _ _. lia.
  - cbn. lia.
Defined.

End BridgeServiceFacts.

Module ClaimProofFacts.
Import Machine MachineFacts GoError L1InfoTreeSync BridgeService ClaimProof.

Section Handler.
Variable EmptyProof : Proof.
Variable s : processor.
Variable serviceNetworkID : Z.
Variable bridgeL1_GetProof : Z -> Hash -> outcome Proof.
Variable bridgeL2_GetProof : Z -> Hash -> outcome Proof.

(** The claim proof endpoint over the L1 info tree syncer.  The leaf is
    looked up before the network is examined, so a halted syncer or an
    unknown index gives a 500 to every network, supported or not.  With the
    leaf at hand, a network that is neither 0 nor the network of the service
    gets a 400.  Network 0 gets the proof of the L1 bridge for the mainnet
    exit root together with [tree.EmptyProof].  The network of the service
    gets a proof of the L2 bridge for the local exit root kept at leaf
    network - 1 of the rollup exit tree, together with the proof of that
    same leaf, both under the rollup exit root of the L1 info leaf.  A read
    that fails on the way gives a 500 with its error, and these are the only
    answers: a 200 carries the leaf and the proofs just described, a 500 one
    of those errors. *)
Theorem claim_proof_answers (network index depositCount : Z) :
  let answer :=
    ClaimProofHandler EmptyProof s serviceNetworkID bridgeL1_GetProof bridgeL2_GetProof
      (Ok network) (Ok index) (Ok depositCount) in
  (forall err, GetInfoByIndex s index = Fail err ->
     answer = Ok (ClaimProofInternalServerError err)) /\
  (isHalted s = true -> answer = Ok (ClaimProofInternalServerError ErrInconsistentState)) /\
  (forall info, GetInfoByIndex s index = Ok info ->
     (network <> mainnetNetworkID -> network <> serviceNetworkID ->
      answer = Ok ClaimProofBadRequest) /\
     (network = mainnetNetworkID ->
      (forall proofLocalExitRoot,
         bridgeL1_GetProof depositCount (MainnetExitRoot info) = Ok proofLocalExitRoot ->
         answer = Ok (ClaimProofOK proofLocalExitRoot EmptyProof info)) /\
      (forall err,
         bridgeL1_GetProof depositCount (MainnetExitRoot info) = Fail err ->
         answer = Ok (ClaimProofInternalServerError err))) /\
     (network <> mainnetNetworkID -> network = serviceNetworkID ->
      (forall err,
         rollupExitTree_GetLeaf s (u32 (network - 1)) (RollupExitRoot info) = Fail err ->
         answer = Ok (ClaimProofInternalServerError err)) /\
      (forall localExitRoot,
         rollupExitTree_GetLeaf s (u32 (network - 1)) (RollupExitRoot info)
           = Ok localExitRoot ->
         (forall err,
            bridgeL2_GetProof depositCount localExitRoot = Fail err ->
            answer = Ok (ClaimProofInternalServerError err)) /\
         (forall proofLocalExitRoot,
            bridgeL2_GetProof depositCount localExitRoot = Ok proofLocalExitRoot ->
            (forall err,
               rollupExitTree_GetProof s (u32 (network - 1)) (RollupExitRoot info)
                 = Fail err ->
               answer = Ok (ClaimProofInternalServerError err)) /\
            (forall proofRollupExitRoot,
               rollupExitTree_GetProof s (u32 (network - 1)) (RollupExitRoot info)
                 = Ok proofRollupExitRoot ->
               answer = Ok (ClaimProofOK proofLocalExitRoot proofRollupExitRoot info))))) /\
     (forall response, answer = Ok response ->
        match response with
        | ClaimProofOK proofLocalExitRoot proofRollupExitRoot leaf =>
            leaf = info /\
            ((network = mainnetNetworkID /\
              bridgeL1_GetProof depositCount (MainnetExitRoot info) = Ok proofLocalExitRoot /\
              proofRollupExitRoot = EmptyProof) \/
             (network <> mainnetNetworkID /\ network = serviceNetworkID /\
              exists localExitRoot,
                rollupExitTree_GetLeaf s (u32 (network - 1)) (RollupExitRoot info)
                  = Ok localExitRoot /\
                bridgeL2_GetProof depositCount localExitRoot = Ok proofLocalExitRoot /\
                rollupExitTree_GetProof s (u32 (network - 1)) (RollupExitRoot info)
                  = Ok proofRollupExitRoot))
        | ClaimProofBadRequest => network <> mainnetNetworkID /\ network <> serviceNetworkID
        | ClaimProofInternalServerError err =>
            (network = mainnetNetworkID /\
             bridgeL1_GetProof depositCount (MainnetExitRoot info) = Fail err) \/
            (network <> mainnetNetworkID /\ network = serviceNetworkID /\
             (rollupExitTree_GetLeaf s (u32 (network - 1)) (RollupExitRoot info) = Fail err \/
              exists localExitRoot,
                rollupExitTree_GetLeaf s (u32 (network - 1)) (RollupExitRoot info)
                  = Ok localExitRoot /\
                (bridgeL2_GetProof depositCount localExitRoot = Fail err \/
                 exists proofLocalExitRoot,
                   bridgeL2_GetProof depositCount localExitRoot = Ok proofLocalExitRoot /\
                   rollupExitTree_GetProof s (u32 (network - 1)) (RollupExitRoot info)
                     = Fail err)))
        end)).
Proof.
  intros answer. subst answer.
  split; [|split].
  - intros err Hinfo. unfold ClaimProofHandler. rewrite Hinfo. reflexivity.
  - intros Hhalted. unfold ClaimProofHandler, GetInfoByIndex. rewrite Hhalted. reflexivity.
  - intros info Hinfo. unfold ClaimProofHandler. rewrite Hinfo.
    assert (Hrun : isHalted s = false).
    { unfold GetInfoByIndex in Hinfo. destruct (isHalted s); [discriminate Hinfo|reflexivity]. }
    unfold GetRollupExitTreeMerkleProof, GetLocalExitRoot. rewrite Hrun.
    unfold mainnetNetworkID.
    destruct (network =? 0) eqn:E0.
    + apply Z.eqb_eq in E0.
      split; [intros Hn; contradiction|].
      split; [|split; [intros Hn; contradiction|]].
      * intros _. split.
        -- intros proof ->. reflexivity.
        -- intros err ->. reflexivity.
      * destruct (bridgeL1_GetProof depositCount (MainnetExitRoot info)) as [proof|e|] eqn:Ep;
          intros response H; inversion H; subst response.
        -- split; [reflexivity|]. left. repeat split; assumption.
        -- left. split; [exact E0|reflexivity].
    + apply Z.eqb_neq in E0.
      destruct (network =? serviceNetworkID) eqn:E1.
      * apply Z.eqb_eq in E1.
        split; [intros _ Hn; contradiction|].
        split; [intros Hn; contradiction|].
        split.
        -- intros _ _. split; [intros err ->; reflexivity|].
           intros localExitRoot ->. split; [intros err ->; reflexivity|].
           intros proofLocalExitRoot ->. split; [intros err ->; reflexivity|].
           intros proofRollupExitRoot ->. reflexivity.
        -- destruct (rollupExitTree_GetLeaf s (u32 (network - 1)) (RollupExitRoot info))
             as [localExitRoot|e|] eqn:El.
           2:{ intros response H; inversion H; subst response.
               right. split; [exact E0|]. split; [exact E1|]. left. reflexivity. }
           2:{ intros response H. discriminate H. }
           destruct (bridgeL2_GetProof depositCount localExitRoot) as [proof|e|] eqn:Ep.
           2:{ intros response H; inversion H; subst response.
               right. split; [exact E0|]. split; [exact E1|]. right.
               exists localExitRoot. split; [reflexivity|]. left. exact Ep. }
           2:{ intros response H. discriminate H. }
           destruct (rollupExitTree_GetProof s (u32 (network - 1)) (RollupExitRoot info))
             as [proofRollup|e|] eqn:Er;
             intros response H; inversion H; subst response.
           ++ split; [reflexivity|]. right. split; [exact E0|]. split; [exact E1|].
              exists localExitRoot. repeat split; assumption.
           ++ right. split; [exact E0|]. split; [exact E1|]. right.
              exists localExitRoot. split; [reflexivity|]. right.
              exists proof. split; [exact Ep|reflexivity].
      * apply Z.eqb_neq in E1.
        split; [intros _ _; reflexivity|].
        split; [intros Hn; contradiction|].
        split; [intros _ Hn; contradiction|].
        intros response H. inversion H; subst response. split; assumption.
Qed.

End Handler.

(** The service of network 1 over a processor that knows the leaf of index
    3: network 9 gets a 500 at the unknown index 5 and a 400 at index 3,
    where network 1 gets the L2 proof and the proof of leaf 0 of the rollup
    exit tree. *)
Lemma claim_proof_answers_witness :
  ClaimProofHandler [0; 0] oneLeafProcessor 1 (fun _ _ => Ok [1]) (fun _ _ => Ok [2])
    (Ok 9) (Ok 5) (Ok 0)
  = Ok (ClaimProofInternalServerError db_ErrNotFound) /\
  ClaimProofHandler [0; 0] oneLeafProcessor 1 (fun _ _ => Ok [1]) (fun _ _ => Ok [2])
    (Ok 9) (Ok 3) (Ok 0)
  = Ok ClaimProofBadRequest /\
  ClaimProofHandler [0; 0] oneLeafProcessor 1 (fun _ _ => Ok [1]) (fun _ _ => Ok [2])
    (Ok 1) (Ok 3) (Ok 0)
  = Ok (ClaimProofOK [2] [0; 903] (leafAt 40 3 200 903)).
Proof.
  split; [|split].
  - apply (proj1 (claim_proof_answers [0; 0] oneLeafProcessor 1 (fun _ _ => Ok [1])
                    (fun _ _ => Ok [2]) 9 5 0)).
    reflexivity.
  - refine (proj1 (proj2 (proj2 (claim_proof_answers [0; 0] oneLeafProcessor 1
                     (fun _ _ => Ok [1]) (fun _ _ => Ok [2]) 9 3 0))
                     (leafAt 40 3 200 903) eq_refl) _ _);
      unfold mainnetNetworkID; lia.
  - refine (proj2 (proj2 (proj2 (proj1 (proj2 (proj2 (proj2 (proj2
              (claim_proof_answers [0; 0] oneLeafProcessor 1
                 (fun _ _ => Ok [1]) (fun _ _ => Ok [2]) 1 3 0))
              (leafAt 40 3 200 903) eq_refl))) _ _)
              700 eq_refl) [2] eq_refl) [0; 903] eq_refl);
      unfold mainnetNetworkID; lia.
Defined.

End ClaimProofFacts.

Module AgglayerTypesFacts.
Import Machine GoError AgglayerTypes.

Section Hashing.
Variable Keccak256 : bytes -> bytes.

(** C10: the hash with a nil amount is the hash with amount 0, and the call
    leaves 0 in place of the nil amount; the hash with a zero-length metadata
    is the hash with keccak256 of the empty string as metadata; so bridge
    exits that differ only by nil or zero amount and by nil or empty metadata
    have one hash. *)
Theorem Hash_normalizes_missing_fields (b : BridgeExit) :
  snd (Hash Keccak256 (withAmount b None)) = snd (Hash Keccak256 (withAmount b (Some 0))) /\
  Amount (fst (Hash Keccak256 (withAmount b None))) = Some 0 /\
  (len (Metadata b) = O ->
   snd (Hash Keccak256 b)
   = snd (Hash Keccak256 (withMetadata b (Some (Keccak256 []))))) /\
  (forall amount metadata,
     (amount = None \/ amount = Some 0) ->
     (metadata = None \/ metadata = Some []) ->
     snd (Hash Keccak256 (withMetadata (withAmount b amount) metadata))
     = snd (Hash Keccak256 (withMetadata (withAmount b (Some 0)) (Some [])))).
Proof.
  repeat split.
  - unfold Hash, withAmount; cbn. destruct (TokenInfo_ b); reflexivity.
  - intros Hlen. destruct b as [lt ti dn da am md]. cbn [Metadata] in Hlen.
    unfold Hash, withMetadata, withAmount, emptyBytesHash.
    cbn [Amount Metadata TokenInfo_ LeafType DestinationNetwork DestinationAddress].
    destruct md as [[|x l]|]; [|discriminate Hlen|];
      destruct (Keccak256 []) as [|y rest] eqn:Ek;
      destruct am; destruct ti;
      cbn [Amount Metadata TokenInfo_ LeafType DestinationNetwork DestinationAddress
           len slice List.length Nat.eqb];
      rewrite ?Ek; reflexivity.
  - intros amount metadata [->| ->] [->| ->];
      unfold Hash, withMetadata, withAmount; cbn;
      destruct (TokenInfo_ b); reflexivity.
Qed.

End Hashing.

Section Encoding.
Variable Keccak256 : bytes -> bytes.
Variable Sscanf_d : string -> option Z.
Variable big_String : Z -> string.
Variable big_SetString : string -> option Z.
Variable Bytes2Hex : bytes -> string.
Variable Hex2Bytes : string -> bytes.

Hypothesis SetString_String : forall z, big_SetString (big_String z) = Some z.
Hypothesis String_not_nil : forall z, Contains (big_String z) nilStr = false.
Hypothesis Hex2Bytes_Bytes2Hex : forall data, Hex2Bytes (Bytes2Hex data) = data.

Lemma LeafType_round_trip (l : Z) (name : string) :
  LeafType_String l = Ok name -> LeafType_UnmarshalJSON Sscanf_d (quoted name) = Ok l.
Proof.
  unfold LeafType_String.
  destruct (l =? LeafTypeAsset) eqn:E0.
  - apply Z.eqb_eq in E0. intros H. inversion H; subst. reflexivity.
  - destruct (l =? LeafTypeMessage) eqn:E1; [|discriminate].
    apply Z.eqb_eq in E1. intros H. inversion H; subst. reflexivity.
Qed.

(** The hash does not tell a nil metadata from an empty one. *)
Lemma Hash_short_metadata (b : BridgeExit) (amount : option Z) :
  snd (Hash Keccak256
         (withMetadata (withAmount b amount)
            (if Nat.ltb 0 (len (Metadata b)) then Metadata b else None)))
  = snd (Hash Keccak256 (withAmount b amount)).
Proof.
  destruct b as [lt ti dn da am md].
  destruct md as [[|x l]|]; cbn [Metadata len List.length Nat.ltb Nat.leb];
    unfold Hash, withMetadata, withAmount; cbn; destruct amount; destruct ti; reflexivity.
Qed.

(** A bridge exit of leaf type Transfer or Message survives MarshalJSON
    followed by UnmarshalJSON, up to its metadata, which comes back nil when
    it was empty, and its amount, which keeps the value of the receiving
    bridge exit when it was nil; decoded into a fresh bridge exit it has the
    hash it had.  Any other leaf type makes MarshalJSON panic. *)
Theorem bridge_exit_json_round_trip (b receiver : BridgeExit) :
  (LeafType b = LeafTypeAsset \/ LeafType b = LeafTypeMessage ->
   exists aux,
     MarshalJSON big_String Bytes2Hex b = Ok aux /\
     UnmarshalJSON Sscanf_d big_SetString Hex2Bytes receiver aux
     = Ok (withMetadata
             (withAmount b match Amount b with
                           | Some amount => Some amount
                           | None => Amount receiver
                           end)
             (if Nat.ltb 0 (len (Metadata b)) then Metadata b else None)) /\
     (Amount receiver = None ->
      forall decoded,
        UnmarshalJSON Sscanf_d big_SetString Hex2Bytes receiver aux = Ok decoded ->
        snd (Hash Keccak256 decoded) = snd (Hash Keccak256 b))) /\
  (LeafType b <> LeafTypeAsset -> LeafType b <> LeafTypeMessage ->
   MarshalJSON big_String Bytes2Hex b = Panic).
Proof using SetString_String String_not_nil Hex2Bytes_Bytes2Hex.
  split.
  - intros Hleaf.
    assert (Hname : exists name, LeafType_String (LeafType b) = Ok name).
    { unfold LeafType_String. destruct Hleaf as [-> | ->]; eexists; reflexivity. }
    destruct Hname as (name & Hname).
    unfold MarshalJSON. rewrite Hname. eexists. split; [reflexivity|].
    assert (Hdecode :
      UnmarshalJSON Sscanf_d big_SetString Hex2Bytes receiver
        {| json_leaf_type := name;
           json_token_info := TokenInfo_ b;
           json_dest_network := DestinationNetwork b;
           json_dest_address := DestinationAddress b;
           json_amount := match Amount b with
                          | Some amount => big_String amount
                          | None => "<nil>"%string
                          end;
           json_metadata :=
             if Nat.ltb 0 (len (Metadata b))
             then Some (Bytes2Hex (slice (Metadata b))) else None |}
      = Ok (withMetadata
              (withAmount b match Amount b with
                            | Some amount => Some amount
                            | None => Amount receiver
                            end)
              (if Nat.ltb 0 (len (Metadata b)) then Metadata b else None))).
    { unfold UnmarshalJSON.
      cbn [json_leaf_type json_token_info json_dest_network json_dest_address
           json_amount json_metadata].
      rewrite (LeafType_round_trip _ _ Hname).
      assert (Hmeta : match (if Nat.ltb 0 (len (Metadata b))
                             then Some (Bytes2Hex (slice (Metadata b))) else None) with
                      | Some s => Some (Hex2Bytes s)
                      | None => None
                      end
                      = if Nat.ltb 0 (len (Metadata b)) then Metadata b else None).
      { destruct (Metadata b) as [[|x l]|]; cbn [len List.length Nat.ltb Nat.leb slice];
          try reflexivity.
        rewrite Hex2Bytes_Bytes2Hex. reflexivity. }
      rewrite Hmeta.
      destruct (Amount b) as [amount|].
      - rewrite String_not_nil. cbn [negb]. rewrite SetString_String. reflexivity.
      - reflexivity. }
    split; [exact Hdecode|].
    intros Hfresh decoded Hdecoded. rewrite Hdecode in Hdecoded.
    inversion Hdecoded; subst decoded. rewrite Hfresh.
    rewrite Hash_short_metadata.
    destruct b as [lt ti dn da am md]. destruct am; reflexivity.
  - intros H0 H1. unfold MarshalJSON, LeafType_String.
    apply Z.eqb_neq in H0. apply Z.eqb_neq in H1. rewrite H0, H1. reflexivity.
Qed.

End Encoding.

Section StatusDecoding.
Variable Sscanf_d : string -> option Z.

(** Each of the five statuses is decoded back from its name, and is closed
    exactly when it is settled or in error.  A text that is no name and does
    not contain InError is decoded as the number it holds, whatever the
    number; a status outside the five is closed although it is neither
    settled nor in error, and asking for its name panics. *)
Theorem certificate_status_names_and_numbers :
  (forall c name, CertificateStatus_String c = Ok name ->
     CertificateStatus_UnmarshalJSON Sscanf_d (quoted name) = Ok c /\
     IsClosed c = IsSettled c || IsInError c) /\
  (forall rawStatus n,
     Contains (Trim rawStatus quoteChar) "InError" = false ->
     ~ In (Trim rawStatus quoteChar) statusNames ->
     Sscanf_d (Trim rawStatus quoteChar) = Some n ->
     CertificateStatus_UnmarshalJSON Sscanf_d rawStatus = Ok n) /\
  (forall n, n < Pending \/ Settled < n ->
     IsClosed n = true /\ IsSettled n = false /\ IsInError n = false /\
     CertificateStatus_String n = Panic).
Proof.
  split; [|split].
  - intros c name. unfold CertificateStatus_String.
    destruct (c =? Pending) eqn:E0; [apply Z.eqb_eq in E0; subst c; intros H; inversion H;
                                     split; reflexivity|].
    destruct (c =? Proven) eqn:E1; [apply Z.eqb_eq in E1; subst c; intros H; inversion H;
                                    split; reflexivity|].
    destruct (c =? Candidate) eqn:E2; [apply Z.eqb_eq in E2; subst c; intros H; inversion H;
                                       split; reflexivity|].
    destruct (c =? InError) eqn:E3; [apply Z.eqb_eq in E3; subst c; intros H; inversion H;
                                     split; reflexivity|].
    destruct (c =? Settled) eqn:E4; [apply Z.eqb_eq in E4; subst c; intros H; inversion H;
                                     split; reflexivity|].
    discriminate.
  - intros rawStatus n Hno Hname Hscan. unfold CertificateStatus_UnmarshalJSON.
    rewrite Hno.
    assert (Hneq : forall name, In name statusNames ->
              String.eqb (Trim rawStatus quoteChar) name = false).
    { intros name Hin. apply String.eqb_neq. intros Heq. apply Hname.
      rewrite Heq. exact Hin. }
    rewrite (Hneq "Pending"%string) by (cbn; tauto).
    rewrite (Hneq "InError"%string) by (cbn; tauto).
    rewrite (Hneq "Proven"%string) by (cbn; tauto).
    rewrite (Hneq "Candidate"%string) by (cbn; tauto).
    rewrite (Hneq "Settled"%string) by (cbn; tauto).
    rewrite Hscan. reflexivity.
  - intros n Hn. unfold IsClosed, IsOpen, IsSettled, IsInError, CertificateStatus_String,
      NonSettledStatuses, Pending, Proven, Candidate, InError, Settled in *.
    cbn [existsb].
    assert (H0 : (n =? 0) = false) by (apply Z.eqb_neq; lia).
    assert (H1 : (n =? 1) = false) by (apply Z.eqb_neq; lia).
    assert (H2 : (n =? 2) = false) by (apply Z.eqb_neq; lia).
    assert (H3 : (n =? 3) = false) by (apply Z.eqb_neq; lia).
    assert (H4 : (n =? 4) = false) by (apply Z.eqb_neq; lia).
    rewrite H0, H1, H2, H3, H4. repeat split.
Qed.

End StatusDecoding.

Lemma certificate_status_names_and_numbers_witness :
  CertificateStatus_UnmarshalJSON decimalTo "7" = Ok 7.
Proof.
  refine (proj1 (proj2 (certificate_status_names_and_numbers decimalTo)) "7"%string 7 _ _ _).
  - reflexivity.
  - cbn. intros [H|[H|[H|[H|[H|[]]]]]]; discriminate H.
  - reflexivity.
Defined.

Lemma decimal_round_trip (z : Z) : decimalTo (decimalOf z) = Some z.
Proof.
  unfold decimalTo, decimalOf.
  rewrite DecimalString.NilZero.isi.
  - cbn [option_map]. rewrite DecimalZ.of_to. reflexivity.
  - destruct z as [|p|p]; cbn; try discriminate.
    intros H. inversion H as [Hp]. exact (DecimalPos.Unsigned.to_uint_nonnil p Hp).
  - destruct z as [|p|p]; cbn; try discriminate.
    intros H. inversion H as [Hp]. exact (DecimalPos.Unsigned.to_uint_nonnil p Hp).
Qed.

Lemma Contains_first (c : ascii) (t s : string) :
  Contains s (String c t) = true -> In c (list_ascii_of_string s).
Proof.
  induction s as [|a rest IH]; cbn [Contains String.prefix list_ascii_of_string].
  - discriminate.
  - intros H. apply orb_true_iff in H. destruct H as [H|H].
    + destruct (ascii_dec c a) as [->|]; [left; reflexivity|discriminate H].
    + right. apply IH. exact H.
Qed.

Lemma decimal_digits (d : Decimal.uint) :
  ~ In "n"%char (list_ascii_of_string (DecimalString.NilEmpty.string_of_uint d)).
Proof.
  induction d; cbn [DecimalString.NilEmpty.string_of_uint list_ascii_of_string];
    intros H; try contradiction; destruct H as [H|H]; try discriminate H; auto.
Qed.

Lemma decimal_not_nil (z : Z) : Contains (decimalOf z) nilStr = false.
Proof.
  destruct (Contains (decimalOf z) nilStr) eqn:E; [|reflexivity].
  exfalso. apply Contains_first in E. unfold decimalOf in E.
  destruct z as [|p|p]; cbn in E.
  - destruct E as [E|[]]. discriminate E.
  - destruct (Pos.to_uint p) eqn:Ep; try exact (decimal_digits _ E).
    destruct E as [E|[]]. discriminate E.
  - destruct E as [E|E]; [discriminate E|].
    destruct (Pos.to_uint p) eqn:Ep; try exact (decimal_digits _ E).
    destruct E as [E|[]]. discriminate E.
Qed.

Lemma hex_round_trip (data : bytes) : hexDecode (hexEncode data) = data.
Proof.
  induction data as [|x rest IH]; [reflexivity|].
  cbn [hexEncode].
  assert (Hx : forall tail,
            hexDecode (String (hexDigit (Byte.to_N x / 16))
                         (String (hexDigit (Byte.to_N x mod 16)) tail))
            = x :: hexDecode tail).
  { intros tail. destruct x; reflexivity. }
  rewrite Hx, IH. reflexivity.
Qed.

Lemma bridge_exit_json_round_trip_witness :
  exists aux,
    MarshalJSON decimalOf hexEncode messageExit = Ok aux /\
    UnmarshalJSON (fun _ => None) decimalTo hexDecode zeroBridgeExit aux
    = Ok (withMetadata
            (withAmount messageExit
               match Amount messageExit with
               | Some amount => Some amount
               | None => Amount zeroBridgeExit
               end)
            (if Nat.ltb 0 (len (Metadata messageExit)) then Metadata messageExit else None)) /\
    (Amount zeroBridgeExit = None ->
     forall decoded,
       UnmarshalJSON (fun _ => None) decimalTo hexDecode zeroBridgeExit aux = Ok decoded ->
       snd (Hash lengthDigest decoded) = snd (Hash lengthDigest messageExit)).
Proof.
  refine (proj1 (bridge_exit_json_round_trip lengthDigest (fun _ => None) decimalOf decimalTo
                   hexEncode hexDecode decimal_round_trip decimal_not_nil hex_round_trip
                   messageExit zeroBridgeExit) _).
  right. reflexivity.
Defined.

Lemma Hash_normalizes_missing_fields_witness :
  snd (Hash lengthDigest transferExit)
  = snd (Hash lengthDigest (withMetadata transferExit (Some (lengthDigest [])))).
Proof.
  destruct (Hash_normalizes_missing_fields lengthDigest transferExit)
    as (_ & _ & Hmetadata & _).
  apply Hmetadata. reflexivity.
Defined.

End AgglayerTypesFacts.

Module EpochNotifierFacts.
Import Machine MachineFacts EpochNotifier.

Example scenario_run :
  startInternal scenarioConfig scenarioBlocks
  = [(105, {| Epoch := 1; ExtraInfo := {| PendingBlocks := 5 |} |})].
Proof. vm_compute. reflexivity. Qed.

(** A stream that leaves epoch 1 before its middle: epoch 1 gets no event. *)
Example skipped_epoch_has_no_event :
  startInternal scenarioConfig [100; 101; 110; 115]
  = [(115, {| Epoch := 2; ExtraInfo := {| PendingBlocks := 5 |} |})].
Proof. vm_compute. reflexivity. Qed.

(** The block equal to StartingEpochBlock counts as seen already: with a
    threshold of 0 the event of epoch 1 comes at block 101. *)
Example starting_block_is_skipped :
  startInternal notifyAtStartConfig [100; 101; 102]
  = [(101, {| Epoch := 1; ExtraInfo := {| PendingBlocks := 9 |} |})].
Proof. vm_compute. reflexivity. Qed.

Section Run.
Variable Config : ConfigEpochNotifierPerBlock.
Hypothesis Hvalid : Validate Config = true.
Hypothesis Hrange : uintFields Config.

Lemma N_pos : 0 < NumBlockPerEpoch Config.
Proof using Hvalid Hrange.
  unfold Validate in Hvalid. destruct Hrange as (_ & HN & _).
  destruct (NumBlockPerEpoch Config =? 0) eqn:E; [discriminate|].
  apply Z.eqb_neq in E. lia.
Qed.

Lemma div_block_bounds (d : Z) :
  0 <= d -> 0 <= d / NumBlockPerEpoch Config <= d.
Proof using Hvalid Hrange.
  intros Hd. pose proof N_pos as HN.
  split; [apply Z.div_pos; lia|].
  apply Z.div_le_upper_bound; nia.
Qed.

Lemma epochNumber_eq (b : Z) :
  StartingEpochBlock Config <= b < 2 ^ 63 ->
  epochNumber Config b = 1 + (b - StartingEpochBlock Config) / NumBlockPerEpoch Config.
Proof using Hvalid Hrange.
  intros Hb. unfold epochNumber.
  destruct (b <? StartingEpochBlock Config) eqn:E; [apply Z.ltb_lt in E; lia|].
  destruct Hrange as (Hs & _).
  pose proof (div_block_bounds (b - StartingEpochBlock Config)) as Hd.
  rewrite (u64_small (b - StartingEpochBlock Config)) by lia.
  apply u64_small. lia.
Qed.

Lemma epochNumber_bounds (b : Z) :
  StartingEpochBlock Config <= b < 2 ^ 63 ->
  1 <= epochNumber Config b <= 2 ^ 63.
Proof using Hvalid Hrange.
  intros Hb. rewrite epochNumber_eq by exact Hb.
  destruct Hrange as (Hs & _).
  pose proof (div_block_bounds (b - StartingEpochBlock Config)). lia.
Qed.

Lemma epochNumber_mono (b b' : Z) :
  StartingEpochBlock Config <= b -> b <= b' -> b' < 2 ^ 63 ->
  epochNumber Config b <= epochNumber Config b'.
Proof using Hvalid Hrange.
  intros H1 H2 H3. rewrite !epochNumber_eq by lia.
  pose proof N_pos.
  apply Z.add_le_mono_l, Z.div_le_mono; lia.
Qed.

Lemma isNotificationRequired_eq (b w : Z) :
  StartingEpochBlock Config <= b < 2 ^ 63 ->
  isNotificationRequired Config b w
  = (percentReaches Config (minOfThresholds Config) b && (w <? epochNumber Config b + 1),
     epochNumber Config b).
Proof using Hvalid Hrange.
  intros Hb. pose proof (epochNumber_bounds b Hb) as He.
  unfold isNotificationRequired, percentReaches, minOfThresholds, pctThreshold, maxThreshold.
  cbv zeta.
  destruct (PrimFloat.ltb (percentEpoch Config b) _); cbn [negb andb].
  - reflexivity.
  - rewrite u64_small by lia. reflexivity.
Qed.

Lemma step_eq (st : internalStatus) (b : Z) :
  StartingEpochBlock Config <= b < 2 ^ 63 -> lastBlockSeen st < b ->
  step Config st b
  = if percentReaches Config (minOfThresholds Config) b
       && (waitingForEpoch st <? epochNumber Config b + 1)
    then ({| lastBlockSeen := b; waitingForEpoch := epochNumber Config b + 1 |},
          Some (eventAt Config b))
    else ({| lastBlockSeen := b; waitingForEpoch := waitingForEpoch st |}, None).
Proof using Hvalid Hrange.
  intros Hb Hlast. pose proof (epochNumber_bounds b Hb) as He.
  unfold step.
  destruct (b <? StartingEpochBlock Config) eqn:E1; [apply Z.ltb_lt in E1; lia|].
  destruct (b <=? lastBlockSeen st) eqn:E2; [apply Z.leb_le in E2; lia|].
  cbn [waitingForEpoch lastBlockSeen].
  rewrite isNotificationRequired_eq by exact Hb.
  destruct (percentReaches Config (minOfThresholds Config) b
            && (waitingForEpoch st <? epochNumber Config b + 1)).
  - rewrite u64_small by lia. reflexivity.
  - reflexivity.
Qed.

Lemma loop_skip (st : internalStatus) (b : Z) (rest : list Z) :
  b <= lastBlockSeen st -> loop Config st (b :: rest) = loop Config st rest.
Proof.
  intros Hb. cbn [loop]. unfold step.
  destruct (b <? StartingEpochBlock Config); [reflexivity|].
  destruct (b <=? lastBlockSeen st) eqn:E; [reflexivity|].
  apply Z.leb_gt in E. lia.
Qed.

Lemma loop_spec (blocks : list Z) : forall st : internalStatus,
  increasing blocks ->
  (forall b, In b blocks -> lastBlockSeen st < b < 2 ^ 63) ->
  StartingEpochBlock Config <= lastBlockSeen st ->
  (forall b, In b blocks -> waitingForEpoch st <= epochNumber Config b + 1) ->
  NoDup (map (fun p => Epoch (snd p)) (loop Config st blocks)) /\
  forall b e, In (b, e) (loop Config st blocks) <->
    (In b blocks /\
     percentReaches Config (minOfThresholds Config) b = true /\
     waitingForEpoch st <= epochNumber Config b /\
     (forall b', In b' blocks -> b' < b ->
        epochNumber Config b' = epochNumber Config b ->
        percentReaches Config (minOfThresholds Config) b' = false) /\
     e = eventAt Config b).
Proof using Hvalid Hrange.
  induction blocks as [|b0 rest IH]; intros st Hinc Hbnd Hlast Hwait.
  - split; [constructor|]. intros b e. cbn. tauto.
  - destruct Hinc as [Hlt Hinc].
    assert (Hb0 : lastBlockSeen st < b0 < 2 ^ 63) by (apply Hbnd; left; reflexivity).
    assert (Hrestb : forall b, In b rest -> b0 < b < 2 ^ 63).
    { intros b Hb. split; [apply Hlt; exact Hb|apply Hbnd; right; exact Hb]. }
    cbn [loop]. rewrite step_eq by lia.
    destruct (percentReaches Config (minOfThresholds Config) b0
              && (waitingForEpoch st <? epochNumber Config b0 + 1)) eqn:E.
    + apply andb_true_iff in E. destruct E as [Er Ew]. apply Z.ltb_lt in Ew.
      set (st' := {| lastBlockSeen := b0; waitingForEpoch := epochNumber Config b0 + 1 |}).
      destruct (IH st') as [IHnd IHch]; try assumption.
      { cbn. lia. }
      { intros b Hb. cbn. specialize (Hrestb b Hb).
        pose proof (epochNumber_mono b0 b). lia. }
      split.
      * cbn [map]. constructor; [|exact IHnd].
        intros Hin. apply in_map_iff in Hin. destruct Hin as ([b e] & Heq & Hin).
        apply IHch in Hin. destruct Hin as (_ & _ & Hw & _ & ->).
        cbn in Heq, Hw. lia.
      * intros b e. split.
        -- intros [Hhd|Htl].
           ++ inversion Hhd; subst b e. repeat split; try assumption.
              ** left; reflexivity.
              ** lia.
              ** intros b' [->|Hb'] Hlt'; [lia|]. specialize (Hlt b' Hb'). lia.
           ++ apply IHch in Htl. destruct Htl as (Hb & Hr & Hw & Hfirst & He).
              cbn in Hw. repeat split; try assumption.
              ** right; exact Hb.
              ** lia.
              ** intros b' [->|Hb'] Hlt' Hsame; [lia|]. apply Hfirst; assumption.
        -- intros ([->|Hb] & Hr & Hw & Hfirst & He).
           ++ left. subst e. reflexivity.
           ++ right. apply IHch. repeat split; try assumption.
              ** cbn. specialize (Hrestb b Hb).
                 pose proof (epochNumber_mono b0 b).
                 destruct (Z.eq_dec (epochNumber Config b0) (epochNumber Config b)) as [Heq|Hne].
                 --- assert (percentReaches Config (minOfThresholds Config) b0 = false) as Hf.
                     { apply Hfirst; [left; reflexivity|lia|exact Heq]. }
                     congruence.
                 --- lia.
              ** intros b' Hb' Hlt' Hsame. apply Hfirst; [right; exact Hb'|exact Hlt'|exact Hsame].
    + set (st' := {| lastBlockSeen := b0; waitingForEpoch := waitingForEpoch st |}).
      destruct (IH st') as [IHnd IHch]; try assumption.
      { cbn. lia. }
      { intros b Hb. cbn. apply Hwait. right; exact Hb. }
      split; [exact IHnd|].
      intros b e. split.
      * intros Hin. apply IHch in Hin. destruct Hin as (Hb & Hr & Hw & Hfirst & He).
        cbn in Hw. repeat split; try assumption.
        -- right; exact Hb.
        -- intros b' [->|Hb'] Hlt' Hsame; [|apply Hfirst; assumption].
           apply andb_false_iff in E. destruct E as [E|E]; [exact E|].
           apply Z.ltb_ge in E. lia.
      * intros ([->|Hb] & Hr & Hw & Hfirst & He).
        -- apply andb_false_iff in E. destruct E as [E|E]; [congruence|].
           apply Z.ltb_ge in E. lia.
        -- apply IHch. repeat split; try assumption.
           intros b' Hb' Hlt' Hsame. apply Hfirst; [right; exact Hb'|exact Hlt'|exact Hsame].
Qed.

Lemma epochNumber_start : epochNumber Config (StartingEpochBlock Config) = 1.
Proof using Hvalid Hrange.
  unfold epochNumber. rewrite Z.ltb_irrefl, Z.sub_diag.
  rewrite (u64_small 0) by lia. rewrite Z.div_0_l by (pose proof N_pos; lia).
  apply u64_small. lia.
Qed.

(** C5 (amended): over a strictly increasing stream of blocks at or after
    StartingEpochBlock, the notifier publishes the event of an epoch at most
    once, and it publishes it exactly at the first block of that epoch in the
    stream, above StartingEpochBlock, whose float64 percentage is not below
    min(pct/100, (N-1)/N); the event carries that block's epoch number.  In
    scenario 3 (start 100, N 10, pct 50, blocks 100..109) the one event is
    that of epoch 1, at block 105. *)
Theorem notifier_publishes_once_at_min_threshold (blocks : list Z) :
  increasing blocks ->
  (forall b, In b blocks -> StartingEpochBlock Config <= b < 2 ^ 63) ->
  (NoDup (map (fun p => Epoch (snd p)) (startInternal Config blocks)) /\
   forall b e, In (b, e) (startInternal Config blocks) <->
     publishedAt Config (minOfThresholds Config) (StartingEpochBlock Config) blocks b e) /\
  startInternal scenarioConfig scenarioBlocks
  = [(105, {| Epoch := 1; ExtraInfo := {| PendingBlocks := 5 |} |})].
Proof using Hvalid Hrange.
  intros Hinc Hbnd. split; [|exact scenario_run].
  unfold startInternal, publishedAt.
  rewrite epochNumber_start.
  set (st0 := {| lastBlockSeen := StartingEpochBlock Config; waitingForEpoch := 1 |}).
  assert (Hgen : forall bs, increasing bs ->
            (forall b, In b bs -> StartingEpochBlock Config < b < 2 ^ 63) ->
            NoDup (map (fun p => Epoch (snd p)) (loop Config st0 bs)) /\
            forall b e, In (b, e) (loop Config st0 bs) <->
              (In b bs /\ percentReaches Config (minOfThresholds Config) b = true /\
               (forall b', In b' bs -> b' < b ->
                  epochNumber Config b' = epochNumber Config b ->
                  percentReaches Config (minOfThresholds Config) b' = false) /\
               e = eventAt Config b)).
  { intros bs Hi Hb.
    destruct (loop_spec bs st0 Hi) as [Hnd Hch].
    - exact Hb.
    - cbn. lia.
    - intros b Hin. cbn. specialize (Hb b Hin).
      pose proof (epochNumber_bounds b). lia.
    - split; [exact Hnd|]. intros b e. rewrite Hch. cbn [waitingForEpoch st0].
      split.
      + intros (H1 & H2 & _ & H4 & H5). auto.
      + intros (H1 & H2 & H4 & H5). repeat split; try assumption.
        specialize (Hb b H1). pose proof (epochNumber_bounds b). lia. }
  destruct blocks as [|b0 rest].
  - split; [constructor|]. intros b e. cbn. tauto.
  - destruct Hinc as [Hlt Hinc].
    destruct (Z.eq_dec b0 (StartingEpochBlock Config)) as [->|Hne].
    + rewrite loop_skip by (cbn; lia).
      destruct (Hgen rest Hinc) as [Hnd Hch].
      { intros b Hb. split; [apply Hlt; exact Hb|apply Hbnd; right; exact Hb]. }
      split; [exact Hnd|]. intros b e. rewrite Hch. split.
      * intros (H1 & H2 & H3 & H4). repeat split; try assumption.
        -- right; exact H1.
        -- apply Hlt; exact H1.
        -- intros b' [<-|Hb'] Hs Hl Hsame; [lia|]. apply H3; assumption.
      * intros ([<-|H1] & H0 & H2 & H3 & H4); [lia|]. repeat split; try assumption.
        intros b' Hb' Hl Hsame. apply H3; try assumption; [right; exact Hb'|].
        apply Hlt; exact Hb'.
    + assert (Hall : forall b, In b (b0 :: rest) -> StartingEpochBlock Config < b < 2 ^ 63).
      { intros b Hb. pose proof (Hbnd b Hb) as Hbb.
        pose proof (Hbnd b0 (or_introl eq_refl)) as Hb0.
        destruct Hb as [<-|Hb]; [lia|]. specialize (Hlt b Hb). lia. }
      destruct (Hgen (b0 :: rest)) as [Hnd Hch]; [split; assumption|exact Hall|].
      split; [exact Hnd|]. intros b e. rewrite Hch. split.
      * intros (H1 & H2 & H3 & H4). repeat split; try assumption.
        -- apply Hall; exact H1.
        -- intros b' Hb' _ Hl Hsame. apply H3; assumption.
      * intros (H1 & H0 & H2 & H3 & H4). repeat split; try assumption.
        intros b' Hb' Hl Hsame. apply H3; try assumption. apply Hall; exact Hb'.
Qed.

End Run.

Section Streams.
Variable Config : ConfigEpochNotifierPerBlock.
Hypothesis Hvalid : Validate Config = true.
Hypothesis Hrange : uintFields Config.

(** The quotient behind the epoch of a block, and the two ends of the epoch
    without wrap-around. *)
Lemma epoch_of_block (b : Z) :
  StartingEpochBlock Config <= b < 2 ^ 63 ->
  NumBlockPerEpoch Config < 2 ^ 63 ->
  exists q, 0 <= q /\
    epochNumber Config b = 1 + q /\
    startingBlockEpoch Config (1 + q)
      = StartingEpochBlock Config + q * NumBlockPerEpoch Config /\
    endBlockEpoch Config (1 + q)
      = StartingEpochBlock Config + (q + 1) * NumBlockPerEpoch Config /\
    NumBlockPerEpoch Config * q <= b - StartingEpochBlock Config
      < NumBlockPerEpoch Config * (q + 1).
Proof using Hvalid Hrange.
  intros Hb HN.
  pose proof (N_pos Config Hvalid Hrange) as Hpos.
  pose proof (div_block_bounds Config Hvalid Hrange (b - StartingEpochBlock Config)) as Hq.
  pose proof Hrange as (Hs & _ & _).
  exists ((b - StartingEpochBlock Config) / NumBlockPerEpoch Config).
  set (q := (b - StartingEpochBlock Config) / NumBlockPerEpoch Config) in *.
  assert (Hdm : NumBlockPerEpoch Config * q <= b - StartingEpochBlock Config
                < NumBlockPerEpoch Config * (q + 1)).
  { pose proof (Z.mul_div_le (b - StartingEpochBlock Config) (NumBlockPerEpoch Config) Hpos).
    pose proof (Z.mul_succ_div_gt (b - StartingEpochBlock Config) (NumBlockPerEpoch Config) Hpos).
    subst q. unfold Z.succ in *. lia. }
  split; [lia|].
  split; [apply (epochNumber_eq Config Hvalid Hrange); assumption|].
  split; [|split; [|exact Hdm]].
  - unfold startingBlockEpoch.
    destruct (1 + q =? 0) eqn:E; [apply Z.eqb_eq in E; lia|].
    replace (1 + q - 1) with q by lia.
    rewrite (u64_small q) by lia.
    rewrite (u64_small (q * NumBlockPerEpoch Config)) by nia.
    apply u64_small. nia.
  - unfold endBlockEpoch, startingBlockEpoch.
    rewrite (u64_small (1 + q + 1)) by lia.
    destruct (1 + q + 1 =? 0) eqn:E; [apply Z.eqb_eq in E; lia|].
    replace (1 + q + 1 - 1) with (q + 1) by lia.
    rewrite (u64_small (q + 1)) by lia.
    rewrite (u64_small ((q + 1) * NumBlockPerEpoch Config)) by nia.
    apply u64_small. nia.
Qed.

(** The epoch of a block is the window of N blocks that holds it: the window
    starts at startingBlockEpoch, ends before endBlockEpoch, and its first
    block has the same epoch number. *)
Theorem epoch_window (b : Z) :
  StartingEpochBlock Config <= b < 2 ^ 63 ->
  NumBlockPerEpoch Config < 2 ^ 63 ->
  startingBlockEpoch Config (epochNumber Config b) <= b
    < endBlockEpoch Config (epochNumber Config b) /\
  endBlockEpoch Config (epochNumber Config b)
    = startingBlockEpoch Config (epochNumber Config b) + NumBlockPerEpoch Config /\
  epochNumber Config (startingBlockEpoch Config (epochNumber Config b))
    = epochNumber Config b.
Proof using Hvalid Hrange.
  intros Hb HN.
  pose proof (N_pos Config Hvalid Hrange) as Hpos.
  pose proof Hrange as (Hs & _ & _).
  destruct (epoch_of_block b Hb HN) as (q & Hq & He & Hstart & Hend & Hdm).
  rewrite He, Hstart, Hend. repeat split; try nia.
  rewrite (epochNumber_eq Config Hvalid Hrange) by nia.
  replace (StartingEpochBlock Config + q * NumBlockPerEpoch Config - StartingEpochBlock Config)
    with (q * NumBlockPerEpoch Config) by lia.
  rewrite Z.div_mul by lia. reflexivity.
Qed.

(** The event built at a block says how many blocks are left until the next
    epoch starts: between 1 and N, and exactly the distance to the end of the
    block's epoch. *)
Theorem pending_blocks_until_next_epoch (b : Z) :
  StartingEpochBlock Config <= b < 2 ^ 63 ->
  NumBlockPerEpoch Config < 2 ^ 63 ->
  1 <= PendingBlocks (ExtraInfo (eventAt Config b)) <= NumBlockPerEpoch Config /\
  b + PendingBlocks (ExtraInfo (eventAt Config b))
    = endBlockEpoch Config (Epoch (eventAt Config b)).
Proof using Hvalid Hrange.
  intros Hb HN.
  pose proof (N_pos Config Hvalid Hrange) as Hpos.
  pose proof Hrange as (Hs & HNr & _).
  destruct (epoch_of_block b Hb HN) as (q & Hq & He & Hstart & Hend & Hdm).
  cbn [eventAt Epoch ExtraInfo infoEpoch PendingBlocks].
  rewrite He, Hend.
  rewrite u64_small by nia. rewrite int64_small by nia. nia.
Qed.

Lemma step_lastBlockSeen (st : internalStatus) (b : Z) :
  lastBlockSeen st < b -> StartingEpochBlock Config <= lastBlockSeen st ->
  lastBlockSeen (fst (step Config st b)) = b.
Proof.
  intros Hb Hs. unfold step.
  destruct (b <? StartingEpochBlock Config) eqn:E1; [apply Z.ltb_lt in E1; lia|].
  destruct (b <=? lastBlockSeen st) eqn:E2; [apply Z.leb_le in E2; lia|].
  destruct (isNotificationRequired Config b _) as [[|] closing]; reflexivity.
Qed.

Lemma loop_records (blocks : list Z) : forall st : internalStatus,
  StartingEpochBlock Config <= lastBlockSeen st ->
  loop Config st blocks = loop Config st (records (lastBlockSeen st) blocks).
Proof.
  induction blocks as [|b rest IH]; intros st Hs; [reflexivity|].
  cbn [records].
  destruct (lastBlockSeen st <? b) eqn:E.
  - apply Z.ltb_lt in E.
    pose proof (step_lastBlockSeen st b E Hs) as Hlast.
    cbn [loop]. destruct (step Config st b) as [st' ev]. cbn [fst] in Hlast.
    rewrite <- Hlast. rewrite <- (IH st') by lia.
    reflexivity.
  - apply Z.ltb_ge in E. rewrite loop_skip by exact E. apply IH. exact Hs.
Qed.

Lemma records_spec (blocks : list Z) : forall last,
  increasing (records last blocks) /\
  forall b, In b (records last blocks) -> In b blocks /\ last < b.
Proof.
  induction blocks as [|b0 rest IH]; intros last; [split; [exact I|intros b []]|].
  cbn [records]. destruct (last <? b0) eqn:E.
  - apply Z.ltb_lt in E. destruct (IH b0) as [Hinc Hin]. split.
    + split; [|exact Hinc]. intros b' Hb'. apply Hin in Hb'. tauto.
    + intros b [<-|Hb]; [split; [left; reflexivity|exact E]|].
      apply Hin in Hb. split; [right; tauto|lia].
  - destruct (IH last) as [Hinc Hin]. split; [exact Hinc|].
    intros b Hb. apply Hin in Hb. split; [right; tauto|tauto].
Qed.

(** Whatever the order of the blocks received, repeated or going back, the
    notifier behaves as on the blocks that set a new high: it publishes each
    epoch at most once, and only at received blocks above StartingEpochBlock. *)
Theorem any_stream_publishes_each_epoch_once (blocks : list Z) :
  (forall b, In b blocks -> b < 2 ^ 63) ->
  startInternal Config blocks
    = startInternal Config (records (StartingEpochBlock Config) blocks) /\
  NoDup (map (fun p => Epoch (snd p)) (startInternal Config blocks)) /\
  forall b e, In (b, e) (startInternal Config blocks) ->
    In b blocks /\ StartingEpochBlock Config < b /\ e = eventAt Config b.
Proof using Hvalid Hrange.
  intros Hbnd. unfold startInternal.
  set (st0 := {| lastBlockSeen := StartingEpochBlock Config;
                 waitingForEpoch := epochNumber Config (StartingEpochBlock Config) |}).
  assert (Hrec : loop Config st0 blocks
                 = loop Config st0 (records (StartingEpochBlock Config) blocks)).
  { apply (loop_records blocks st0). cbn. lia. }
  split; [exact Hrec|]. rewrite Hrec.
  destruct (records_spec blocks (StartingEpochBlock Config)) as [Hinc Hin].
  destruct (loop_spec Config Hvalid Hrange
              (records (StartingEpochBlock Config) blocks) st0 Hinc) as [Hnd Hch].
  - intros b Hb. apply Hin in Hb. cbn. split; [tauto|apply Hbnd; tauto].
  - cbn. lia.
  - intros b Hb. apply Hin in Hb. cbn.
    rewrite (epochNumber_start Config Hvalid Hrange).
    pose proof (epochNumber_bounds Config Hvalid Hrange b) as Hb'.
    destruct Hb as [Hb1 Hb2]. specialize (Hbnd b Hb1). lia.
  - split; [exact Hnd|]. intros b e Hbe. apply Hch in Hbe.
    destruct Hbe as (Hb & _ & _ & _ & He). apply Hin in Hb. tauto.
Qed.

End Streams.

Lemma scenario_increasing : increasing scenarioBlocks.
Proof. cbn. repeat split; intros b' Hb'; intuition lia. Qed.

Lemma notifier_publishes_once_at_min_threshold_witness :
  (NoDup (map (fun p => Epoch (snd p)) (startInternal scenarioConfig scenarioBlocks)) /\
   forall b e, In (b, e) (startInternal scenarioConfig scenarioBlocks) <->
     publishedAt scenarioConfig (minOfThresholds scenarioConfig)
       (StartingEpochBlock scenarioConfig) scenarioBlocks b e) /\
  startInternal scenarioConfig scenarioBlocks
  = [(105, {| Epoch := 1; ExtraInfo := {| PendingBlocks := 5 |} |})].
Proof.
  apply (notifier_publishes_once_at_min_threshold scenarioConfig).
  - reflexivity.
  - unfold uintFields. cbn. lia.
  - exact scenario_increasing.
  - intros b Hb. cbn in Hb |- *. intuition lia.
Defined.

(** C5 (as stated) fails: in scenario 3 the event of epoch 1 is published at
    block 105, whose percentage 0.5 is below max(50/100, 9/10). *)
Lemma notifier_not_at_max_threshold :
  ~ publishedOnlyAboveMax scenarioConfig scenarioBlocks.
Proof.
  intros H.
  specialize (H 105 {| Epoch := 1; ExtraInfo := {| PendingBlocks := 5 |} |}).
  rewrite scenario_run in H.
  specialize (H (or_introl eq_refl)).
  vm_compute in H. discriminate H.
Qed.

Lemma epoch_window_witness :
  startingBlockEpoch scenarioConfig (epochNumber scenarioConfig 117) <= 117
    < endBlockEpoch scenarioConfig (epochNumber scenarioConfig 117) /\
  endBlockEpoch scenarioConfig (epochNumber scenarioConfig 117)
  = startingBlockEpoch scenarioConfig (epochNumber scenarioConfig 117)
    + NumBlockPerEpoch scenarioConfig /\
  epochNumber scenarioConfig (startingBlockEpoch scenarioConfig (epochNumber scenarioConfig 117))
  = epochNumber scenarioConfig 117.
Proof.
  apply (epoch_window scenarioConfig).
  - reflexivity.
  - unfold uintFields. cbn. lia.
  - cbn. lia.
  - cbn. lia.
Defined.

Lemma pending_blocks_until_next_epoch_witness :
  1 <= PendingBlocks (ExtraInfo (eventAt scenarioConfig 117))
    <= NumBlockPerEpoch scenarioConfig /\
  117 + PendingBlocks (ExtraInfo (eventAt scenarioConfig 117))
  = endBlockEpoch scenarioConfig (Epoch (eventAt scenarioConfig 117)).
Proof.
  apply (pending_blocks_until_next_epoch scenarioConfig).
  - reflexivity.
  - unfold uintFields. cbn. lia.
  - cbn. lia.
  - cbn. lia.
Defined.

Lemma any_stream_publishes_each_epoch_once_witness :
  startInternal scenarioConfig unorderedBlocks
  = startInternal scenarioConfig (records (StartingEpochBlock scenarioConfig) unorderedBlocks) /\
  NoDup (map (fun p => Epoch (snd p)) (startInternal scenarioConfig unorderedBlocks)) /\
  forall b e, In (b, e) (startInternal scenarioConfig unorderedBlocks) ->
    In b unorderedBlocks /\ StartingEpochBlock scenarioConfig < b /\
    e = eventAt scenarioConfig b.
Proof.
  apply (any_stream_publishes_each_epoch_once scenarioConfig).
  - reflexivity.
  - unfold uintFields. cbn. lia.
  - intros b Hb. cbn in Hb. intuition lia.
Defined.

End EpochNotifierFacts.
